(** * Technical-analysis and backtesting engine of the crypto dashboard

    A shallow embedding of the indicator pipeline
    (lib/crypto/technical-analysis: SMA, EMA, RSI, MACD, Bollinger bands,
    support/resistance, the signal aggregator), of the API-route backtester
    (app/api/backtest/route.ts) and of the single-value helpers and the core
    backtester of lib/store.ts, followed by the properties of the
    specification that are checked against them.

    Numbers.  A JavaScript [number] is modelled by an exact rational ([Q]),
    every arithmetic result being put in lowest terms so that the model
    computes.  Rounding, overflow and the IEEE results of a division by
    zero are outside the model: theorems that rely on a quotient assume the
    divisor is not zero, and the one test the code makes on a quotient
    whose divisor may be 0 (the nearness test of the level merge) is
    modelled with the outcome the code has.  [Math.sqrt] is a parameter of
    the definitions
    that call it.  The one place where the code produces [NaN] on
    well-formed input (an out-of-range array read in the store's MACD) is
    modelled with an explicit [NaN] value. *)

From Stdlib Require Import String.
From Stdlib Require Import List Arith ZArith QArith Qabs Qround Bool Lia Lqa.
From Stdlib Require Import Sorted Permutation Morphisms.
Import ListNotations.

(** ** Numbers *)

Module Num.

Definition number := Q.

Definition add (a b : number) : number := Qred (a + b).
Definition sub (a b : number) : number := Qred (a - b).
Definition mul (a b : number) : number := Qred (a * b).
Definition div (a b : number) : number := Qred (a / b).
Definition abs (a : number) : number := Qabs a.

Definition ltb (a b : number) : bool := negb (Qle_bool b a).
Definition leb (a b : number) : bool := Qle_bool a b.
Definition gtb (a b : number) : bool := ltb b a.
Definition geb (a b : number) : bool := leb b a.
Definition eqb (a b : number) : bool := Qeq_bool a b.

Definition ofNat (n : nat) : number := inject_Z (Z.of_nat n).
Definition ofZ (z : Z) : number := inject_Z z.

(** [x ?? 0] and the numeric coercion of [null]. *)
Definition orZero (o : option number) : number :=
  match o with Some q => q | None => 0 end.

(** A rational approximation of the square root (error below 2^-30), used
    only to evaluate the pipeline on concrete series. *)
Definition sqrtApprox (q : number) : number :=
  Qred (Z.sqrt (Qnum q * 2 ^ 60 / Zpos (Qden q)) # 2 ^ 30).

End Num.

Declare Scope js_scope.
Delimit Scope js_scope with js.
Infix "+" := Num.add : js_scope.
Infix "-" := Num.sub : js_scope.
Infix "*" := Num.mul : js_scope.
Infix "/" := Num.div : js_scope.
Infix "<?" := Num.ltb : js_scope.
Infix "<=?" := Num.leb : js_scope.
Infix ">?" := Num.gtb : js_scope.
Infix ">=?" := Num.geb : js_scope.
Infix "=?" := Num.eqb : js_scope.

(** ** Arrays *)

Module Arr.

(** [l.slice(s, e)] for indices [0 <= s], [0 <= e]. *)
Definition slice {A : Type} (l : list A) (s e : nat) : list A :=
  firstn (e - s) (skipn s l).

(** [l.reduce((a, b) => a + b, 0)]. *)
Definition sum (l : list Num.number) : Num.number :=
  fold_left Num.add l 0%Q.

(** A [for] loop over the indices [idx] that carries a state and pushes one
    value per iteration. *)
Fixpoint forPush {S A : Type} (body : S -> nat -> S * A) (idx : list nat) (s : S)
  : S * list A :=
  match idx with
  | [] => (s, [])
  | i :: rest =>
      let (s1, a) := body s i in
      let (s2, out) := forPush body rest s1 in
      (s2, a :: out)
  end.

(** [arr[i]] on an array of [number | null], read inside its bounds. *)
Definition get {A : Type} (l : list (option A)) (i : nat) : option A :=
  nth i l None.

(** [arr[arr.length - 1]]. *)
Definition lastOpt {A : Type} (l : list A) : option A :=
  nth_error l (length l - 1).

(** [l.slice(-k)]: the last [k] elements; [slice(-0)] is the whole array. *)
Definition sliceLast {A : Type} (l : list A) (k : nat) : list A :=
  if (k =? 0)%nat then l else skipn (length l - k) l.

(** [[...l].sort(cmp)]: a stable sort, [cmp a b <= 0] keeping [a] first. *)
Fixpoint insertSorted {A : Type} (cmp : A -> A -> Num.number) (x : A) (l : list A)
  : list A :=
  match l with
  | [] => [x]
  | y :: r => if Num.leb (cmp x y) 0%Q then x :: y :: r
              else y :: insertSorted cmp x r
  end.

Definition sortBy {A : Type} (cmp : A -> A -> Num.number) (l : list A) : list A :=
  fold_right (insertSorted cmp) [] l.

End Arr.

(** ** lib/crypto/technical-analysis *)

Module TechnicalAnalysis.
Import Num Arr.
Local Open Scope Q_scope.
Local Open Scope js_scope.

Definition calculateSMA (data : list number) (period : nat) : list (option number) :=
  map (fun i =>
         if (i + 1 <? period)%nat then None
         else Some (sum (slice data (i + 1 - period) (i + 1)) / ofNat period))
      (seq 0 (length data)).

Definition emaBody (data : list number) (period : nat) (multiplier : number)
  (ema : option number) (i : nat) : option number * option number :=
  if (i + 1 <? period)%nat then (ema, None)
  else if (i + 1 =? period)%nat then
    let e := sum (slice data 0 period) / ofNat period in (Some e, Some e)
  else
    let e := (nth i data 0 - orZero ema) * multiplier + orZero ema in
    (Some e, Some e).

Definition calculateEMA (data : list number) (period : nat) : list (option number) :=
  let multiplier := 2 / (ofNat period + 1) in
  snd (forPush (emaBody data period multiplier) (seq 0 (length data)) None).

Definition calculateStdDev (sqrt : number -> number) (data : list number) (period : nat)
  : list (option number) :=
  map (fun i =>
         if (i + 1 <? period)%nat then None
         else
           let sl := slice data (i + 1 - period) (i + 1) in
           let mean := sum sl / ofNat period in
           let squaredDiffs := map (fun value => (value - mean) * (value - mean)) sl in
           let variance := sum squaredDiffs / ofNat period in
           Some (sqrt variance))
      (seq 0 (length data)).

(** *** RSI *)

Definition gainsOf (closes : list number) : list number :=
  map (fun i => let change := nth i closes 0 - nth (i - 1) closes 0 in
                if change >? 0 then change else 0)
      (seq 1 (length closes - 1)).

Definition lossesOf (closes : list number) : list number :=
  map (fun i => let change := nth i closes 0 - nth (i - 1) closes 0 in
                if change <? 0 then abs change else 0)
      (seq 1 (length closes - 1)).

(** The pair (avgGain, avgLoss) the loop computes at index [i >= period].
    Past the seed the "previous" averages are the plain means of the last
    [period] gains and losses, a window that ends with the current ones;
    the local [prevRSI] the code also reads there is never used. *)
Definition rsiAverages (closes : list number) (period i : nat) : number * number :=
  let gains := gainsOf closes in
  let losses := lossesOf closes in
  if (i =? period)%nat then
    (sum (slice gains 0 period) / ofNat period,
     sum (slice losses 0 period) / ofNat period)
  else
    let prevAvgGain := sum (slice gains (i - period) i) / ofNat period in
    let prevAvgLoss := sum (slice losses (i - period) i) / ofNat period in
    let currentGain := nth (i - 1) gains 0 in
    let currentLoss := nth (i - 1) losses 0 in
    ((prevAvgGain * (ofNat period - 1) + currentGain) / ofNat period,
     (prevAvgLoss * (ofNat period - 1) + currentLoss) / ofNat period).

Definition rsiOfAverages (avg : number * number) : number :=
  let (avgGain, avgLoss) := avg in
  if avgLoss =? 0 then 100
  else let rs := avgGain / avgLoss in 100 - 100 / (1 + rs).

Definition calculateRSI (closes : list number) (period : nat) : list (option number) :=
  map (fun i => if (i <? period)%nat then None
                else Some (rsiOfAverages (rsiAverages closes period i)))
      (seq 0 (length closes)).

Definition getRSISignal (rsi : number) : string * Z :=
  if rsi <=? 20 then ("STRONG_OVERSOLD"%string, 5%Z)
  else if rsi <=? 30 then ("OVERSOLD"%string, 4%Z)
  else if rsi <=? 40 then ("SLIGHTLY_OVERSOLD"%string, 2%Z)
  else if rsi >=? 80 then ("STRONG_OVERBOUGHT"%string, (-5)%Z)
  else if rsi >=? 70 then ("OVERBOUGHT"%string, (-4)%Z)
  else if rsi >=? 60 then ("SLIGHTLY_OVERBOUGHT"%string, (-2)%Z)
  else ("NEUTRAL"%string, 0%Z).

(** *** MACD *)

Record MACD := mkMACD {
  macd : list (option number);
  signal : list (option number);
  histogram : list (option number)
}.

Definition diffLine (a b : list (option number)) (n : nat) : list (option number) :=
  map (fun i => match get a i, get b i with
                | Some x, Some y => Some (x - y)
                | _, _ => None
                end)
      (seq 0 n).

Definition calculateMACD (closes : list number) : MACD :=
  let ema12 := calculateEMA closes 12 in
  let ema26 := calculateEMA closes 26 in
  let macdLine := diffLine ema12 ema26 (length closes) in
  let validMacd := map orZero macdLine in
  let signalLine := calculateEMA validMacd 9 in
  let histogram := diffLine macdLine signalLine (length closes) in
  mkMACD macdLine signalLine histogram.


Definition getMACDSignal (macd signal histogram prevHistogram : option number)
  : string * Z :=
  match macd, signal, histogram with
  | Some _, Some _, Some h =>
      match prevHistogram with
      | Some p =>
          if (h >? 0) && (p <=? 0) then ("BULLISH_CROSSOVER"%string, 4%Z)
          else if (h <? 0) && (p >=? 0) then ("BEARISH_CROSSOVER"%string, (-4)%Z)
          else if h >? 0 then ("BULLISH"%string, if h >? (1 # 2) then 2%Z else 1%Z)
          else ("BEARISH"%string, if h <? (-1 # 2) then (-2)%Z else (-1)%Z)
      | None =>
          if h >? 0 then ("BULLISH"%string, if h >? (1 # 2) then 2%Z else 1%Z)
          else ("BEARISH"%string, if h <? (-1 # 2) then (-2)%Z else (-1)%Z)
      end
  | _, _, _ => ("NEUTRAL"%string, 0%Z)
  end.

(** *** Bollinger bands *)

Record Bollinger := mkBollinger {
  upper : list (option number);
  middle : list (option number);
  lower : list (option number);
  width : list (option number)
}.

(** The three values pushed at index [i]: upper, lower, width. *)
Definition bandsAt (stdDevMultiplier : number) (m sd : option number)
  : option number * option number * option number :=
  match m, sd with
  | Some mi, Some sdi =>
      let upperBand := mi + stdDevMultiplier * sdi in
      let lowerBand := mi - stdDevMultiplier * sdi in
      (Some upperBand, Some lowerBand,
       if mi =? 0 then None else Some ((upperBand - lowerBand) / mi))
  | _, _ => (None, None, None)
  end.

Definition calculateBollingerBands (sqrt : number -> number) (closes : list number)
  (period : nat) (stdDevMultiplier : number) : Bollinger :=
  let middle := calculateSMA closes period in
  let stdDev := calculateStdDev sqrt closes period in
  let rows := map (fun i => bandsAt stdDevMultiplier (get middle i) (get stdDev i))
                  (seq 0 (length closes)) in
  mkBollinger (map (fun r => fst (fst r)) rows) middle
              (map (fun r => snd (fst r)) rows) (map snd rows).

Definition getBollingerSignal (price : number) (upper middle lower : option number)
  : string * Z * number :=
  match upper, middle, lower with
  | Some u, Some m, Some l =>
      let percentB := (price - l) / (u - l) in
      if price >? u then ("ABOVE_UPPER"%string, (-3)%Z, percentB)
      else if price <? l then ("BELOW_LOWER"%string, 3%Z, percentB)
      else if price >? m then ("UPPER_HALF"%string, 1%Z, percentB)
      else ("LOWER_HALF"%string, (-1)%Z, percentB)
  | _, _, _ => ("NEUTRAL"%string, 0%Z, 1 # 2)
  end.

(** *** Support and resistance *)

Record CandleData := mkCandle {
  timestamp : Z;
  open : number;
  high : number;
  low : number;
  close : number;
  volume : number
}.

Inductive LevelType := support | resistance.

Definition LevelType_eqb (a b : LevelType) : bool :=
  match a, b with
  | support, support | resistance, resistance => true
  | _, _ => false
  end.

Record PriceLevel := mkLevel {
  price : number;
  type : LevelType;
  strength : nat;
  touches : nat;
  lastTouch : Z
}.

Record SupportResistanceLevels := mkSR {
  supports : list PriceLevel;
  resistances : list PriceLevel;
  pivotPoint : number
}.

Record PivotPoints := mkPivots {
  pivot : number; r1 : number; r2 : number; r3 : number;
  s1 : number; s2 : number; s3 : number
}.

Definition calculatePivotPoints (high low close : number) : PivotPoints :=
  let pivot := (high + low + close) / 3 in
  let r1 := 2 * pivot - low in
  let s1 := 2 * pivot - high in
  let r2 := pivot + (high - low) in
  let s2 := pivot - (high - low) in
  let r3 := high + 2 * (pivot - low) in
  let s3 := low - 2 * (high - pivot) in
  mkPivots pivot r1 r2 r3 s1 s2 s3.

Definition noCandle : CandleData := mkCandle 0 0 0 0 0 0.

(** The levels pushed by the iteration at index [i] of the local-extrema scan. *)
Definition localLevels (recentCandles : list CandleData) (i : nat) : list PriceLevel :=
  let candle := nth i recentCandles noCandle in
  let prev1 := nth (i - 1) recentCandles noCandle in
  let prev2 := nth (i - 2) recentCandles noCandle in
  let next1 := nth (i + 1) recentCandles noCandle in
  let next2 := nth (i + 2) recentCandles noCandle in
  (if (high candle >? high prev1) && (high candle >? high prev2) &&
      (high candle >? high next1) && (high candle >? high next2)
   then [mkLevel (high candle) resistance 1 1 (timestamp candle)] else [])
  ++
  (if (low candle <? low prev1) && (low candle <? low prev2) &&
      (low candle <? low next1) && (low candle <? low next2)
   then [mkLevel (low candle) support 1 1 (timestamp candle)] else []).

(** The test of [mergedLevels.find].  At a level price of 0 the quotient is
    [NaN] or [Infinity] in the code and the comparison with the threshold
    is false. *)
Definition isNearby (threshold : number) (level l : PriceLevel) : bool :=
  LevelType_eqb (type l) (type level) &&
  (negb (price level =? 0) &&
   (abs (price l - price level) / price level <? threshold)).

(** The in-place update of the level found by [find]. *)
Definition touch (nearby level : PriceLevel) : PriceLevel :=
  let p := (price nearby * ofNat (touches nearby) + price level)
           / (ofNat (touches nearby) + 1) in
  let t := S (touches nearby) in
  mkLevel p (type nearby) (Nat.min 5 t) t (lastTouch nearby).

(** [mergedLevels.find(...)] followed by the update of the element found;
    [None] when no level is nearby. *)
Fixpoint touchFirstNearby (threshold : number) (level : PriceLevel)
  (mergedLevels : list PriceLevel) : option (list PriceLevel) :=
  match mergedLevels with
  | [] => None
  | l :: rest =>
      if isNearby threshold level l then Some (touch l level :: rest)
      else option_map (cons l) (touchFirstNearby threshold level rest)
  end.

Definition mergeStep (threshold : number) (mergedLevels : list PriceLevel)
  (level : PriceLevel) : list PriceLevel :=
  match touchFirstNearby threshold level mergedLevels with
  | Some updated => updated
  | None => mergedLevels ++ [level]
  end.

Definition mergeLevels (threshold : number) (levels : list PriceLevel) : list PriceLevel :=
  let sortedLevels := sortBy (fun a b => price a - price b) levels in
  fold_left (mergeStep threshold) sortedLevels [].

Definition isType (t : LevelType) (l : PriceLevel) : bool := LevelType_eqb (type l) t.

Definition findSupportResistance (candles : list CandleData) (lookback : nat)
  (threshold : number) : SupportResistanceLevels :=
  if (length candles <? 10)%nat then
    mkSR [] []
         match lastOpt candles with
         | Some c => if close c =? 0 then 0 else close c
         | None => 0
         end
  else
    let recentCandles := sliceLast candles lookback in
    let levels := flat_map (localLevels recentCandles)
                           (seq 2 (length recentCandles - 4)) in
    let mergedLevels := mergeLevels threshold levels in
    let lastRecent := nth (length recentCandles - 1) recentCandles noCandle in
    let pivotData := calculatePivotPoints (high lastRecent) (low lastRecent)
                                          (close lastRecent) in
    mkSR (sortBy (fun a b => price b - price a) (filter (isType support) mergedLevels))
         (sortBy (fun a b => price a - price b) (filter (isType resistance) mergedLevels))
         (pivot pivotData).

Record NearestLevels := mkNearest {
  nearestSupport : option PriceLevel;
  nearestResistance : option PriceLevel;
  distanceToSupport : number;
  distanceToResistance : number
}.

Definition getNearestLevels (currentPrice : number) (levels : SupportResistanceLevels)
  : NearestLevels :=
  let nearestSupport := find (fun s => price s <? currentPrice) (supports levels) in
  let nearestResistance := find (fun r => price r >? currentPrice) (resistances levels) in
  mkNearest nearestSupport nearestResistance
    match nearestSupport with
    | Some s => ((currentPrice - price s) / currentPrice) * 100
    | None => 100
    end
    match nearestResistance with
    | Some r => ((price r - currentPrice) / currentPrice) * 100
    | None => 100
    end.

(** *** Volume *)

Definition analyzeVolume (volumes : list number) (period : nat)
  : list (option number) * list (option number) :=
  let sma := calculateSMA volumes period in
  let ratio := map (fun i => match get sma i with
                             | None => None
                             | Some m => if m =? 0 then None
                                         else Some (nth i volumes 0 / m)
                             end)
                   (seq 0 (length volumes)) in
  (sma, ratio).

Definition getVolumeSignal (volumeRatio : option number) (priceChange : number)
  : string * Z :=
  match volumeRatio with
  | None => ("NEUTRAL"%string, 0%Z)
  | Some ratio =>
      if (ratio >? 2) && (priceChange >? 0) then ("HIGH_VOLUME_BULLISH"%string, 3%Z)
      else if (ratio >? 2) && (priceChange <? 0) then ("HIGH_VOLUME_BEARISH"%string, (-3)%Z)
      else if ratio <? (1 # 2) then ("LOW_VOLUME"%string, 0%Z)
      else ("NORMAL"%string, 0%Z)
  end.

(** *** Comprehensive analysis *)

Inductive Trend := BULLISH | BEARISH | SIDEWAYS.
Inductive Signal := STRONG_BUY | BUY | NEUTRAL | SELL | STRONG_SELL.

Module Indicators.
Record MacdNow := mkMacdNow {
  macd : option number; signal : option number; histogram : option number
}.
Record BollingerNow := mkBollingerNow {
  upper : option number; middle : option number;
  lower : option number; width : option number
}.
Record MovingAverages := mkMovingAverages {
  sma20 : option number; sma50 : option number; sma200 : option number;
  ema20 : option number; ema50 : option number; ema200 : option number
}.
Record VolumeNow := mkVolumeNow {
  volumeSma20 : option number; ratio : option number
}.
Record SupportResistanceNow := mkSupportResistanceNow {
  support1 : option number; support2 : option number;
  resistance1 : option number; resistance2 : option number;
  pivot : number
}.
Record TechnicalIndicators := mkTechnicalIndicators {
  rsi : option number;
  macdNow : MacdNow;
  bollingerBands : BollingerNow;
  movingAverages : MovingAverages;
  volume : VolumeNow;
  supportResistance : SupportResistanceNow;
  trend : Trend;
  signalNow : Signal;
  signalScore : Z
}.
End Indicators.

(** The module-level constant [levels], declared after the function that
    reads it. *)
Module ModuleLevels.
Record t := mk { supports : list PriceLevel; resistances : list PriceLevel }.
End ModuleLevels.

Definition levels : ModuleLevels.t := ModuleLevels.mk [] [].

(** [arr[arr.length - k]]; reading before the start gives [undefined],
    which every use below treats like [null]. *)
Definition fromEnd {A : Type} (l : list (option A)) (k : nat) : option A :=
  if (length l <? k)%nat then None else get l (length l - k).

(** [x?.price || null]. *)
Definition priceOrNull (l : option PriceLevel) : option number :=
  match l with
  | Some x => if price x =? 0 then None else Some (price x)
  | None => None
  end.

(** Fails (the code throws on [lastCandle.close]) on an empty series. *)
Definition performTechnicalAnalysis (sqrt : number -> number)
  (candles : list CandleData) : option Indicators.TechnicalIndicators :=
  let closes := map close candles in
  let volumes := map volume candles in
  match lastOpt candles with
  | None => None
  | Some lastCandle =>
  let rsiArray := calculateRSI closes 14 in
  let rsi := fromEnd rsiArray 1 in
  let macdResult := calculateMACD closes in
  let macd := fromEnd (macd macdResult) 1 in
  let macdSignal := fromEnd (signal macdResult) 1 in
  let macdHistogram := fromEnd (histogram macdResult) 1 in
  let prevHistogram := fromEnd (histogram macdResult) 2 in
  let bollinger := calculateBollingerBands sqrt closes 20 2 in
  let bollingerUpper := fromEnd (upper bollinger) 1 in
  let bollingerMiddle := fromEnd (middle bollinger) 1 in
  let bollingerLower := fromEnd (lower bollinger) 1 in
  let bollingerWidth := fromEnd (width bollinger) 1 in
  let sma20 := get (calculateSMA closes 20) (length closes - 1) in
  let sma50 := get (calculateSMA closes 50) (length closes - 1) in
  let sma200 := get (calculateSMA closes 200) (length closes - 1) in
  let ema20 := get (calculateEMA closes 20) (length closes - 1) in
  let ema50 := get (calculateEMA closes 50) (length closes - 1) in
  let ema200 := get (calculateEMA closes 200) (length closes - 1) in
  let volumeAnalysis := analyzeVolume volumes 20 in
  let volumeSma20 := fromEnd (fst volumeAnalysis) 1 in
  let volumeRatio := fromEnd (snd volumeAnalysis) 1 in
  let supportResistance := findSupportResistance candles 100 (2 # 100) in
  let nearest := getNearestLevels (close lastCandle) supportResistance in
  let signalScore := 0%Z in
  (* RSI contribution: [rsi || 50] *)
  let rsiSignal := getRSISignal match rsi with
                                | Some r => if r =? 0 then 50 else r
                                | None => 50
                                end in
  let signalScore := (signalScore + snd rsiSignal * 4)%Z in
  let macdSignalResult := getMACDSignal macd macdSignal macdHistogram prevHistogram in
  let signalScore := (signalScore + snd macdSignalResult * 3)%Z in
  let bollingerSignal :=
    getBollingerSignal (close lastCandle) bollingerUpper bollingerMiddle bollingerLower in
  let signalScore := (signalScore + snd (fst bollingerSignal) * 2)%Z in
  (* MA alignment *)
  let signalScore :=
    match sma20, sma50 with
    | Some a, Some b => if a >? b then (signalScore + 2)%Z else (signalScore - 2)%Z
    | _, _ => signalScore
    end in
  let signalScore :=
    match sma50, sma200 with
    | Some a, Some b => if a >? b then (signalScore + 2)%Z else (signalScore - 2)%Z
    | _, _ => signalScore
    end in
  let signalScore :=
    match sma20 with
    | Some a => if close lastCandle >? a then (signalScore + 1)%Z else (signalScore - 1)%Z
    | None => signalScore
    end in
  (* Volume contribution; on a one-candle series [closes[-1]] is undefined,
     and the volume ratio is then null, so the change is not read. *)
  let priceChange := nth (length closes - 1) closes 0 - nth (length closes - 2) closes 0 in
  let volumeSignal := getVolumeSignal volumeRatio priceChange in
  let signalScore := (signalScore + snd volumeSignal * 3)%Z in
  let signalScore :=
    match ema200 with
    | Some e => if close lastCandle <? e then (signalScore - 6)%Z else (signalScore + 4)%Z
    | None => signalScore
    end in
  (* Support/resistance contribution *)
  let signalScore :=
    if distanceToSupport nearest <? (3 # 2) then
      let strengthBonus := match nearestSupport nearest with
                           | Some s => if (strength s =? 0)%nat then 1%Z
                                       else Z.of_nat (strength s)
                           | None => 1%Z
                           end in
      (signalScore + (2 + strengthBonus))%Z
    else signalScore in
  let signalScore :=
    if distanceToResistance nearest <? (3 # 2) then (signalScore - 5)%Z
    else signalScore in
  let trend :=
    match ema20, ema50 with
    | Some e20, Some e50 =>
        if (close lastCandle >? e20) && (e20 >? e50) then BULLISH
        else if (close lastCandle <? e20) && (e20 <? e50) then BEARISH
        else SIDEWAYS
    | _, _ => SIDEWAYS
    end in
  let signal :=
    if (signalScore >=? 22)%Z then STRONG_BUY
    else if (signalScore >=? 10)%Z then BUY
    else if (signalScore <=? -22)%Z then STRONG_SELL
    else if (signalScore <=? -10)%Z then SELL
    else NEUTRAL in
  Some (Indicators.mkTechnicalIndicators
          rsi
          (Indicators.mkMacdNow macd macdSignal macdHistogram)
          (Indicators.mkBollingerNow bollingerUpper bollingerMiddle bollingerLower
                                     bollingerWidth)
          (Indicators.mkMovingAverages sma20 sma50 sma200 ema20 ema50 ema200)
          (Indicators.mkVolumeNow volumeSma20 volumeRatio)
          (Indicators.mkSupportResistanceNow
             (priceOrNull (nearestSupport nearest))
             (priceOrNull (nth_error (ModuleLevels.supports levels) 1))
             (priceOrNull (nearestResistance nearest))
             (priceOrNull (nth_error (ModuleLevels.resistances levels) 1))
             (pivotPoint supportResistance))
          trend signal signalScore)
  end.

(** *** Opportunity scanner *)

(** The trigger texts; the one for the RSI embeds the formatted value, of
    which the model keeps the number. *)
Inductive Trigger :=
| RsiOversoldTrigger (rsi : number)
| BelowLowerBandTrigger
| MacdPositiveTrigger
| NearSupportTrigger.

Record ScanOpportunity := mkOpportunity {
  symbol : string;
  oppPrice : number;
  oppSignal : Signal;
  oppScore : Z;
  oppRsi : option number;
  distanceFromSupport : number;
  triggers : list Trigger
}.

(** [x && ...] on a [number | null]: null and 0 are falsy. *)
Definition truthy (o : option number) : option number :=
  match o with
  | Some x => if x =? 0 then None else Some x
  | None => None
  end.

(** The body of the loop for one instrument: the opportunity pushed, if
    any. *)
Definition scanOne (sqrt : number -> number) (crypto : string * list CandleData)
  : list ScanOpportunity :=
  let (sym, candles) := crypto in
  if (length candles <? 50)%nat then []
  else
    match performTechnicalAnalysis sqrt candles with
    | None => []
    | Some analysis =>
        let lastPrice := close (nth (length candles - 1) candles noCandle) in
        let support1 :=
          Indicators.support1 (Indicators.supportResistance analysis) in
        let triggers :=
          (match Indicators.rsi analysis with
           | Some r => if r <? 35 then [RsiOversoldTrigger r] else []
           | None => []
           end)
          ++
          (match truthy (Indicators.lower (Indicators.bollingerBands analysis)) with
           | Some lb => if lastPrice <? lb then [BelowLowerBandTrigger] else []
           | None => []
           end)
          ++
          (match Indicators.histogram (Indicators.macdNow analysis) with
           | Some h => if h >? 0 then [MacdPositiveTrigger] else []
           | None => []
           end)
          ++
          (match truthy support1 with
           | Some s => if lastPrice <=? s * (102 # 100) then [NearSupportTrigger] else []
           | None => []
           end) in
        match Indicators.signalNow analysis with
        | BUY | STRONG_BUY =>
            [mkOpportunity sym lastPrice (Indicators.signalNow analysis)
               (Indicators.signalScore analysis) (Indicators.rsi analysis)
               match truthy support1 with
               | Some s => ((lastPrice - s) / lastPrice) * 100
               | None => 100
               end
               triggers]
        | _ => []
        end
    end.

Definition scanForOpportunities (sqrt : number -> number)
  (cryptoData : list (string * list CandleData)) : list ScanOpportunity :=
  sortBy (fun a b => ofZ (oppScore b) - ofZ (oppScore a))
         (flat_map (scanOne sqrt) cryptoData).

End TechnicalAnalysis.

Module TA := TechnicalAnalysis.

(** ** app/api/backtest/route.ts *)

Module BacktestRoute.
Import Num Arr.
Local Open Scope Q_scope.
Local Open Scope js_scope.

Record BacktestConfig := mkConfig {
  cryptoId : string;
  initialCapital : number;
  rsiOversold : number;
  rsiOverbought : number;
  stopLossPercent : number;
  takeProfitPercent : number;
  positionSizePercent : number;
  maxPositions : number
}.

Inductive TradeType := BUY | SELL.

Record BacktestTrade := mkTrade {
  type : TradeType;
  timestamp : Z;
  price : number;
  quantity : number;
  total : number;
  reason : string;
  pnl : option number;
  pnlPercent : option number
}.

(** The local variables of [runBacktest]. *)
Record State := mkState {
  capital : number;
  position : number;
  entryPrice : number;
  stopLoss : number;
  takeProfit : number;
  trades : list BacktestTrade;
  equityCurve : list (Z * number);
  winningTrades : nat;
  losingTrades : nat;
  totalPnL : number;
  maxDrawdown : number;
  peakEquity : number
}.

Definition initialState (config : BacktestConfig) : State :=
  mkState (initialCapital config) 0 0 0 0 [] [] 0 0 0 0 (initialCapital config).

(** How a closing trade is tallied: the stop-loss branch counts a loss only,
    the take-profit branch a win only, the other two either. *)
Inductive Tally := LossOnly | WinOnly | WinOrLoss.

Definition tallyWin (t : Tally) (pnl : number) (n : nat) : nat :=
  match t with
  | LossOnly => n
  | WinOnly | WinOrLoss => if pnl >? 0 then S n else n
  end.

Definition tallyLoss (t : Tally) (pnl : number) (n : nat) : nat :=
  match t with
  | LossOnly => if pnl <? 0 then S n else n
  | WinOnly => n
  | WinOrLoss => if pnl >? 0 then n else S n
  end.

(** Credit the sale of the whole position at [exitPrice] and log it; the
    position itself is left for the caller to reset. *)
Definition logSell (tally : Tally) (st : State) (ts : Z) (exitPrice : number)
  (why : string) : State :=
  let pnl := (exitPrice - entryPrice st) * position st in
  mkState (capital st + exitPrice * position st)
          (position st) (entryPrice st) (stopLoss st) (takeProfit st)
          (trades st ++
             [mkTrade SELL ts exitPrice (position st) (exitPrice * position st) why
                      (Some pnl)
                      (Some ((pnl / (entryPrice st * position st)) * 100))])
          (equityCurve st)
          (tallyWin tally pnl (winningTrades st))
          (tallyLoss tally pnl (losingTrades st))
          (totalPnL st + pnl)
          (maxDrawdown st) (peakEquity st).

Definition flat (st : State) : State :=
  mkState (capital st) 0 0 (stopLoss st) (takeProfit st) (trades st)
          (equityCurve st) (winningTrades st) (losingTrades st) (totalPnL st)
          (maxDrawdown st) (peakEquity st).

Definition sell (tally : Tally) (st : State) (ts : Z) (exitPrice : number)
  (why : string) : State :=
  flat (logSell tally st ts exitPrice why).

(** Equity curve and drawdown bookkeeping at the top of an iteration. *)
Definition markEquity (st : State) (candle : TA.CandleData) : State :=
  let currentEquity := capital st + position st * TA.close candle in
  let peak := if currentEquity >? peakEquity st then currentEquity else peakEquity st in
  let drawdown := (peak - currentEquity) / peak in
  mkState (capital st) (position st) (entryPrice st) (stopLoss st) (takeProfit st)
          (trades st)
          (equityCurve st ++ [(TA.timestamp candle, currentEquity)])
          (winningTrades st) (losingTrades st) (totalPnL st)
          (if drawdown >? maxDrawdown st then drawdown else maxDrawdown st)
          peak.

Definition buySignalsAt (config : BacktestConfig) (candle : TA.CandleData)
  (rsi macdHistogram prevHistogram lowerBand : option number) : list string :=
  (match rsi with
   | Some r => if r <? rsiOversold config then ["RSI oversold"%string] else []
   | None => []
   end)
  ++
  (match macdHistogram, prevHistogram with
   | Some h, Some p =>
       if (h >? 0) && (p <=? 0) then ["MACD bullish crossover"%string] else []
   | _, _ => []
   end)
  ++
  (match lowerBand with
   | Some lb => if TA.close candle <? lb then ["Below Bollinger Band"%string] else []
   | None => []
   end).

Definition sellSignalsAt (config : BacktestConfig)
  (rsi macdHistogram prevHistogram : option number) : list string :=
  (match rsi with
   | Some r => if r >? rsiOverbought config then ["RSI overbought"%string] else []
   | None => []
   end)
  ++
  (match macdHistogram, prevHistogram with
   | Some h, Some p =>
       if (h <? 0) && (p >=? 0) then ["MACD bearish crossover"%string] else []
   | _, _ => []
   end).

Definition buy (config : BacktestConfig) (st : State) (candle : TA.CandleData)
  (buySignals : list string) : State :=
  let positionSize := (capital st * positionSizePercent config) / 100 in
  let quantity := positionSize / TA.close candle in
  mkState (capital st - positionSize)
          quantity
          (TA.close candle)
          (TA.close candle * (1 - stopLossPercent config / 100))
          (TA.close candle * (1 + takeProfitPercent config / 100))
          (trades st ++
             [mkTrade BUY (TA.timestamp candle) (TA.close candle) quantity positionSize
                      (String.concat ", " buySignals) None None])
          (equityCurve st) (winningTrades st) (losingTrades st) (totalPnL st)
          (maxDrawdown st) (peakEquity st).

(** One iteration of the simulation loop, at index [i]. *)
Definition step (config : BacktestConfig) (candles : list TA.CandleData)
  (rsiValues : list (option number)) (macdResult : TA.MACD)
  (bollinger : TA.Bollinger) (st : State) (i : nat) : State :=
  let candle := nth i candles TA.noCandle in
  let rsi := get rsiValues i in
  let macdHistogram := get (TA.histogram macdResult) i in
  let prevHistogram := get (TA.histogram macdResult) (i - 1) in
  let lowerBand := get (TA.lower bollinger) i in
  let st := markEquity st candle in
  if (position st >? 0) && (TA.low candle <=? stopLoss st) then
    sell LossOnly st (TA.timestamp candle) (stopLoss st) "Stop Loss"
  else if (position st >? 0) && (TA.high candle >=? takeProfit st) then
    sell WinOnly st (TA.timestamp candle) (takeProfit st) "Take Profit"
  else
    let st :=
      if (position st =? 0) && (capital st >? 0) then
        let buySignals :=
          buySignalsAt config candle rsi macdHistogram prevHistogram lowerBand in
        if (1 <=? length buySignals)%nat then buy config st candle buySignals else st
      else st in
    if position st >? 0 then
      let sellSignals := sellSignalsAt config rsi macdHistogram prevHistogram in
      if (1 <=? length sellSignals)%nat then
        sell WinOrLoss st (TA.timestamp candle) (TA.close candle)
             (String.concat ", " sellSignals)
      else st
    else st.

(** The state after the iterations [50 <= i < upto]. *)
Definition simulate (config : BacktestConfig) (candles : list TA.CandleData)
  (rsiValues : list (option number)) (macdResult : TA.MACD)
  (bollinger : TA.Bollinger) (upto : nat) : State :=
  fold_left (step config candles rsiValues macdResult bollinger)
            (seq 50 (upto - 50)) (initialState config).

(** Close any remaining position at the last close. *)
Definition closeRemaining (candles : list TA.CandleData) (st : State) : State :=
  if position st >? 0 then
    let lastCandle := nth (length candles - 1) candles TA.noCandle in
    logSell WinOrLoss st (TA.timestamp lastCandle) (TA.close lastCandle) "End of backtest"
  else st.

Module Result.
Record BacktestResult := mk {
  config : BacktestConfig;
  totalReturn : number;
  totalReturnPercent : number;
  annualizedReturn : number;
  maxDrawdown : number;
  sharpeRatio : number;
  winRate : number;
  totalTrades : nat;
  winningTrades : nat;
  losingTrades : nat;
  trades : list BacktestTrade;
  equityCurve : list (Z * number)
}.
End Result.

(** The summary statistics; the free-text [analysis] field is not modelled. *)
Definition summarize (sqrt : number -> number) (config : BacktestConfig)
  (candles : list TA.CandleData) (st : State) : Result.BacktestResult :=
  let totalReturn := capital st - initialCapital config in
  let totalReturnPercent := (totalReturn / initialCapital config) * 100 in
  let days := ofNat (length candles) / 24 in
  let annualizedReturn :=
    totalReturnPercent * (365 / (if 1 >? days then 1 else days)) in
  let totalTrades := (winningTrades st + losingTrades st)%nat in
  let winRate :=
    if (0 <? totalTrades)%nat
    then (ofNat (winningTrades st) / ofNat totalTrades) * 100 else 0 in
  let returns :=
    flat_map (fun t => match pnl t with
                       | Some _ => [orZero (pnlPercent t) / 100]
                       | None => []
                       end) (trades st) in
  let avgReturn :=
    if (0 <? length returns)%nat then sum returns / ofNat (length returns) else 0 in
  let stdDev :=
    if (1 <? length returns)%nat
    then sqrt (sum (map (fun r => (r - avgReturn) * (r - avgReturn)) returns)
               / ofNat (length returns - 1))
    else 0 in
  let sharpeRatio := if stdDev >? 0 then (avgReturn / stdDev) * sqrt 252 else 0 in
  Result.mk config totalReturn totalReturnPercent annualizedReturn
            (maxDrawdown st * 100) sharpeRatio winRate totalTrades
            (winningTrades st) (losingTrades st) (trades st) (equityCurve st).

(** The state once the loop has run and the open position is closed. *)
Definition finalState (config : BacktestConfig) (candles : list TA.CandleData)
  (rsiValues : list (option number)) (macdResult : TA.MACD)
  (bollinger : TA.Bollinger) : State :=
  closeRemaining candles
    (simulate config candles rsiValues macdResult bollinger (length candles)).

Definition runBacktest (sqrt : number -> number) (candles : list TA.CandleData)
  (rsiValues : list (option number)) (macdResult : TA.MACD)
  (bollinger : TA.Bollinger) (config : BacktestConfig) : Result.BacktestResult :=
  summarize sqrt config candles
            (finalState config candles rsiValues macdResult bollinger).

(** The body of the POST handler after the request is parsed and the OHLC
    rows are fetched: [None] is the 400 answer for fewer than 50 rows. *)
Definition toCandles (ohlcData : list TA.CandleData) : list TA.CandleData :=
  map (fun ohlc => TA.mkCandle (TA.timestamp ohlc) (TA.open ohlc) (TA.high ohlc)
                               (TA.low ohlc) (TA.close ohlc) 0) ohlcData.

(** The indicators computed over all candles, then the simulation. *)
Definition pipeline (sqrt : number -> number) (candles : list TA.CandleData)
  (config : BacktestConfig) : Result.BacktestResult :=
  let closes := map TA.close candles in
  let rsiValues := TA.calculateRSI closes 14 in
  let macdResult := TA.calculateMACD closes in
  let bollinger := TA.calculateBollingerBands sqrt closes 20 2 in
  runBacktest sqrt candles rsiValues macdResult bollinger config.

Definition backtest (sqrt : number -> number) (ohlcData : list TA.CandleData)
  (config : BacktestConfig) : option Result.BacktestResult :=
  if (length ohlcData <? 50)%nat then None
  else Some (pipeline sqrt (toCandles ohlcData) config).

(** The loop of the handler's pipeline on [candles], stopped before the
    iteration at index [upto]. *)
Definition loopState (sqrt : number -> number) (candles : list TA.CandleData)
  (config : BacktestConfig) (upto : nat) : State :=
  let closes := map TA.close candles in
  simulate config candles (TA.calculateRSI closes 14) (TA.calculateMACD closes)
           (TA.calculateBollingerBands sqrt closes 20 2) upto.

(** The decision at index [i]: the trades the iteration at [i] logs. *)
Definition decisionAt (sqrt : number -> number) (candles : list TA.CandleData)
  (config : BacktestConfig) (i : nat) : list BacktestTrade :=
  skipn (length (trades (loopState sqrt candles config i)))
        (trades (loopState sqrt candles config (S i))).

Definition isSell (t : BacktestTrade) : bool :=
  match type t with SELL => true | BUY => false end.



End BacktestRoute.

(** ** lib/store.ts *)

Module Store.
Import Num Arr.
Local Open Scope Q_scope.
Local Open Scope js_scope.

Inductive Action := BUY | SELL | NEUTRAL.

Record IndicatorResult := mkIndicator {
  value : number;
  signal : Action;
  strength : number
}.

(** [Math.round]. *)
Definition round (x : number) : number := inject_Z (Qfloor (x + (1 # 2))).

(** *** RSI, single value *)

Definition changesOf (closes : list number) : list number :=
  map (fun i => nth i closes 0 - nth (i - 1) closes 0) (seq 1 (length closes - 1)).

(** The initial sums accumulated over the first [period] changes. *)
Definition seedStep (changes : list number) (acc : number * number) (i : nat)
  : number * number :=
  let (gains, losses) := acc in
  if nth i changes 0 >? 0 then (gains + nth i changes 0, losses)
  else (gains, losses + abs (nth i changes 0)).

(** The smoothed averages after one more change. *)
Definition smoothStep (changes : list number) (period : nat) (acc : number * number)
  (i : nat) : number * number :=
  let (avgGain, avgLoss) := acc in
  if nth i changes 0 >? 0 then
    ((avgGain * (ofNat period - 1) + nth i changes 0) / ofNat period,
     (avgLoss * (ofNat period - 1)) / ofNat period)
  else
    ((avgGain * (ofNat period - 1)) / ofNat period,
     (avgLoss * (ofNat period - 1) + abs (nth i changes 0)) / ofNat period).

(** The pair (avgGain, avgLoss) once the changes of indices below [upto]
    are consumed. *)
Definition smoothedAverages (closes : list number) (period upto : nat)
  : number * number :=
  let changes := changesOf closes in
  let (gains, losses) := fold_left (seedStep changes) (seq 0 period) (0, 0) in
  fold_left (smoothStep changes period) (seq period (upto - period))
            (gains / ofNat period, losses / ofNat period).

Definition calculateRSI (closes : list number) (period : nat) : IndicatorResult :=
  if (length closes <? period + 1)%nat then mkIndicator 50 NEUTRAL 0
  else
    let changes := changesOf closes in
    let (avgGain, avgLoss) := smoothedAverages closes period (length changes) in
    if avgLoss =? 0 then mkIndicator 100 SELL 100
    else
      let rs := avgGain / avgLoss in
      let rsi := 100 - 100 / (1 + rs) in
      if rsi <? 30 then mkIndicator rsi BUY (round ((30 - rsi) / 30 * 100))
      else if rsi >? 70 then mkIndicator rsi SELL (round ((rsi - 70) / 30 * 100))
      else if rsi <? 40 then mkIndicator rsi BUY (round ((40 - rsi) / 40 * 50))
      else if rsi >? 60 then mkIndicator rsi SELL (round ((rsi - 60) / 40 * 50))
      else mkIndicator rsi NEUTRAL 0.

(** *** MACD, single value

    [macdLine] reads [fastEMA] one element past its end, which yields
    [undefined] and then [NaN]; the values derived from the MACD line are
    therefore numbers that may be [NaN]. *)

Inductive num := Fin (q : number) | NaN.

Definition lift2 (f : number -> number -> number) (a b : num) : num :=
  match a, b with
  | Fin x, Fin y => Fin (f x y)
  | _, _ => NaN
  end.

(** Comparisons with [NaN] are false. *)
Definition test2 (f : number -> number -> bool) (a b : num) : bool :=
  match a, b with
  | Fin x, Fin y => f x y
  | _, _ => false
  end.

(** [arr[i]] as an operand of arithmetic: [undefined] becomes [NaN]. *)
Definition operand (l : list number) (i : nat) : num :=
  match nth_error l i with
  | Some x => Fin x
  | None => NaN
  end.

Definition operandN (l : list num) (i : nat) : num := nth i l NaN.

(** [arr[i]] as an operand for an index that may be negative: a negative
    index reads [undefined] as well. *)
Definition operandAt (l : list number) (i : Z) : num :=
  if (i <? 0)%Z then NaN else operand l (Z.to_nat i).

Record MACDResult := mkMACDResult {
  macd : option num;
  signalLine : option num;
  histogram : option num;
  result : Action * num * num   (* signal, value, strength *)
}.

(** One iteration of the loop that extends both EMA arrays. *)
Definition emaArraysStep (closes : list number) (slowPeriod : nat)
  (fastMultiplier slowMultiplier : number)
  (acc : number * number * list number * list number) (i : nat)
  : number * number * list number * list number :=
  let '(fastSMA, slowSMA, fastEMA, slowEMA) := acc in
  let fastSMA := (nth i closes 0 - fastSMA) * fastMultiplier + fastSMA in
  let fastEMA := fastEMA ++ [fastSMA] in
  if (slowPeriod <=? i + 1)%nat then
    let slowSMA := (nth i closes 0 - slowSMA) * slowMultiplier + slowSMA in
    (fastSMA, slowSMA, fastEMA, slowEMA ++ [slowSMA])
  else (fastSMA, slowSMA, fastEMA, slowEMA).

Definition sumN (l : list num) : num := fold_left (lift2 add) l (Fin 0).

Definition macdLineOf (closes : list number) (fastPeriod slowPeriod : nat) : list num :=
  let fastMultiplier := 2 / (ofNat fastPeriod + 1) in
  let slowMultiplier := 2 / (ofNat slowPeriod + 1) in
  let fastSMA := sum (slice closes 0 fastPeriod) / ofNat fastPeriod in
  let slowSMA := sum (slice closes 0 slowPeriod) / ofNat slowPeriod in
  let '(_, _, fastEMA, slowEMA) :=
    fold_left (emaArraysStep closes slowPeriod fastMultiplier slowMultiplier)
              (seq fastPeriod (length closes - fastPeriod))
              (fastSMA, slowSMA, [fastSMA], [slowSMA]) in
  let startIndex := (Z.of_nat slowPeriod - Z.of_nat fastPeriod)%Z in
  map (fun i => lift2 sub (operandAt fastEMA (Z.of_nat i + startIndex))
                          (Fin (nth i slowEMA 0)))
      (seq 0 (length slowEMA)).

Definition calculateMACD (closes : list number) (fastPeriod slowPeriod signalPeriod : nat)
  : MACDResult :=
  if (length closes <? slowPeriod + signalPeriod)%nat then
    mkMACDResult None None None (NEUTRAL, Fin 0, Fin 0)
  else
    let macdLine := macdLineOf closes fastPeriod slowPeriod in
    let signalMultiplier := 2 / (ofNat signalPeriod + 1) in
    let signalValue :=
      fold_left (fun signalValue i =>
                   lift2 add
                     (lift2 mul (lift2 sub (operandN macdLine i) signalValue)
                                (Fin signalMultiplier))
                     signalValue)
                (seq signalPeriod (length macdLine - signalPeriod))
                (lift2 div (sumN (slice macdLine 0 signalPeriod))
                           (Fin (ofNat signalPeriod))) in
    let macd := operandN macdLine (length macdLine - 1) in
    let histogram := lift2 sub macd signalValue in
    let prevDiff :=
      lift2 sub (if (length macdLine <? 2)%nat then NaN
                 else operandN macdLine (length macdLine - 2)) signalValue in
    let absHistogram := match histogram with Fin h => Fin (abs h) | NaN => NaN end in
    let weak := match lift2 mul absHistogram (Fin 1000) with
                | Fin x => Fin (if 50 <? x then 50 else x)
                | NaN => NaN
                end in
    let verdict :=
      if test2 gtb histogram (Fin 0) && test2 ltb prevDiff (Fin 0) then (BUY, Fin 80)
      else if test2 ltb histogram (Fin 0) && test2 gtb prevDiff (Fin 0) then (SELL, Fin 80)
      else if test2 gtb histogram (Fin 0) then (BUY, weak)
      else if test2 ltb histogram (Fin 0) then (SELL, weak)
      else (NEUTRAL, Fin 0) in
    mkMACDResult (Some macd) (Some signalValue) (Some histogram)
                 (fst verdict, macd, snd verdict).

(** *** Backtesting *)

Record OHLCVData := mkOHLCV {
  timestamp : Z;
  open : number;
  high : number;
  low : number;
  close : number;
  volume : number
}.

Definition noData : OHLCVData := mkOHLCV 0 0 0 0 0 0.

(** The trade reasons are template strings around a formatted number; the
    model keeps the number. *)
Inductive Reason :=
| RsiMacdCrossover (rsi : number)
| RsiOverbought (rsi : number)
| MacdBearishCrossover.

Record BacktestTrade := mkTrade {
  type : Action;
  price : number;
  tradeTime : Z;
  quantity : number;
  reason : Reason
}.

Record State := mkState {
  capital : number;
  position : number;
  trades : list BacktestTrade;
  maxCapital : number;
  maxDrawdown : number;
  returns : list number
}.

(** [h && h > 0] and [h && h < 0] on a histogram that may be null or NaN. *)
Definition histogramAbove0 (h : option num) : bool :=
  match h with Some (Fin x) => negb (x =? 0) && (x >? 0) | _ => false end.

Definition histogramBelow0 (h : option num) : bool :=
  match h with Some (Fin x) => negb (x =? 0) && (x <? 0) | _ => false end.

Definition isBuy (t : BacktestTrade) : bool :=
  match type t with BUY => true | _ => false end.

Definition isSell (t : BacktestTrade) : bool :=
  match type t with SELL => true | _ => false end.

(** The buy/sell part of an iteration, given the indicator values. *)
Definition decide (rsiOversold rsiOverbought : number) (rsiResult : IndicatorResult)
  (macdResult : MACDResult) (currentPrice : number) (ts : Z) (st : State) : State :=
  if (position st =? 0) && (value rsiResult <? rsiOversold)
     && histogramAbove0 (histogram macdResult) then
    let quantity := capital st / currentPrice in
    mkState 0 quantity
            (trades st ++ [mkTrade BUY currentPrice ts quantity
                                   (RsiMacdCrossover (value rsiResult))])
            (maxCapital st) (maxDrawdown st) (returns st)
  else if (position st >? 0)
          && ((value rsiResult >? rsiOverbought)
              || histogramBelow0 (histogram macdResult)) then
    let trades' :=
      trades st ++ [mkTrade SELL currentPrice ts (position st)
                            (if value rsiResult >? rsiOverbought
                             then RsiOverbought (value rsiResult)
                             else MacdBearishCrossover)] in
    mkState (position st * currentPrice) 0 trades'
            (maxCapital st) (maxDrawdown st)
            match lastOpt (filter isBuy trades') with
            | Some lastBuy =>
                returns st ++ [(currentPrice - price lastBuy) / price lastBuy]
            | None => returns st
            end
  else st.

Definition trackDrawdown (currentPrice : number) (st : State) : State :=
  let currentValue :=
    if position st >? 0 then position st * currentPrice else capital st in
  let top := if currentValue >? maxCapital st then currentValue else maxCapital st in
  let drawdown := (top - currentValue) / top in
  mkState (capital st) (position st) (trades st) top
          (if drawdown >? maxDrawdown st then drawdown else maxDrawdown st)
          (returns st).

(** One iteration of the loop, at index [i]. *)
Definition step (data : list OHLCVData) (rsiOversold rsiOverbought : number)
  (st : State) (i : nat) : State :=
  let historicalData := slice data 0 i in
  let closes := map close historicalData in
  let currentPrice := nth (length closes - 1) closes 0 in
  let rsiResult := calculateRSI closes 14 in
  let macdResult := calculateMACD closes 12 26 9 in
  trackDrawdown currentPrice
    (decide rsiOversold rsiOverbought rsiResult macdResult currentPrice
            (timestamp (nth i data noData)) st).

(** The state after the iterations [50 <= i < upto]. *)
Definition simulate (data : list OHLCVData) (initialCapital rsiOversold rsiOverbought : number)
  (upto : nat) : State :=
  fold_left (step data rsiOversold rsiOverbought) (seq 50 (upto - 50))
            (mkState initialCapital 0 [] initialCapital 0 []).

Record BacktestResult := mkResult {
  resultTrades : list BacktestTrade;
  totalReturn : number;
  totalReturnPercent : number;
  winRate : number;
  maxDrawdownPercent : number;
  sharpeRatio : number;
  totalTrades : nat;
  winningTrades : nat;
  losingTrades : nat
}.

(** The decision at index [i]: the trades the iteration at [i] logs. *)
Definition decisionAt (data : list OHLCVData)
  (initialCapital rsiOversold rsiOverbought : number) (i : nat) : list BacktestTrade :=
  skipn (length (trades (simulate data initialCapital rsiOversold rsiOverbought i)))
        (trades (simulate data initialCapital rsiOversold rsiOverbought (S i))).

Definition runBacktest (sqrt : number -> number) (data : list OHLCVData)
  (initialCapital rsiOversold rsiOverbought : number) : BacktestResult :=
  if (length data <? 50)%nat then mkResult [] 0 0 0 0 0 0 0 0
  else
    let st := simulate data initialCapital rsiOversold rsiOverbought (length data) in
    let finalValue :=
      if position st >? 0
      then position st * close (nth (length data - 1) data noData)
      else capital st in
    let totalReturn := finalValue - initialCapital in
    let totalReturnPercent := (totalReturn / initialCapital) * 100 in
    let buyTrades := filter isBuy (trades st) in
    let sellTrades := filter isSell (trades st) in
    let outcomes :=
      map (fun bs => price (snd bs) >? price (fst bs)) (combine buyTrades sellTrades) in
    let winningTrades := length (filter (fun w => w) outcomes) in
    let losingTrades := length (filter negb outcomes) in
    let winRate :=
      if (0 <? winningTrades + losingTrades)%nat
      then (ofNat winningTrades / ofNat (winningTrades + losingTrades)) * 100
      else 0 in
    let avgReturn :=
      if (0 <? length (returns st))%nat
      then sum (returns st) / ofNat (length (returns st)) else 0 in
    let stdReturn :=
      if (1 <? length (returns st))%nat
      then sqrt (fold_left (fun a b => a + (b - avgReturn) * (b - avgReturn))
                           (returns st) 0
                 / ofNat (length (returns st) - 1))
      else 0 in
    let sharpeRatio :=
      if stdReturn >? 0 then (avgReturn / stdReturn) * sqrt 252 else 0 in
    mkResult (trades st) totalReturn totalReturnPercent winRate
             (maxDrawdown st * 100) sharpeRatio (length (trades st))
             winningTrades losingTrades.

(** *** Single-value helpers *)

Definition noneWhenShort {A : Type} (data : list number) (period : nat)
  (v : A) : option A :=
  if (length data <? period)%nat then None else Some v.

Definition calculateSMA (data : list number) (period : nat) : option number :=
  noneWhenShort data period (sum (sliceLast data period) / ofNat period).

Definition calculateEMA (data : list number) (period : nat) : option number :=
  let multiplier := 2 / (ofNat period + 1) in
  noneWhenShort data period
    (fold_left (fun ema i => (nth i data 0 - ema) * multiplier + ema)
               (seq period (length data - period))
               (sum (slice data 0 period) / ofNat period)).

(** *** ATR *)

(** [Math.max(a, b, c)]. *)
Definition max3 (a b c : number) : number :=
  let m := if b >? a then b else a in
  if c >? m then c else m.

Definition trueRangesOf (data : list OHLCVData) : list number :=
  map (fun i =>
         let high := high (nth i data noData) in
         let low := low (nth i data noData) in
         let prevClose := close (nth (i - 1) data noData) in
         max3 (high - low) (abs (high - prevClose)) (abs (low - prevClose)))
      (seq 1 (length data - 1)).

Definition calculateATR (data : list OHLCVData) (period : nat) : option number :=
  if (length data <? period + 1)%nat then None
  else
    let trueRanges := trueRangesOf data in
    Some (fold_left (fun atr i =>
                       (atr * (ofNat period - 1) + nth i trueRanges 0) / ofNat period)
                    (seq period (length trueRanges - period))
                    (sum (slice trueRanges 0 period) / ofNat period)).

(** *** Support and resistance *)

Record SupportResistance := mkSupportResistance {
  support : list number;
  resistance : list number;
  pivot : number;
  r1 : number; r2 : number; r3 : number;
  s1 : number; s2 : number; s3 : number
}.

(** [[...new Set(values)]]: the first occurrence of every value, in order. *)
Fixpoint uniqueValues (values : list number) : list number :=
  match values with
  | [] => []
  | x :: rest => x :: filter (fun y => negb (y =? x)) (uniqueValues rest)
  end.

Definition isLocalLow (data : list OHLCVData) (i : nat) : bool :=
  let current := nth i data noData in
  (low current <? low (nth (i - 1) data noData)) &&
  (low current <? low (nth (i - 2) data noData)) &&
  (low current <? low (nth (i + 1) data noData)) &&
  (low current <? low (nth (i + 2) data noData)).

Definition isLocalHigh (data : list OHLCVData) (i : nat) : bool :=
  let current := nth i data noData in
  (high current >? high (nth (i - 1) data noData)) &&
  (high current >? high (nth (i - 2) data noData)) &&
  (high current >? high (nth (i + 1) data noData)) &&
  (high current >? high (nth (i + 2) data noData)).

Definition calculateSupportResistance (data : list OHLCVData) : SupportResistance :=
  if (length data <? 5)%nat then mkSupportResistance [] [] 0 0 0 0 0 0 0
  else
    let idx := seq 2 (length data - 4) in
    let supportLevels :=
      map (fun i => low (nth i data noData)) (filter (isLocalLow data) idx) in
    let resistanceLevels :=
      map (fun i => high (nth i data noData)) (filter (isLocalHigh data) idx) in
    let lastCandle := nth (length data - 1) data noData in
    let high := high lastCandle in
    let low := low lastCandle in
    let close := close lastCandle in
    let pivot := (high + low + close) / 3 in
    let r1 := 2 * pivot - low in
    let r2 := pivot + (high - low) in
    let r3 := high + 2 * (pivot - low) in
    let s1 := 2 * pivot - high in
    let s2 := pivot - (high - low) in
    let s3 := low - 2 * (high - pivot) in
    mkSupportResistance
      (firstn 3 (sortBy (fun a b => b - a) (uniqueValues supportLevels)))
      (firstn 3 (sortBy (fun a b => a - b) (uniqueValues resistanceLevels)))
      pivot r1 r2 r3 s1 s2 s3.

End Store.

(** ** Reference definitions from the specification *)

Module Reference.
Import Num Arr.
Local Open Scope Q_scope.
Local Open Scope js_scope.

(** Wilder smoothing as the specification words it: the averages at index
    [period + k], seeded at index [period] with the simple means of the
    first [period] gains and losses, each later pair obtained from the pair
    carried forward from the previous index by
    [avg = (avg * (period - 1) + current) / period]. *)
Fixpoint wilderAverages (closes : list number) (period k : nat) : number * number :=
  let gains := TA.gainsOf closes in
  let losses := TA.lossesOf closes in
  match k with
  | O => (sum (slice gains 0 period) / ofNat period,
          sum (slice losses 0 period) / ofNat period)
  | S k' =>
      let (avgGain, avgLoss) := wilderAverages closes period k' in
      ((avgGain * (ofNat period - 1) + nth (period + k') gains 0) / ofNat period,
       (avgLoss * (ofNat period - 1) + nth (period + k') losses 0) / ofNat period)
  end.

Definition definedValues (line : list (option number)) : list number :=
  flat_map (fun v => match v with Some x => [x] | None => [] end) line.

Fixpoint leadingNulls (line : list (option number)) : nat :=
  match line with
  | None :: rest => S (leadingNulls rest)
  | _ => O
  end.

(** The EMA of a line "itself": of the values the line has, put back at
    the indices where the line has them (the line is null on a prefix). *)
Definition emaOfLine (line : list (option number)) (period : nat)
  : list (option number) :=
  repeat None (leadingNulls line) ++ TA.calculateEMA (definedValues line) period.

End Reference.

(** ** Sample series *)

Module Samples.
Import Num.
Local Open Scope Q_scope.

(** The closes 1, 2, ..., n. *)
Definition rising (n : nat) : list number :=
  map (fun i => ofNat i) (seq 1 n).

(** Candles falling by 1 per step from a close of 199: candle [i] closes at
    [199 - i], with a high and a low 1 above and below, at time [i]. *)
Definition falling (n : nat) : list TA.CandleData :=
  map (fun i => TA.mkCandle (Z.of_nat i) (199 - ofNat i) (200 - ofNat i)
                            (198 - ofNat i) (199 - ofNat i) 1)
      (seq 0 n).

(** Candles around the given closes, with a high 1 above and a low 1
    below each close. *)
Definition around (closes : list number) : list TA.CandleData :=
  map (fun c => TA.mkCandle 0 c (c + 1) (c - 1) c 1) closes.

Definition zigzag : list TA.CandleData :=
  around [20; 21; 22; 21; 20; 19; 20; 21; 22; 23; 24; 23; 22; 21; 20; 19; 18; 17;
          18; 19; 20; 21; 22; 21; 20].

(** Ten candles with local lows at price 0 (indices 2 and 6) and a local
    high at 12 (index 4); each high is 10 above the low. *)
Definition zeroLows : list TA.CandleData :=
  map (fun l => TA.mkCandle 0 l (l + 10) l l 1) [2; 1; 0; 1; 2; 1; 0; 1; 2; 3].

(** The configuration the handler builds from an empty request body. *)
Definition defaultConfig : BacktestRoute.BacktestConfig :=
  BacktestRoute.mkConfig "bitcoin" 10000 30 70 5 20 10 3.


(** The handler's result on 52 falling candles. *)
Definition fallingRun (config : BacktestRoute.BacktestConfig)
  : BacktestRoute.Result.BacktestResult :=
  BacktestRoute.pipeline sqrtApprox (BacktestRoute.toCandles (falling 52)) config.

End Samples.

(** * Properties *)

(** ** Facts about numbers and arrays *)

Module NumFacts.
Import Num.
Local Open Scope Q_scope.

Lemma add_eq a b : add a b == a + b.
Proof. apply Qred_correct. Qed.

Lemma sub_eq a b : sub a b == a - b.
Proof. apply Qred_correct. Qed.

Lemma mul_eq a b : mul a b == a * b.
Proof. apply Qred_correct. Qed.

Lemma div_eq a b : div a b == a / b.
Proof. apply Qred_correct. Qed.

#[export] Instance add_wd : Proper (Qeq ==> Qeq ==> Qeq) add.
Proof. intros a b H c d H'. rewrite !add_eq, H, H'. reflexivity. Qed.

#[export] Instance sub_wd : Proper (Qeq ==> Qeq ==> Qeq) sub.
Proof. intros a b H c d H'. rewrite !sub_eq, H, H'. reflexivity. Qed.

#[export] Instance mul_wd : Proper (Qeq ==> Qeq ==> Qeq) mul.
Proof. intros a b H c d H'. rewrite !mul_eq, H, H'. reflexivity. Qed.

#[export] Instance div_wd : Proper (Qeq ==> Qeq ==> Qeq) div.
Proof. intros a b H c d H'. rewrite !div_eq, H, H'. reflexivity. Qed.

Lemma ltb_lt a b : ltb a b = true <-> a < b.
Proof.
  unfold ltb. rewrite negb_true_iff. split; intro H.
  - apply Qnot_le_lt. intro Hle. apply Qle_bool_iff in Hle. congruence.
  - destruct (Qle_bool b a) eqn:E; [|reflexivity].
    apply Qle_bool_iff in E. lra.
Qed.

Lemma ltb_ge a b : ltb a b = false <-> b <= a.
Proof.
  unfold ltb. rewrite negb_false_iff. apply Qle_bool_iff.
Qed.

Lemma gtb_gt a b : gtb a b = true <-> b < a.
Proof. apply ltb_lt. Qed.

Lemma gtb_le a b : gtb a b = false <-> a <= b.
Proof. apply ltb_ge. Qed.

Lemma leb_le a b : leb a b = true <-> a <= b.
Proof. apply Qle_bool_iff. Qed.

Lemma leb_gt a b : leb a b = false <-> b < a.
Proof.
  unfold leb. split; intro H.
  - apply Qnot_le_lt. intro Hle. apply Qle_bool_iff in Hle. congruence.
  - destruct (Qle_bool a b) eqn:E; [|reflexivity].
    apply Qle_bool_iff in E. lra.
Qed.

Lemma eqb_eq a b : eqb a b = true <-> a == b.
Proof. apply Qeq_bool_iff. Qed.

Lemma eqb_neq a b : eqb a b = false <-> ~ a == b.
Proof.
  unfold eqb. split; intro H.
  - intro E. apply Qeq_bool_iff in E. congruence.
  - destruct (Qeq_bool a b) eqn:E; [|reflexivity].
    apply Qeq_bool_iff in E. contradiction.
Qed.

Lemma ofNat_nonneg n : 0 <= ofNat n.
Proof.
  unfold ofNat. change 0 with (inject_Z 0). rewrite <- Zle_Qle. lia.
Qed.

Lemma ofNat_pos n : (1 <= n)%nat -> 1 <= ofNat n.
Proof.
  intro H. unfold ofNat. change 1 with (inject_Z 1). rewrite <- Zle_Qle. lia.
Qed.

Lemma add_nonneg a b : 0 <= a -> 0 <= b -> 0 <= add a b.
Proof. intros. rewrite add_eq. lra. Qed.

Lemma mul_nonneg a b : 0 <= a -> 0 <= b -> 0 <= mul a b.
Proof. intros. rewrite mul_eq. apply Qmult_le_0_compat; assumption. Qed.

Lemma Qdiv_nonneg a b : 0 <= a -> 0 <= b -> 0 <= a / b.
Proof.
  intros Ha Hb. unfold Qdiv. apply Qmult_le_0_compat; [assumption|].
  apply Qinv_le_0_compat. assumption.
Qed.

Lemma div_nonneg a b : 0 <= a -> 0 <= b -> 0 <= div a b.
Proof. intros. rewrite div_eq. apply Qdiv_nonneg; assumption. Qed.

Lemma abs_nonneg a : 0 <= abs a.
Proof. apply Qabs_nonneg. Qed.

End NumFacts.

Module ArrFacts.
Import Num Arr NumFacts.
Local Open Scope Q_scope.

Lemma sum_from_nonneg l : forall a, 0 <= a -> Forall (fun x => 0 <= x) l ->
  0 <= fold_left add l a.
Proof.
  induction l as [|x l IH]; intros a Ha Hl; simpl; [assumption|].
  inversion Hl; subst. apply IH; [apply add_nonneg|]; assumption.
Qed.

Lemma sum_nonneg l : Forall (fun x => 0 <= x) l -> 0 <= sum l.
Proof. intro H. apply sum_from_nonneg; [lra|assumption]. Qed.

Lemma In_firstn {A} (x : A) k l : In x (firstn k l) -> In x l.
Proof.
  intro H. rewrite <- (firstn_skipn k l). apply in_or_app. left. assumption.
Qed.

Lemma In_skipn {A} (x : A) k l : In x (skipn k l) -> In x l.
Proof.
  intro H. rewrite <- (firstn_skipn k l). apply in_or_app. right. assumption.
Qed.

Lemma Forall_firstn {A} (P : A -> Prop) k l : Forall P l -> Forall P (firstn k l).
Proof.
  rewrite !Forall_forall. intros H x Hx. apply H. eapply In_firstn. eassumption.
Qed.

Lemma Forall_skipn {A} (P : A -> Prop) k l : Forall P l -> Forall P (skipn k l).
Proof.
  rewrite !Forall_forall. intros H x Hx. apply H. eapply In_skipn. eassumption.
Qed.

Lemma Forall_slice {A} (P : A -> Prop) l s e : Forall P l -> Forall P (slice l s e).
Proof.
  intro H. unfold slice. apply Forall_firstn, Forall_skipn. assumption.
Qed.

Lemma firstn_seq k : forall start len,
  firstn k (seq start len) = seq start (Nat.min k len).
Proof.
  induction k as [|k IH]; intros start len; [reflexivity|].
  destruct len as [|len]; [reflexivity|]. simpl. f_equal. apply IH.
Qed.

Lemma forPush_app {S A} (body : S -> nat -> S * A) l1 : forall l2 s,
  forPush body (l1 ++ l2) s =
  let (s1, o1) := forPush body l1 s in
  let (s2, o2) := forPush body l2 s1 in (s2, o1 ++ o2).
Proof.
  induction l1 as [|i l1 IH]; intros l2 s; simpl.
  - destruct (forPush body l2 s); reflexivity.
  - destruct (body s i) as [s1 a]. rewrite IH.
    destruct (forPush body l1 s1) as [s2 o1].
    destruct (forPush body l2 s2) as [s3 o2]. reflexivity.
Qed.

Lemma forPush_length {S A} (body : S -> nat -> S * A) idx : forall s,
  length (snd (forPush body idx s)) = length idx.
Proof.
  induction idx as [|i idx IH]; intro s; simpl; [reflexivity|].
  destruct (body s i) as [s1 a]. specialize (IH s1).
  destruct (forPush body idx s1). simpl in *. congruence.
Qed.

Lemma forPush_Forall {S A} (body : S -> nat -> S * A) (P : A -> Prop) idx :
  (forall s i, In i idx -> P (snd (body s i))) ->
  forall s, Forall P (snd (forPush body idx s)).
Proof.
  induction idx as [|i idx IH]; intros H s; simpl; [constructor|].
  pose proof (H s i (or_introl eq_refl)) as Hi.
  destruct (body s i) as [s1 a].
  assert (IH' := IH (fun s j Hj => H s j (or_intror Hj)) s1).
  destruct (forPush body idx s1). simpl in *. constructor; assumption.
Qed.

Lemma forPush_ext {S A} (f g : S -> nat -> S * A) idx :
  (forall s i, In i idx -> f s i = g s i) ->
  forall s, forPush f idx s = forPush g idx s.
Proof.
  induction idx as [|i idx IH]; intros H s; simpl; [reflexivity|].
  rewrite (H s i (or_introl eq_refl)). destruct (g s i) as [s1 a].
  rewrite (IH (fun s j Hj => H s j (or_intror Hj)) s1). reflexivity.
Qed.

Lemma forPush_firstn {S A} (body : S -> nat -> S * A) idx : forall k s,
  firstn k (snd (forPush body idx s)) = snd (forPush body (firstn k idx) s).
Proof.
  induction idx as [|i idx IH]; intros k s.
  - rewrite firstn_nil. simpl. rewrite firstn_nil. reflexivity.
  - destruct k as [|k]; [reflexivity|]. simpl.
    destruct (body s i) as [s1 a]. specialize (IH k s1).
    destruct (forPush body idx s1) as [s2 o].
    destruct (forPush body (firstn k idx) s1) as [s3 o']. simpl in *.
    f_equal. assumption.
Qed.

Lemma forPush_skipn_Forall {S A} (body : S -> nat -> S * A) (P : A -> Prop) idx :
  forall k s,
  (forall s i, In i (skipn k idx) -> P (snd (body s i))) ->
  Forall P (skipn k (snd (forPush body idx s))).
Proof.
  induction idx as [|i idx IH]; intros k s H.
  - simpl. rewrite skipn_nil. constructor.
  - destruct k as [|k].
    + rewrite skipn_0. apply forPush_Forall. assumption.
    + simpl. destruct (body s i) as [s1 a]. specialize (IH k s1 H).
      destruct (forPush body idx s1). assumption.
Qed.

Lemma all_none_repeat {A} (l : list (option A)) :
  Forall (fun v => v = None) l -> l = repeat None (length l).
Proof.
  induction 1 as [|x l Hx _ IH]; simpl; [reflexivity|].
  subst. f_equal. assumption.
Qed.

End ArrFacts.

(** ** SMA and EMA: the null prefix *)

Module SeriesFacts.
Import Num Arr NumFacts ArrFacts TechnicalAnalysis.
Local Open Scope nat_scope.

Lemma calculateSMA_length data period :
  length (calculateSMA data period) = length data.
Proof. unfold calculateSMA. rewrite length_map, length_seq. reflexivity. Qed.

Lemma calculateEMA_length data period :
  length (calculateEMA data period) = length data.
Proof. unfold calculateEMA. rewrite forPush_length, length_seq. reflexivity. Qed.

Lemma emaBody_null data period m s i :
  snd (emaBody data period m s i) = None <-> i + 1 < period.
Proof.
  unfold emaBody.
  destruct (Nat.ltb_spec (i + 1) period) as [H|H]; simpl.
  - tauto.
  - destruct (i + 1 =? period); simpl; split; (discriminate || lia).
Qed.

Lemma none_prefix {A} (l : list (option A)) m :
  Forall (fun v => v = None) l -> length l = m -> l = repeat None m.
Proof. intros H <-. apply all_none_repeat. assumption. Qed.

Lemma calculateSMA_prefix data period :
  firstn (period - 1) (calculateSMA data period)
  = repeat None (Nat.min (period - 1) (length data)).
Proof.
  apply none_prefix.
  - unfold calculateSMA. rewrite firstn_map, firstn_seq.
    apply Forall_map, Forall_forall. intros i Hi. apply in_seq in Hi.
    destruct (Nat.ltb_spec (i + 1) period); [reflexivity|lia].
  - rewrite length_firstn, calculateSMA_length. reflexivity.
Qed.

Lemma calculateSMA_suffix data period :
  Forall (fun v => v <> None) (skipn (period - 1) (calculateSMA data period)).
Proof.
  unfold calculateSMA. rewrite skipn_map, skipn_seq.
  apply Forall_map, Forall_forall. intros i Hi. apply in_seq in Hi.
  destruct (Nat.ltb_spec (i + 1) period); [lia|discriminate].
Qed.

Lemma calculateEMA_prefix data period :
  firstn (period - 1) (calculateEMA data period)
  = repeat None (Nat.min (period - 1) (length data)).
Proof.
  apply none_prefix.
  - unfold calculateEMA. rewrite forPush_firstn, firstn_seq.
    apply forPush_Forall. intros s i Hi. apply in_seq in Hi.
    apply emaBody_null. lia.
  - rewrite length_firstn, calculateEMA_length. reflexivity.
Qed.

Lemma calculateEMA_suffix data period :
  Forall (fun v => v <> None) (skipn (period - 1) (calculateEMA data period)).
Proof.
  unfold calculateEMA. apply forPush_skipn_Forall.
  intros s i Hi. rewrite skipn_seq in Hi. apply in_seq in Hi.
  rewrite emaBody_null. lia.
Qed.

(** An array with [k] leading nulls and no null after them is null at
    exactly the indices below [k]. *)
Lemma null_exactly_below {A} (l : list (option A)) k i :
  firstn k l = repeat None (Nat.min k (length l)) ->
  Forall (fun v => v <> None) (skipn k l) ->
  i < length l ->
  (get l i = None <-> i < k).
Proof.
  intros Hpre Hsuf Hi. unfold get. split.
  - intro Hn. destruct (Nat.lt_ge_cases i k) as [|Hge]; [assumption|].
    exfalso.
    assert (Hin : In (nth i l None) (skipn k l)).
    { replace i with (k + (i - k)) by lia. rewrite <- nth_skipn.
      apply nth_In. rewrite length_skipn. lia. }
    revert Hsuf. rewrite Forall_forall. intro Hsuf. exact (Hsuf _ Hin Hn).
  - intro Hlt.
    assert (E : nth i l None = nth i (firstn k l) None).
    { rewrite nth_firstn. destruct (Nat.ltb_spec i k); [reflexivity|lia]. }
    rewrite E, Hpre. clear. generalize (Nat.min k (length l)). intro n.
    revert i. induction n as [|n IH]; intros [|i]; simpl; auto.
Qed.

(** C9.  For every series and period, [calculateSMA] and [calculateEMA]
    return one entry per value of the series, null at exactly the indices
    below [period - 1].  So when the series has at least [period] values
    each array begins with exactly [period - 1] nulls and is non-null at
    every later index, and when the series is shorter than [period] every
    entry of both is null. *)
Theorem sma_ema_null_prefix (data : list number) (period : nat) :
  (length (calculateSMA data period) = length data /\
   length (calculateEMA data period) = length data /\
   forall i, i < length data ->
     (get (calculateSMA data period) i = None <-> i < period - 1) /\
     (get (calculateEMA data period) i = None <-> i < period - 1))
  /\
  (period <= length data ->
     firstn (period - 1) (calculateSMA data period) = repeat None (period - 1) /\
     Forall (fun v => v <> None) (skipn (period - 1) (calculateSMA data period)) /\
     firstn (period - 1) (calculateEMA data period) = repeat None (period - 1) /\
     Forall (fun v => v <> None) (skipn (period - 1) (calculateEMA data period)))
  /\
  (length data < period ->
     calculateSMA data period = repeat None (length data) /\
     calculateEMA data period = repeat None (length data)).
Proof.
  split; [|split; intro H].
  - split; [apply calculateSMA_length|]. split; [apply calculateEMA_length|].
    intros i Hi. split.
    + apply null_exactly_below.
      * rewrite calculateSMA_length. apply calculateSMA_prefix.
      * apply calculateSMA_suffix.
      * rewrite calculateSMA_length. assumption.
    + apply null_exactly_below.
      * rewrite calculateEMA_length. apply calculateEMA_prefix.
      * apply calculateEMA_suffix.
      * rewrite calculateEMA_length. assumption.
  - rewrite calculateSMA_prefix, calculateEMA_prefix.
    rewrite Nat.min_l by lia.
    auto using calculateSMA_suffix, calculateEMA_suffix.
  - pose proof (calculateSMA_prefix data period) as Hs.
    pose proof (calculateEMA_prefix data period) as He.
    rewrite firstn_all2 in Hs by (rewrite calculateSMA_length; lia).
    rewrite firstn_all2 in He by (rewrite calculateEMA_length; lia).
    rewrite Nat.min_r in Hs, He by lia. auto.
Qed.

(** The theorem at a five-value series: with period 3 both arrays are two
    nulls followed by three values, with period 7 both are five nulls. *)
Lemma sma_ema_null_prefix_witness :
  (3 <= length [1; 2; 3; 4; 5]%Q /\
   calculateSMA [1; 2; 3; 4; 5]%Q 3 = [None; None; Some 2; Some 3; Some 4]%Q /\
   calculateEMA [1; 2; 3; 4; 5]%Q 3 = [None; None; Some 2; Some 3; Some 4]%Q /\
   length (calculateSMA [1; 2; 3; 4; 5]%Q 3) = 5 /\
   length (calculateEMA [1; 2; 3; 4; 5]%Q 3) = 5 /\
   firstn 2 (calculateSMA [1; 2; 3; 4; 5]%Q 3) = [None; None] /\
   Forall (fun v => v <> None) (skipn 2 (calculateSMA [1; 2; 3; 4; 5]%Q 3)) /\
   firstn 2 (calculateEMA [1; 2; 3; 4; 5]%Q 3) = [None; None] /\
   Forall (fun v => v <> None) (skipn 2 (calculateEMA [1; 2; 3; 4; 5]%Q 3))) /\
  (length [1; 2; 3; 4; 5]%Q < 7 /\
   calculateSMA [1; 2; 3; 4; 5]%Q 7 = repeat None 5 /\
   calculateEMA [1; 2; 3; 4; 5]%Q 7 = repeat None 5).
Proof.
  split.
  - assert (H : 3 <= length [1; 2; 3; 4; 5]%Q) by (simpl; lia).
    split; [exact H|].
    split; [vm_compute; reflexivity|]. split; [vm_compute; reflexivity|].
    destruct (sma_ema_null_prefix [1; 2; 3; 4; 5]%Q 3) as [[L1 [L2 _]] [P _]].
    split; [exact L1|]. split; [exact L2|]. exact (P H).
  - assert (H : length [1; 2; 3; 4; 5]%Q < 7) by (simpl; lia).
    split; [exact H|].
    exact (proj2 (proj2 (sma_ema_null_prefix [1; 2; 3; 4; 5]%Q 7)) H).
Defined.

End SeriesFacts.

(** ** RSI *)

Module RsiFacts.
Import Num Arr NumFacts ArrFacts TechnicalAnalysis.
Local Open Scope Q_scope.

Lemma gainsOf_nonneg closes : Forall (fun x => 0 <= x) (gainsOf closes).
Proof.
  unfold gainsOf. apply Forall_map, Forall_forall. intros i _. cbv zeta.
  destruct (gtb _ 0) eqn:E; [apply gtb_gt in E|]; lra.
Qed.

Lemma lossesOf_nonneg closes : Forall (fun x => 0 <= x) (lossesOf closes).
Proof.
  unfold lossesOf. apply Forall_map, Forall_forall. intros i _. cbv zeta.
  destruct (ltb _ 0); [apply abs_nonneg|lra].
Qed.

Lemma nth_nonneg l i : Forall (fun x => 0 <= x) l -> 0 <= nth i l 0.
Proof.
  intro H. destruct (Nat.lt_ge_cases i (length l)) as [Hi|Hi].
  - revert H. rewrite Forall_forall. intro H. apply H, nth_In. assumption.
  - rewrite nth_overflow by assumption. lra.
Qed.

Lemma mean_nonneg l s e period :
  Forall (fun x => 0 <= x) l -> 0 <= div (sum (slice l s e)) (ofNat period).
Proof.
  intro H. apply div_nonneg; [|apply ofNat_nonneg].
  apply sum_nonneg, Forall_slice. assumption.
Qed.

Lemma smoothed_nonneg prev cur period :
  (1 <= period)%nat -> 0 <= prev -> 0 <= cur ->
  0 <= div (add (mul prev (sub (ofNat period) 1)) cur) (ofNat period).
Proof.
  intros Hp Hprev Hcur. apply div_nonneg; [|apply ofNat_nonneg].
  apply add_nonneg; [|assumption]. apply mul_nonneg; [assumption|].
  rewrite sub_eq. pose proof (ofNat_pos period Hp). lra.
Qed.

Lemma rsiAverages_nonneg closes period i :
  (1 <= period)%nat ->
  0 <= fst (rsiAverages closes period i) /\ 0 <= snd (rsiAverages closes period i).
Proof.
  intro Hp. unfold rsiAverages. cbv zeta.
  pose proof (gainsOf_nonneg closes) as Hg.
  pose proof (lossesOf_nonneg closes) as Hl.
  destruct (i =? period)%nat; simpl; split;
    auto using mean_nonneg, smoothed_nonneg, nth_nonneg.
Qed.

Lemma rsiOfAverages_bounds g l :
  0 <= g -> 0 <= l -> 0 <= rsiOfAverages (g, l) <= 100.
Proof.
  intros Hg Hl. unfold rsiOfAverages.
  destruct (eqb l 0) eqn:E; [lra|].
  apply eqb_neq in E. assert (Hlpos : 0 < l) by lra.
  rewrite sub_eq, div_eq, add_eq, div_eq.
  assert (Hrs : 0 <= g / l) by (apply Qdiv_nonneg; assumption).
  set (rs := g / l) in *.
  assert (H1 : 0 <= 100 / (1 + rs)) by (apply Qdiv_nonneg; lra).
  assert (H2 : 100 / (1 + rs) <= 100) by (apply Qle_shift_div_r; lra).
  lra.
Qed.

Lemma calculateRSI_nth closes period i v :
  nth_error (calculateRSI closes period) i = Some v ->
  (i < length closes)%nat /\
  v = if (i <? period)%nat then None
      else Some (rsiOfAverages (rsiAverages closes period i)).
Proof.
  unfold calculateRSI. intro H.
  assert (Hi : (i < length closes)%nat).
  { assert (Hn : nth_error (map (fun i => if (i <? period)%nat then None
                else Some (rsiOfAverages (rsiAverages closes period i)))
      (seq 0 (length closes))) i <> None) by congruence.
    apply nth_error_Some in Hn. rewrite length_map, length_seq in Hn. exact Hn. }
  split; [assumption|].
  rewrite nth_error_map, nth_error_seq in H.
  destruct (Nat.ltb_spec i (length closes)); [|lia].
  simpl in H. congruence.
Qed.

Lemma calculateRSI_at closes period i :
  (i < length closes)%nat ->
  nth_error (calculateRSI closes period) i
  = Some (if (i <? period)%nat then None
          else Some (rsiOfAverages (rsiAverages closes period i))).
Proof.
  intro Hi. unfold calculateRSI.
  rewrite nth_error_map, nth_error_seq.
  destruct (Nat.ltb_spec i (length closes)); [reflexivity|lia].
Qed.

(** The single-value calculator of the store returns 50 on a short series
    and otherwise the same function of its smoothed averages. *)
Lemma store_calculateRSI_value closes period :
  Store.value (Store.calculateRSI closes period)
  = if (length closes <? period + 1)%nat then 50
    else rsiOfAverages
           (Store.smoothedAverages closes period (length (Store.changesOf closes))).
Proof.
  unfold Store.calculateRSI. destruct (length closes <? period + 1)%nat; [reflexivity|].
  cbv zeta.
  destruct (Store.smoothedAverages closes period (length (Store.changesOf closes)))
    as [g l].
  unfold rsiOfAverages. destruct (eqb l 0); [reflexivity|].
  repeat match goal with
         | |- context [if ?c then _ else _] => destruct c
         end; reflexivity.
Qed.

Lemma seedStep_nonneg changes idx : forall acc,
  0 <= fst acc /\ 0 <= snd acc ->
  0 <= fst (fold_left (Store.seedStep changes) idx acc) /\
  0 <= snd (fold_left (Store.seedStep changes) idx acc).
Proof.
  induction idx as [|i idx IH]; intros [g l] [Hg Hl]; simpl; [auto|].
  apply IH. simpl in *.
  destruct (gtb (nth i changes 0) 0) eqn:E; simpl.
  - apply gtb_gt in E. split; [apply add_nonneg; lra|assumption].
  - split; [assumption|]. apply add_nonneg; [assumption|apply abs_nonneg].
Qed.

Lemma smoothStep_nonneg changes period idx :
  (1 <= period)%nat -> forall acc,
  0 <= fst acc /\ 0 <= snd acc ->
  0 <= fst (fold_left (Store.smoothStep changes period) idx acc) /\
  0 <= snd (fold_left (Store.smoothStep changes period) idx acc).
Proof.
  intro Hp. pose proof (ofNat_pos period Hp) as Hn.
  assert (Hm : forall a, 0 <= a -> 0 <= mul a (sub (ofNat period) 1)).
  { intros a Ha. apply mul_nonneg; [assumption|]. rewrite sub_eq. lra. }
  induction idx as [|i idx IH]; intros [g l] [Hg Hl]; simpl; [auto|].
  apply IH. simpl in *.
  destruct (gtb (nth i changes 0) 0) eqn:E; simpl.
  - apply gtb_gt in E.
    split; apply div_nonneg; try apply ofNat_nonneg; auto.
    apply add_nonneg; [auto|lra].
  - split; apply div_nonneg; try apply ofNat_nonneg; auto.
    apply add_nonneg; [auto|apply abs_nonneg].
Qed.

Lemma smoothedAverages_nonneg closes period upto :
  (1 <= period)%nat ->
  0 <= fst (Store.smoothedAverages closes period upto) /\
  0 <= snd (Store.smoothedAverages closes period upto).
Proof.
  intro Hp. unfold Store.smoothedAverages. cbv zeta.
  assert (Hs := seedStep_nonneg (Store.changesOf closes) (seq 0 period) (0, 0)
                  (conj (Qle_refl 0) (Qle_refl 0))).
  destruct (fold_left (Store.seedStep (Store.changesOf closes)) (seq 0 period) (0, 0))
    as [g l].
  destruct Hs as [Hg Hl]. simpl in Hg, Hl.
  apply smoothStep_nonneg; [assumption|].
  simpl. split; apply div_nonneg; try apply ofNat_nonneg; assumption.
Qed.

(** C1.  For every close series and every period >= 1, every non-null
    element of [calculateRSI] lies in [0, 100], and at every index
    (from [period] on) where the computed average loss is 0 the value is
    exactly 100.  The single value returned by the store's calculator obeys
    the same bounds and the same pin. *)
Theorem calculateRSI_bounds (closes : list number) (period : nat)
  (Hperiod : (1 <= period)%nat) :
  (forall i r, nth_error (calculateRSI closes period) i = Some (Some r) ->
               0 <= r <= 100)
  /\
  (forall i, (period <= i < length closes)%nat ->
             snd (rsiAverages closes period i) == 0 ->
             nth_error (calculateRSI closes period) i = Some (Some 100))
  /\
  0 <= Store.value (Store.calculateRSI closes period) <= 100
  /\
  ((period + 1 <= length closes)%nat ->
   snd (Store.smoothedAverages closes period (length (Store.changesOf closes))) == 0 ->
   Store.value (Store.calculateRSI closes period) = 100).
Proof.
  split; [|split; [|split]]; cycle 2.
  - rewrite store_calculateRSI_value.
    destruct (length closes <? period + 1)%nat; [lra|].
    destruct (smoothedAverages_nonneg closes period
                (length (Store.changesOf closes)) Hperiod) as [Hg Hl].
    destruct (Store.smoothedAverages closes period _) as [g l].
    apply rsiOfAverages_bounds; assumption.
  - intros Hlen Hz. rewrite store_calculateRSI_value.
    destruct (Nat.ltb_spec (length closes) (period + 1)); [lia|].
    destruct (Store.smoothedAverages closes period _) as [g l]. simpl in Hz.
    unfold rsiOfAverages. apply eqb_eq in Hz. rewrite Hz. reflexivity.
  - intros i r H. apply calculateRSI_nth in H. destruct H as [_ H].
    destruct (i <? period)%nat; [discriminate|].
    injection H as ->.
    destruct (rsiAverages_nonneg closes period i Hperiod) as [Hg Hl].
    destruct (rsiAverages closes period i) as [g l].
    apply rsiOfAverages_bounds; assumption.
  - intros i [Hi Hn] Hz. rewrite calculateRSI_at by assumption.
    destruct (Nat.ltb_spec i period); [lia|].
    destruct (rsiAverages closes period i) as [g l]. simpl in Hz.
    unfold rsiOfAverages. apply eqb_eq in Hz. rewrite Hz. reflexivity.
Qed.

(** The theorem at the series 10, 11, 12, 11, 13 with period 2: index 2
    has average loss 0 and value 100. *)
Lemma calculateRSI_bounds_witness :
  (1 <= 2)%nat /\
  nth_error (calculateRSI [10; 11; 12; 11; 13] 2) 2 = Some (Some 100).
Proof.
  assert (Hp : (1 <= 2)%nat) by lia.
  split; [exact Hp|].
  apply (proj1 (proj2 (calculateRSI_bounds [10; 11; 12; 11; 13] 2 Hp)) 2%nat).
  - simpl. lia.
  - vm_compute. reflexivity.
Defined.

End RsiFacts.

(** ** The smoothing of the full-array RSI *)

Module RsiSmoothing.
Import Num Arr TechnicalAnalysis.
Local Open Scope Q_scope.

(** C2.  On the closes 10, 11, 12, 11 with period 2, at index 3 (the first
    index past the period) the array RSI smooths the windowed mean of the
    last two gains and losses, (1/2, 1/2), into (1/4, 3/4) and returns 25.
    The Wilder recurrence carries (1, 0) forward from index 2, gives
    (1/2, 1/2) and an RSI of 50, which is also what the single-value
    calculator of the store returns on the same closes. *)
Theorem calculateRSI_smooths_window_mean :
  rsiAverages [10; 11; 12; 11] 2 2 = (1, 0) /\
  rsiAverages [10; 11; 12; 11] 2 3 = (1 # 4, 3 # 4) /\
  nth_error (calculateRSI [10; 11; 12; 11] 2) 3 = Some (Some 25) /\
  Reference.wilderAverages [10; 11; 12; 11] 2 0 = (1, 0) /\
  Reference.wilderAverages [10; 11; 12; 11] 2 1 = (1 # 2, 1 # 2) /\
  rsiOfAverages (Reference.wilderAverages [10; 11; 12; 11] 2 1) = 50 /\
  Store.value (Store.calculateRSI [10; 11; 12; 11] 2) = 50.
Proof. repeat split; vm_compute; reflexivity. Qed.

(** *** The sibling calculator of the store does follow the recurrence *)

Import NumFacts ArrFacts.

Lemma gainsOf_changes closes :
  gainsOf closes = map (fun c => if gtb c 0 then c else 0) (Store.changesOf closes).
Proof. unfold gainsOf, Store.changesOf. rewrite map_map. reflexivity. Qed.

Lemma lossesOf_changes closes :
  lossesOf closes = map (fun c => if ltb c 0 then abs c else 0) (Store.changesOf closes).
Proof. unfold lossesOf, Store.changesOf. rewrite map_map. reflexivity. Qed.

Lemma gain_at closes j :
  nth j (gainsOf closes) 0
  = if gtb (nth j (Store.changesOf closes) 0) 0 then nth j (Store.changesOf closes) 0
    else 0.
Proof.
  rewrite gainsOf_changes.
  apply (map_nth (fun c => if gtb c 0 then c else 0) (Store.changesOf closes) 0 j).
Qed.

Lemma loss_at closes j :
  nth j (lossesOf closes) 0
  = if ltb (nth j (Store.changesOf closes) 0) 0
    then abs (nth j (Store.changesOf closes) 0) else 0.
Proof.
  rewrite lossesOf_changes.
  apply (map_nth (fun c => if ltb c 0 then abs c else 0) (Store.changesOf closes) 0 j).
Qed.

(** A gain and the matching loss, in terms of the change: one of them is 0. *)
Lemma gain_loss_cases closes j :
  let c := nth j (Store.changesOf closes) 0 in
  (gtb c 0 = true /\ nth j (gainsOf closes) 0 = c /\ nth j (lossesOf closes) 0 = 0)
  \/
  (gtb c 0 = false /\ nth j (gainsOf closes) 0 = 0 /\ nth j (lossesOf closes) 0 == abs c).
Proof.
  intro c. rewrite gain_at, loss_at. fold c.
  destruct (gtb c 0) eqn:G.
  - left. apply gtb_gt in G. split; [reflexivity|]. split; [reflexivity|].
    destruct (ltb c 0) eqn:L; [apply ltb_lt in L; lra|reflexivity].
  - right. apply gtb_le in G. split; [reflexivity|]. split; [reflexivity|].
    destruct (ltb c 0) eqn:L; [reflexivity|].
    apply ltb_ge in L. assert (E : c == 0) by lra.
    unfold abs. rewrite E. reflexivity.
Qed.

Lemma sum_snoc l x : sum (l ++ [x]) = add (sum l) x.
Proof. unfold sum. rewrite fold_left_app. reflexivity. Qed.

Lemma firstn_snoc {A} (l : list A) j d :
  (j < length l)%nat -> firstn (S j) l = firstn j l ++ [nth j l d].
Proof.
  revert l. induction j as [|j IH]; intros [|x l] H; simpl in *; try lia.
  - reflexivity.
  - f_equal. apply IH. lia.
Qed.

Lemma seed_sums closes j :
  (j <= length (Store.changesOf closes))%nat ->
  fst (fold_left (Store.seedStep (Store.changesOf closes)) (seq 0 j) (0, 0))
  == sum (firstn j (gainsOf closes)) /\
  snd (fold_left (Store.seedStep (Store.changesOf closes)) (seq 0 j) (0, 0))
  == sum (firstn j (lossesOf closes)).
Proof.
  assert (Hlg : length (gainsOf closes) = length (Store.changesOf closes))
    by (rewrite gainsOf_changes; apply length_map).
  assert (Hll : length (lossesOf closes) = length (Store.changesOf closes))
    by (rewrite lossesOf_changes; apply length_map).
  induction j as [|j IH]; intro Hj.
  - simpl. split; reflexivity.
  - rewrite seq_S, fold_left_app. cbn [fold_left Nat.add].
    destruct IH as [Hg Hl]; [lia|].
    destruct (fold_left (Store.seedStep (Store.changesOf closes)) (seq 0 j) (0, 0))
      as [g l]. cbn [fst snd] in Hg, Hl.
    rewrite (firstn_snoc (gainsOf closes) j 0), (firstn_snoc (lossesOf closes) j 0)
      by lia.
    rewrite !sum_snoc. unfold Store.seedStep.
    destruct (gain_loss_cases closes j) as [[G [Eg El]]|[G [Eg El]]];
      rewrite G, Eg; cbn [fst snd].
    + rewrite El, Hg, <- Hl. split; [reflexivity|]. rewrite add_eq. lra.
    + rewrite El, Hl, <- Hg. split; [|reflexivity]. rewrite add_eq. lra.
Qed.

(** From the seed on, the store's smoothed averages are the averages of
    the Wilder recurrence. *)
Lemma store_follows_wilder closes period k :
  (period + k <= length (Store.changesOf closes))%nat ->
  fst (Store.smoothedAverages closes period (period + k))
  == fst (Reference.wilderAverages closes period k) /\
  snd (Store.smoothedAverages closes period (period + k))
  == snd (Reference.wilderAverages closes period k).
Proof.
  induction k as [|k IH]; intro Hk.
  - unfold Store.smoothedAverages. cbv zeta.
    destruct (seed_sums closes period) as [Hg Hl]; [lia|].
    destruct (fold_left (Store.seedStep (Store.changesOf closes)) (seq 0 period) (0, 0))
      as [g l]. simpl in Hg, Hl.
    replace (period + 0 - period)%nat with 0%nat by lia. simpl.
    unfold slice. rewrite Nat.sub_0_r. simpl skipn.
    rewrite Hg, Hl. split; reflexivity.
  - destruct IH as [Hg Hl]; [lia|].
    unfold Store.smoothedAverages in *. cbv zeta in *.
    destruct (fold_left (Store.seedStep (Store.changesOf closes)) (seq 0 period) (0, 0))
      as [g0 l0].
    replace (period + S k - period)%nat with (S k) by lia.
    replace (period + k - period)%nat with k in Hg, Hl by lia.
    rewrite seq_S, fold_left_app. simpl.
    match goal with
    | |- context [fold_left ?f (seq period k) ?a] =>
        destruct (fold_left f (seq period k) a) as [g l]
    end.
    destruct (Reference.wilderAverages closes period k) as [wg wl].
    cbn [fst snd] in Hg, Hl. unfold Store.smoothStep.
    destruct (gain_loss_cases closes (period + k)) as [[G [Eg El]]|[G [Eg El]]];
      rewrite G, Eg; cbn [fst snd]; rewrite Hg, Hl, El; split.
    all: try reflexivity.
    all: rewrite !div_eq, add_eq; apply Qdiv_comp; [lra|reflexivity].
Qed.

End RsiSmoothing.

(** ** MACD *)

Module MacdFacts.
Import Num Arr NumFacts ArrFacts TechnicalAnalysis.
Local Open Scope nat_scope.

Lemma diffLine_at a b n i :
  i < n ->
  nth_error (diffLine a b n) i
  = Some match get a i, get b i with
         | Some x, Some y => Some (sub x y)
         | _, _ => None
         end.
Proof.
  intro Hi. unfold diffLine. rewrite nth_error_map, nth_error_seq.
  destruct (Nat.ltb_spec i n); [reflexivity|lia].
Qed.

Lemma get_nth_error {A} (l : list (option A)) i v :
  nth_error l i = Some v -> get l i = v.
Proof. intro H. unfold get. apply nth_error_nth. assumption. Qed.

(** The part of C3 that the code honours: wherever the MACD line and the
    signal line are both non-null, the histogram is their difference. *)
Lemma histogram_is_difference closes i m s :
  nth_error (macd (calculateMACD closes)) i = Some (Some m) ->
  nth_error (signal (calculateMACD closes)) i = Some (Some s) ->
  nth_error (histogram (calculateMACD closes)) i = Some (Some (sub m s)).
Proof.
  unfold calculateMACD. cbv zeta. simpl. intros Hm Hs.
  assert (Hi : i < length closes).
  { assert (Hn : nth_error (calculateEMA
       (map orZero (diffLine (calculateEMA closes 12) (calculateEMA closes 26)
                             (length closes))) 9) i <> None) by congruence.
    apply nth_error_Some in Hn.
    rewrite SeriesFacts.calculateEMA_length, length_map in Hn.
    unfold diffLine in Hn. rewrite length_map, length_seq in Hn. exact Hn. }
  rewrite diffLine_at by assumption.
  rewrite (get_nth_error _ _ _ Hm), (get_nth_error _ _ _ Hs). reflexivity.
Qed.

(** C3.  On the closes 1, 2, ..., 34 the MACD line is null up to index 24
    and equal to 7 from index 25 on, so index 33 is the first index where
    nine MACD values exist and the 9-period EMA of the MACD line itself is
    7 there.  The code's signal line is instead already defined (as 0) at
    index 8, where the MACD line is null, and at index 33 it is
    11836867/1953125: the nulls of the line entered the average as 0. *)
Theorem calculateMACD_signal_averages_nulls_as_zero :
  let r := calculateMACD (Samples.rising 34) in
  nth_error (macd r) 8 = Some None /\
  nth_error (signal r) 8 = Some (Some 0%Q) /\
  firstn 9 (skipn 25 (macd r)) = repeat (Some 7%Q) 9 /\
  nth_error (Reference.emaOfLine (macd r) 9) 32 = Some None /\
  nth_error (Reference.emaOfLine (macd r) 9) 33 = Some (Some 7%Q) /\
  nth_error (signal r) 33 = Some (Some (11836867 # 1953125)%Q) /\
  nth_error (histogram r) 33 = Some (Some (1835008 # 1953125)%Q) /\
  signal r <> Reference.emaOfLine (macd r) 9.
Proof.
  cbv zeta. repeat split; try (vm_compute; reflexivity).
  intro H. apply (f_equal (fun l => nth_error l 8)) in H.
  vm_compute in H. discriminate.
Qed.

End MacdFacts.

(** ** The comprehensive analysis *)

Module AnalysisFacts.
Import Num Arr TechnicalAnalysis.

(** C10.  On every non-empty candle series [performTechnicalAnalysis]
    returns, and its [support2] and [resistance2] are null: both are read
    from the module-level constant [levels], whose two arrays are empty,
    whatever levels were computed for the input. *)
Theorem performTechnicalAnalysis_second_levels_null
  (sqrt : number -> number) (candles : list CandleData) :
  candles <> [] ->
  ModuleLevels.supports levels = [] /\
  ModuleLevels.resistances levels = [] /\
  exists ti,
    performTechnicalAnalysis sqrt candles = Some ti /\
    Indicators.support2 (Indicators.supportResistance ti) = None /\
    Indicators.resistance2 (Indicators.supportResistance ti) = None.
Proof.
  intro Hne. split; [reflexivity|]. split; [reflexivity|].
  unfold performTechnicalAnalysis.
  destruct (lastOpt candles) as [lastCandle|] eqn:E.
  - eexists. split; [reflexivity|]. split; reflexivity.
  - exfalso. unfold lastOpt in E. apply nth_error_None in E.
    destruct candles; [contradiction|simpl in E; lia].
Qed.

(** The theorem at the zigzag series, for which [findSupportResistance]
    computes the two supports 18 and 16 and the two resistances 23 and 25:
    the analysis reports the first support, 18, and still a null second
    support and a null second resistance. *)
Lemma performTechnicalAnalysis_second_levels_null_witness :
  Samples.zigzag <> [] /\
  map price (supports (findSupportResistance Samples.zigzag 100 (2 # 100)))
    = [18; 16]%Q /\
  map price (resistances (findSupportResistance Samples.zigzag 100 (2 # 100)))
    = [23; 25]%Q /\
  exists ti,
    performTechnicalAnalysis sqrtApprox Samples.zigzag = Some ti /\
    Indicators.support1 (Indicators.supportResistance ti) = Some 18%Q /\
    Indicators.support2 (Indicators.supportResistance ti) = None /\
    Indicators.resistance2 (Indicators.supportResistance ti) = None.
Proof.
  assert (H : Samples.zigzag <> []) by discriminate.
  split; [exact H|].
  split; [vm_compute; reflexivity|]. split; [vm_compute; reflexivity|].
  destruct (performTechnicalAnalysis_second_levels_null
              sqrtApprox Samples.zigzag H) as [_ [_ [ti [E [S2 R2]]]]].
  exists ti. split; [exact E|]. split; [|split; assumption].
  assert (E' : option_map
                 (fun t => Indicators.support1 (Indicators.supportResistance t))
                 (performTechnicalAnalysis sqrtApprox Samples.zigzag)
               = Some (Some 18%Q)) by (vm_compute; reflexivity).
  rewrite E in E'. simpl in E'. congruence.
Defined.

End AnalysisFacts.

(** ** The core backtester of the store *)

Module StoreFacts.
Import Num Arr NumFacts ArrFacts Store.
Local Open Scope Q_scope.








End StoreFacts.

(** ** The store's MACD reads past the end of its fast EMA *)

Module StoreMacdFacts.
Import Num Arr NumFacts ArrFacts Store.
Local Open Scope nat_scope.

Lemma emaArrays_lengths closes slowPeriod fm sm idx : forall f s fe se,
  let '(_, _, fe', se') :=
    fold_left (emaArraysStep closes slowPeriod fm sm) idx (f, s, fe, se) in
  length fe' = length fe + length idx /\
  length se' = length se + length (filter (fun i => slowPeriod <=? i + 1) idx).
Proof.
  induction idx as [|i idx IH]; intros f s fe se.
  - simpl. lia.
  - cbn [fold_left].
    assert (Hstep : exists f1 s1,
              emaArraysStep closes slowPeriod fm sm (f, s, fe, se) i
              = (f1, s1, fe ++ [f1],
                 if slowPeriod <=? i + 1 then se ++ [s1] else se)).
    { unfold emaArraysStep. destruct (slowPeriod <=? i + 1); eauto. }
    destruct Hstep as [f1 [s1 ->]].
    specialize (IH f1 s1 (fe ++ [f1]) (if slowPeriod <=? i + 1 then se ++ [s1] else se)).
    destruct (fold_left _ idx _) as [[[f' s'] fe'] se'].
    rewrite length_app in IH. simpl.
    destruct (slowPeriod <=? i + 1); [rewrite length_app in IH|]; simpl in *; lia.
Qed.

Lemma slow_pushes n :
  25 <= n ->
  length (filter (fun i => 26 <=? i + 1) (seq 12 (n - 12))) = n - 25.
Proof.
  intro Hn. replace (n - 12) with (13 + (n - 25)) by lia.
  rewrite seq_app, filter_app, length_app.
  change (length (filter (fun i => 26 <=? i + 1) (seq 12 13))) with 0.
  rewrite Nat.add_0_l, forallb_filter_id.
  - apply length_seq.
  - apply forallb_forall. intros i Hi. apply in_seq in Hi.
    apply Nat.leb_le. lia.
Qed.

Lemma macdLineOf_ends_in_NaN closes :
  26 <= length closes ->
  exists line, macdLineOf closes 12 26 = line ++ [NaN] /\
               length line = length closes - 25.
Proof.
  intro Hn. unfold macdLineOf. cbv zeta.
  match goal with
  | |- context [fold_left (emaArraysStep _ _ ?fm ?sm) ?idx (?a, ?b, ?c, ?d)] =>
      pose proof (emaArrays_lengths closes 26 fm sm idx a b c d) as Hlen
  end.
  destruct (fold_left _ _ _) as [[[f s] fe] se].
  destruct Hlen as [Hfe Hse].
  rewrite length_seq in Hfe. rewrite slow_pushes in Hse by lia. simpl in Hfe, Hse.
  replace (length se) with (S (length closes - 25)) by lia.
  rewrite seq_S, map_app. cbn [map Nat.add].
  eexists. split; [f_equal|rewrite length_map, length_seq; reflexivity].
  unfold operandAt, operand.
  destruct (Z.ltb_spec (Z.of_nat (length closes - 25) + (Z.of_nat 26 - Z.of_nat 12)) 0);
    [reflexivity|].
  replace (nth_error fe (Z.to_nat (Z.of_nat (length closes - 25)
                                   + (Z.of_nat 26 - Z.of_nat 12))))
    with (@None number); [reflexivity|].
  symmetry. apply nth_error_None. lia.
Qed.

(** On every series long enough for the MACD to be computed, the value and
    the histogram returned by the store's [calculateMACD] are NaN. *)
Lemma calculateMACD_is_NaN closes :
  35 <= length closes ->
  macd (calculateMACD closes 12 26 9) = Some NaN /\
  histogram (calculateMACD closes 12 26 9) = Some NaN.
Proof.
  intro Hn. unfold calculateMACD.
  destruct (Nat.ltb_spec (length closes) (26 + 9)); [lia|]. cbv zeta.
  destruct (macdLineOf_ends_in_NaN closes) as [line [-> Hl]]; [lia|].
  assert (Hlast : operandN (line ++ [NaN]) (length (line ++ [NaN]) - 1) = NaN).
  { unfold operandN. rewrite length_app. simpl.
    replace (length line + 1 - 1) with (length line) by lia.
    apply nth_middle. }
  simpl. rewrite Hlast. split; reflexivity.
Qed.

Lemma step_keeps_flat data rsiOversold rsiOverbought st i :
  50 <= i <= length data ->
  position st = 0%Q -> trades st = [] ->
  position (step data rsiOversold rsiOverbought st i) = 0%Q /\
  trades (step data rsiOversold rsiOverbought st i) = [].
Proof.
  intros Hi Hp Ht. unfold step. cbv zeta.
  assert (Hlen : 35 <= length (map close (slice data 0 i))).
  { rewrite length_map. unfold slice. rewrite length_firstn. simpl. lia. }
  destruct (calculateMACD_is_NaN _ Hlen) as [_ Hh].
  unfold decide. rewrite Hh, Hp. simpl.
  rewrite andb_false_r. simpl. auto.
Qed.

Lemma fold_step_keeps_flat data rsiOversold rsiOverbought idx : forall st,
  Forall (fun i => 50 <= i <= length data) idx ->
  position st = 0%Q -> trades st = [] ->
  position (fold_left (step data rsiOversold rsiOverbought) idx st) = 0%Q /\
  trades (fold_left (step data rsiOversold rsiOverbought) idx st) = [].
Proof.
  induction idx as [|i idx IH]; intros st Hidx Hp Ht; simpl; [auto|].
  inversion Hidx; subst.
  destruct (step_keeps_flat data rsiOversold rsiOverbought st i) as [Hp' Ht'];
    auto.
Qed.

(** Consequently the store's backtest never enters a position: whatever
    the series, its trade log is empty. *)
Lemma simulate_never_trades data initialCapital rsiOversold rsiOverbought upto :
  upto <= length data ->
  position (simulate data initialCapital rsiOversold rsiOverbought upto) = 0%Q /\
  trades (simulate data initialCapital rsiOversold rsiOverbought upto) = [].
Proof.
  intro Hu. unfold simulate. apply fold_step_keeps_flat; [|reflexivity|reflexivity].
  apply Forall_forall. intros i Hi. apply in_seq in Hi. lia.
Qed.

Lemma runBacktest_never_trades sqrt data initialCapital rsiOversold rsiOverbought :
  resultTrades (runBacktest sqrt data initialCapital rsiOversold rsiOverbought) = [] /\
  totalTrades (runBacktest sqrt data initialCapital rsiOversold rsiOverbought) = 0.
Proof.
  unfold runBacktest. destruct (length data <? 50); [split; reflexivity|].
  cbv zeta. simpl.
  destruct (simulate_never_trades data initialCapital rsiOversold rsiOverbought
              (length data) (le_n _)) as [_ ->].
  split; reflexivity.
Qed.

End StoreMacdFacts.

(** ** The API-route backtester: result invariants *)

Module RouteFacts.
Import Num Arr NumFacts ArrFacts BacktestRoute.
Local Open Scope nat_scope.

Ltac step_cases :=
  unfold step; cbv zeta;
  repeat match goal with
         | |- context [if ?c then _ else _] => destruct c
         end.

Lemma step_equityCurve config candles rsiValues macdResult bollinger st i :
  length (equityCurve (step config candles rsiValues macdResult bollinger st i))
  = S (length (equityCurve st)).
Proof.
  step_cases; simpl; rewrite length_app; simpl; lia.
Qed.

Lemma simulate_equityCurve config candles rsiValues macdResult bollinger upto :
  length (equityCurve (simulate config candles rsiValues macdResult bollinger upto))
  = upto - 50.
Proof.
  unfold simulate.
  rewrite <- (length_seq (upto - 50) 50) at 2.
  change (length (seq 50 (upto - 50)))
    with (length (equityCurve (initialState config)) + length (seq 50 (upto - 50))).
  generalize (initialState config). generalize (seq 50 (upto - 50)).
  induction l as [|i l IH]; intro st; simpl; [lia|].
  rewrite IH, step_equityCurve. lia.
Qed.

(** The number of closing trades counted so far never exceeds the number
    of SELL entries logged. *)
Definition talliesBounded (st : State) : Prop :=
  winningTrades st + losingTrades st <= length (filter isSell (trades st)).

Lemma tally_at_most_one tally pnl w l :
  tallyWin tally pnl w + tallyLoss tally pnl l <= S (w + l).
Proof.
  destruct tally; simpl; repeat match goal with
    | |- context [if ?c then _ else _] => destruct c end; lia.
Qed.

Lemma logSell_talliesBounded tally st ts exitPrice why :
  talliesBounded st -> talliesBounded (logSell tally st ts exitPrice why).
Proof.
  unfold talliesBounded, logSell. simpl. intro H.
  rewrite filter_app, length_app. simpl.
  pose proof (tally_at_most_one tally
    (mul (sub exitPrice (entryPrice st)) (position st))
    (winningTrades st) (losingTrades st)). lia.
Qed.

Lemma step_talliesBounded config candles rsiValues macdResult bollinger st i :
  talliesBounded st ->
  talliesBounded (step config candles rsiValues macdResult bollinger st i).
Proof.
  intro H.
  assert (Hm : forall c, talliesBounded (markEquity st c)) by (intro c; exact H).
  assert (Hb : forall s c sig, talliesBounded s -> talliesBounded (buy config s c sig)).
  { intros s c sig Hs. unfold talliesBounded, buy in *. simpl.
    rewrite filter_app, length_app. simpl. lia. }
  assert (Hs : forall t s ts p why, talliesBounded s -> talliesBounded (sell t s ts p why)).
  { intros t s ts p why Hs. apply (logSell_talliesBounded t s ts p why) in Hs.
    exact Hs. }
  unfold step. cbv zeta.
  repeat match goal with
         | |- context [if ?c then _ else _] => destruct c
         end; auto.
Qed.

Lemma simulate_talliesBounded config candles rsiValues macdResult bollinger upto :
  talliesBounded (simulate config candles rsiValues macdResult bollinger upto).
Proof.
  unfold simulate.
  assert (H0 : talliesBounded (initialState config)) by (unfold talliesBounded; simpl; lia).
  revert H0. generalize (initialState config). generalize (seq 50 (upto - 50)).
  induction l as [|i l IH]; intros st Hst; simpl; [assumption|].
  apply IH, step_talliesBounded. assumption.
Qed.

Lemma finalState_talliesBounded config candles rsiValues macdResult bollinger :
  talliesBounded (finalState config candles rsiValues macdResult bollinger).
Proof.
  unfold finalState, closeRemaining.
  pose proof (simulate_talliesBounded config candles rsiValues macdResult bollinger
                (length candles)) as H.
  destruct (gtb _ _); [apply logSell_talliesBounded|]; assumption.
Qed.

Lemma closeRemaining_equityCurve candles st :
  equityCurve (closeRemaining candles st) = equityCurve st.
Proof. unfold closeRemaining. destruct (gtb _ _); reflexivity. Qed.

(** C5, as the code has it.  In the result of the API-route backtest the
    equity curve has one point per candle after the 50-candle warmup, and
    [totalTrades] is the number of closing trades tallied as won or lost,
    which is at most the number of SELL entries of the trade log (BUY
    entries are not counted); in the result of the store's backtest
    [totalTrades] is the length of the trade log. *)
Theorem backtest_result_counts :
  (forall sqrt candles rsiValues macdResult bollinger config,
     let r := runBacktest sqrt candles rsiValues macdResult bollinger config in
     length (Result.equityCurve r) = length candles - 50 /\
     Result.totalTrades r = Result.winningTrades r + Result.losingTrades r /\
     Result.totalTrades r <= length (filter isSell (Result.trades r)) /\
     length (filter isSell (Result.trades r)) <= length (Result.trades r))
  /\
  (forall sqrt data initialCapital rsiOversold rsiOverbought,
     let r := Store.runBacktest sqrt data initialCapital rsiOversold rsiOverbought in
     Store.totalTrades r = length (Store.resultTrades r)).
Proof.
  split.
  - intros sqrt candles rsiValues macdResult bollinger config r. subst r.
    unfold runBacktest, summarize. cbv zeta. simpl.
    split; [|split; [reflexivity|split]].
    + unfold finalState. rewrite closeRemaining_equityCurve.
      apply simulate_equityCurve.
    + apply finalState_talliesBounded.
    + apply filter_length_le.
  - intros sqrt data initialCapital rsiOversold rsiOverbought r. subst r.
    unfold Store.runBacktest. destruct (length data <? 50); reflexivity.
Qed.

(** C5 as stated fails: on 52 falling candles with the default
    configuration the handler logs a BUY (RSI oversold at index 50) and the
    SELL that closes it at the end of the series, and reports
    [totalTrades = 1] for a trade log of length 2. *)
Lemma totalTrades_is_not_trades_length :
  backtest sqrtApprox (Samples.falling 52) Samples.defaultConfig
  = Some (Samples.fallingRun Samples.defaultConfig) /\
  map type (Result.trades (Samples.fallingRun Samples.defaultConfig)) = [BUY; SELL] /\
  Result.totalTrades (Samples.fallingRun Samples.defaultConfig) = 1 /\
  length (Result.trades (Samples.fallingRun Samples.defaultConfig)) = 2 /\
  Result.totalTrades (Samples.fallingRun Samples.defaultConfig)
  <> length (Result.trades (Samples.fallingRun Samples.defaultConfig)).
Proof.
  split; [reflexivity|].
  assert (E : Result.totalTrades (Samples.fallingRun Samples.defaultConfig) = 1)
    by (vm_compute; reflexivity).
  assert (L : length (Result.trades (Samples.fallingRun Samples.defaultConfig)) = 2)
    by (vm_compute; reflexivity).
  split; [vm_compute; reflexivity|]. split; [exact E|]. split; [exact L|].
  rewrite E, L. discriminate.
Qed.

End RouteFacts.

(** ** The API-route backtester: the capital and the trade log *)

Module RouteConservation.
Import Num Arr NumFacts ArrFacts BacktestRoute.
Local Open Scope Q_scope.









Lemma Forall_closes_positive candles :
  forallb (fun c => ltb 0 (TA.close c)) candles = true ->
  Forall (fun c => 0 < TA.close c) candles.
Proof.
  intro H. apply Forall_forall. intros c Hc.
  apply ltb_lt. revert c Hc. apply forallb_forall. assumption.
Qed.


End RouteConservation.

(** ** No lookahead: the indicators of a prefix are a prefix of the indicators *)

Module Causality.
Import Num Arr NumFacts ArrFacts TechnicalAnalysis.
Local Open Scope nat_scope.

Lemma slice_firstn {A} (l : list A) k s e :
  e <= k -> slice (firstn k l) s e = slice l s e.
Proof.
  intro H. unfold slice. rewrite skipn_firstn_comm, firstn_firstn.
  f_equal. lia.
Qed.

Lemma nth_firstn_lt {A} (l : list A) k i d :
  i < k -> nth i (firstn k l) d = nth i l d.
Proof.
  intro H. rewrite nth_firstn. destruct (Nat.ltb_spec i k); [reflexivity|lia].
Qed.

Lemma get_firstn {A} (l : list (option A)) k i :
  i < k -> get (firstn k l) i = get l i.
Proof. apply nth_firstn_lt. Qed.

Section Prefix.
Variable k : nat.
Variable data : list number.
Hypothesis Hk : k <= length data.

Lemma length_prefix : length (firstn k data) = k.
Proof. apply firstn_length_le. assumption. Qed.

Lemma calculateSMA_firstn period :
  calculateSMA (firstn k data) period = firstn k (calculateSMA data period).
Proof.
  unfold calculateSMA. rewrite firstn_map, firstn_seq, length_prefix.
  rewrite Nat.min_l by assumption. apply map_ext_in. intros i Hi.
  apply in_seq in Hi. rewrite slice_firstn by lia. reflexivity.
Qed.

Lemma calculateStdDev_firstn sqrt period :
  calculateStdDev sqrt (firstn k data) period
  = firstn k (calculateStdDev sqrt data period).
Proof.
  unfold calculateStdDev. rewrite firstn_map, firstn_seq, length_prefix.
  rewrite Nat.min_l by assumption. apply map_ext_in. intros i Hi.
  apply in_seq in Hi. rewrite slice_firstn by lia. reflexivity.
Qed.

Lemma calculateEMA_firstn period :
  calculateEMA (firstn k data) period = firstn k (calculateEMA data period).
Proof.
  unfold calculateEMA. cbv zeta.
  rewrite forPush_firstn, firstn_seq, length_prefix.
  rewrite Nat.min_l by assumption. f_equal. apply forPush_ext.
  intros s i Hi. apply in_seq in Hi. unfold emaBody.
  destruct (Nat.ltb_spec (i + 1) period); [reflexivity|].
  destruct (Nat.eqb_spec (i + 1) period).
  - rewrite slice_firstn by lia. reflexivity.
  - rewrite nth_firstn_lt by lia. reflexivity.
Qed.

Lemma gainsOf_firstn : gainsOf (firstn k data) = firstn (k - 1) (gainsOf data).
Proof.
  unfold gainsOf. rewrite firstn_map, firstn_seq, length_prefix.
  rewrite Nat.min_l by lia. apply map_ext_in. intros i Hi.
  apply in_seq in Hi. rewrite !nth_firstn_lt by lia. reflexivity.
Qed.

Lemma lossesOf_firstn : lossesOf (firstn k data) = firstn (k - 1) (lossesOf data).
Proof.
  unfold lossesOf. rewrite firstn_map, firstn_seq, length_prefix.
  rewrite Nat.min_l by lia. apply map_ext_in. intros i Hi.
  apply in_seq in Hi. rewrite !nth_firstn_lt by lia. reflexivity.
Qed.

Lemma rsiAverages_firstn period i :
  period <= i < k ->
  rsiAverages (firstn k data) period i = rsiAverages data period i.
Proof.
  intro Hi. unfold rsiAverages. cbv zeta.
  rewrite gainsOf_firstn, lossesOf_firstn.
  destruct (Nat.eqb_spec i period).
  - rewrite !slice_firstn by lia. reflexivity.
  - rewrite !slice_firstn by lia. rewrite !nth_firstn_lt by lia. reflexivity.
Qed.

Lemma calculateRSI_firstn period :
  calculateRSI (firstn k data) period = firstn k (calculateRSI data period).
Proof.
  unfold calculateRSI. rewrite firstn_map, firstn_seq, length_prefix.
  rewrite Nat.min_l by assumption. apply map_ext_in. intros i Hi.
  apply in_seq in Hi. destruct (Nat.ltb_spec i period); [reflexivity|].
  rewrite rsiAverages_firstn by lia. reflexivity.
Qed.

End Prefix.

Lemma diffLine_firstn a b k n :
  k <= n -> diffLine (firstn k a) (firstn k b) k = firstn k (diffLine a b n).
Proof.
  intro Hk. unfold diffLine. rewrite firstn_map, firstn_seq.
  rewrite Nat.min_l by assumption. apply map_ext_in. intros i Hi.
  apply in_seq in Hi. rewrite !get_firstn by lia. reflexivity.
Qed.

Lemma diffLine_length a b n : length (diffLine a b n) = n.
Proof. unfold diffLine. rewrite length_map, length_seq. reflexivity. Qed.

Lemma calculateMACD_firstn k data :
  k <= length data ->
  macd (calculateMACD (firstn k data)) = firstn k (macd (calculateMACD data)) /\
  signal (calculateMACD (firstn k data)) = firstn k (signal (calculateMACD data)) /\
  histogram (calculateMACD (firstn k data))
  = firstn k (histogram (calculateMACD data)).
Proof.
  intro Hk. unfold calculateMACD. cbv zeta. simpl.
  rewrite !calculateEMA_firstn, length_prefix by assumption.
  rewrite (diffLine_firstn _ _ k (length data)) by assumption.
  rewrite <- firstn_map.
  rewrite calculateEMA_firstn by (rewrite length_map, diffLine_length; assumption).
  rewrite (diffLine_firstn _ _ k (length data)) by assumption.
  auto.
Qed.

Lemma calculateBollingerBands_firstn sqrt k data period mult :
  k <= length data ->
  lower (calculateBollingerBands sqrt (firstn k data) period mult)
  = firstn k (lower (calculateBollingerBands sqrt data period mult)).
Proof.
  intro Hk. unfold calculateBollingerBands. cbv zeta. simpl.
  rewrite calculateSMA_firstn, calculateStdDev_firstn, length_prefix by assumption.
  rewrite !firstn_map, firstn_seq, Nat.min_l by assumption.
  rewrite !map_map. apply map_ext_in. intros i Hi. apply in_seq in Hi.
  rewrite !get_firstn by lia. reflexivity.
Qed.

End Causality.

(** ** No lookahead in the backtests *)

Module NoLookahead.
Import Num Arr NumFacts ArrFacts.
Local Open Scope nat_scope.

Lemma fold_left_ext_in {A B} (f g : A -> B -> A) l :
  (forall a b, In b l -> f a b = g a b) ->
  forall a, fold_left f l a = fold_left g l a.
Proof.
  induction l as [|b l IH]; intros H a; simpl; [reflexivity|].
  rewrite (H a b (or_introl eq_refl)). apply IH.
  intros a' b' Hb. apply H. right. assumption.
Qed.

(** An iteration of the route's loop reads the candle and the indicator
    values at its own index and the histogram one index before. *)
Lemma route_step_firstn sqrt candles config k st i :
  k <= length candles -> i < k ->
  let closes := map TA.close candles in
  let closes' := map TA.close (firstn k candles) in
  BacktestRoute.step config (firstn k candles)
    (TA.calculateRSI closes' 14) (TA.calculateMACD closes')
    (TA.calculateBollingerBands sqrt closes' 20 2%Q) st i
  = BacktestRoute.step config candles
      (TA.calculateRSI closes 14) (TA.calculateMACD closes)
      (TA.calculateBollingerBands sqrt closes 20 2%Q) st i.
Proof.
  intros Hk Hi closes closes'. subst closes closes'.
  assert (Hk' : k <= length (map TA.close candles)) by (rewrite length_map; assumption).
  unfold BacktestRoute.step. rewrite <- !firstn_map.
  rewrite Causality.calculateRSI_firstn by assumption.
  destruct (Causality.calculateMACD_firstn k _ Hk') as [_ [_ ->]].
  rewrite Causality.calculateBollingerBands_firstn by assumption.
  rewrite !Causality.get_firstn by lia.
  rewrite Causality.nth_firstn_lt by lia.
  reflexivity.
Qed.

Lemma route_loopState_firstn sqrt candles config k upto :
  k <= length candles -> upto <= k ->
  BacktestRoute.loopState sqrt (firstn k candles) config upto
  = BacktestRoute.loopState sqrt candles config upto.
Proof.
  intros Hk Hu. unfold BacktestRoute.loopState, BacktestRoute.simulate. cbv zeta.
  apply fold_left_ext_in. intros st i Hi. apply in_seq in Hi.
  apply route_step_firstn; lia.
Qed.

Lemma store_step_firstn data rsiOversold rsiOverbought k st i :
  i < k ->
  Store.step (firstn k data) rsiOversold rsiOverbought st i
  = Store.step data rsiOversold rsiOverbought st i.
Proof.
  intro Hi. unfold Store.step.
  rewrite Causality.slice_firstn by lia.
  rewrite Causality.nth_firstn_lt by lia. reflexivity.
Qed.

Lemma store_simulate_firstn data initialCapital rsiOversold rsiOverbought k upto :
  upto <= k ->
  Store.simulate (firstn k data) initialCapital rsiOversold rsiOverbought upto
  = Store.simulate data initialCapital rsiOversold rsiOverbought upto.
Proof.
  intro Hu. unfold Store.simulate.
  apply fold_left_ext_in. intros st i Hi. apply in_seq in Hi.
  apply store_step_firstn. lia.
Qed.

(** C7.  For every candle series and every index [i >= 50] inside it, the
    backtest run on the first [i + 1] candles reaches the same state after
    the iteration at [i], and takes the same decision at [i] (the same
    trades, with the same type, price and quantity), as the run on the
    whole series; this holds for the API route, whose indicators are
    computed over the whole input first, and for the store's loop. *)
Theorem backtest_no_lookahead (i : nat) :
  (forall sqrt candles config,
     50 <= i < length candles ->
     BacktestRoute.loopState sqrt (firstn (S i) candles) config (S i)
     = BacktestRoute.loopState sqrt candles config (S i)
     /\
     BacktestRoute.decisionAt sqrt (firstn (S i) candles) config i
     = BacktestRoute.decisionAt sqrt candles config i)
  /\
  (forall data initialCapital rsiOversold rsiOverbought,
     50 <= i < length data ->
     Store.simulate (firstn (S i) data) initialCapital rsiOversold rsiOverbought (S i)
     = Store.simulate data initialCapital rsiOversold rsiOverbought (S i)
     /\
     Store.decisionAt (firstn (S i) data) initialCapital rsiOversold rsiOverbought i
     = Store.decisionAt data initialCapital rsiOversold rsiOverbought i).
Proof.
  split.
  - intros sqrt candles config Hi.
    unfold BacktestRoute.decisionAt.
    rewrite !(route_loopState_firstn sqrt candles config (S i)) by lia.
    split; reflexivity.
  - intros data initialCapital rsiOversold rsiOverbought Hi.
    unfold Store.decisionAt.
    rewrite !(store_simulate_firstn data initialCapital rsiOversold rsiOverbought (S i))
      by lia.
    split; reflexivity.
Qed.

(** The theorem on 52 falling candles at index 50, where the route buys:
    the run on the first 51 candles takes the same decision. *)
Lemma backtest_no_lookahead_witness :
  (50 <= 50 < length (Samples.falling 52)) /\
  (BacktestRoute.decisionAt sqrtApprox (firstn 51 (Samples.falling 52))
                            Samples.defaultConfig 50
   = BacktestRoute.decisionAt sqrtApprox (Samples.falling 52) Samples.defaultConfig 50)
  /\
  (map BacktestRoute.type
       (BacktestRoute.decisionAt sqrtApprox (Samples.falling 52) Samples.defaultConfig 50)
   = [BacktestRoute.BUY]).
Proof.
  assert (H : 50 <= 50 < length (Samples.falling 52))
    by (unfold Samples.falling; rewrite length_map, length_seq; lia).
  split; [exact H|]. split.
  - exact (proj2 (proj1 (backtest_no_lookahead 50) sqrtApprox (Samples.falling 52)
                        Samples.defaultConfig H)).
  - vm_compute. reflexivity.
Defined.

(** What the truncated run adds to the log afterwards is the closing of a
    position still open at the end of its series, which is not a decision
    of the loop: its log is the log of the full run up to index [i],
    followed at most by the "End of backtest" SELL. *)
Lemma truncated_run_log sqrt candles config i :
  50 <= i < length candles ->
  let closes' := map TA.close (firstn (S i) candles) in
  let log :=
    BacktestRoute.trades
      (BacktestRoute.finalState config (firstn (S i) candles)
         (TA.calculateRSI closes' 14) (TA.calculateMACD closes')
         (TA.calculateBollingerBands sqrt closes' 20 2%Q)) in
  let upToI := BacktestRoute.trades (BacktestRoute.loopState sqrt candles config (S i)) in
  log = upToI \/
  exists t, log = upToI ++ [t] /\
            BacktestRoute.type t = BacktestRoute.SELL /\
            BacktestRoute.reason t = "End of backtest"%string.
Proof.
  intros Hi closes' log upToI. subst log upToI closes'.
  rewrite <- (route_loopState_firstn sqrt candles config (S i) (S i)) by lia.
  unfold BacktestRoute.finalState, BacktestRoute.loopState. cbv zeta.
  rewrite (firstn_length_le candles) by lia.
  unfold BacktestRoute.closeRemaining.
  destruct (gtb _ _); [right|left; reflexivity].
  eexists. split; [reflexivity|]. split; reflexivity.
Qed.

End NoLookahead.

(** ** Sorting *)

Module SortFacts.
Import Num Arr NumFacts ArrFacts.
Local Open Scope Q_scope.

Section Sorting.
Context {A : Type} (cmp : A -> A -> number) (R : A -> A -> Prop).
Hypothesis R_first : forall x y, leb (cmp x y) 0 = true -> R x y.
Hypothesis R_second : forall x y, leb (cmp x y) 0 = false -> R y x.
Hypothesis R_trans : forall x y z, R x y -> R y z -> R x z.

Lemma insertSorted_In x y l : In y (insertSorted cmp x l) <-> y = x \/ In y l.
Proof.
  induction l as [|z l IH]; simpl.
  - intuition congruence.
  - destruct (leb (cmp x z) 0); simpl; [intuition congruence|].
    rewrite IH. intuition congruence.
Qed.

Lemma insertSorted_sorted x l :
  StronglySorted R l -> StronglySorted R (insertSorted cmp x l).
Proof.
  induction 1 as [|z l Hl IH Hz]; simpl.
  - constructor; constructor.
  - destruct (leb (cmp x z) 0) eqn:E.
    + constructor; [constructor; assumption|].
      constructor; [apply R_first; assumption|].
      revert Hz. apply Forall_impl. intros w Hw.
      eapply R_trans; [apply R_first|]; eassumption.
    + constructor; [assumption|].
      apply Forall_forall. intros w Hw. apply insertSorted_In in Hw.
      destruct Hw as [->|Hw]; [apply R_second; assumption|].
      revert w Hw. apply Forall_forall. assumption.
Qed.

Lemma sortBy_sorted l : StronglySorted R (sortBy cmp l).
Proof.
  induction l as [|x l IH]; simpl; [constructor|].
  apply insertSorted_sorted. assumption.
Qed.

End Sorting.

Lemma sortBy_In {A} (cmp : A -> A -> number) l y :
  In y (sortBy cmp l) <-> In y l.
Proof.
  induction l as [|x l IH]; simpl; [tauto|].
  rewrite insertSorted_In, IH. intuition congruence.
Qed.

Lemma insertSorted_last {A} (cmp : A -> A -> number) x l :
  Forall (fun y => leb (cmp x y) 0 = false) l -> insertSorted cmp x l = l ++ [x].
Proof.
  induction 1 as [|y l Hy _ IH]; simpl; [reflexivity|].
  rewrite Hy, IH. reflexivity.
Qed.

(** Sorting a list that the comparator already orders leaves it as it is. *)
Lemma sortBy_ordered {A} (cmp : A -> A -> number) l :
  StronglySorted (fun a b => leb (cmp a b) 0 = true) l -> sortBy cmp l = l.
Proof.
  induction 1 as [|x l Hl IH Hx]; simpl; [reflexivity|].
  rewrite IH. destruct l as [|y l]; [reflexivity|].
  simpl. inversion Hx as [|? ? Hy _]; subst. rewrite Hy. reflexivity.
Qed.

(** Sorting a list that the comparator orders the other way round reverses it. *)
Lemma sortBy_reversed {A} (cmp : A -> A -> number) l :
  StronglySorted (fun a b => leb (cmp a b) 0 = false) l -> sortBy cmp l = rev l.
Proof.
  induction 1 as [|x l Hl IH Hx]; simpl; [reflexivity|].
  rewrite IH. apply insertSorted_last.
  apply Forall_forall. intros y Hy. apply in_rev in Hy.
  revert y Hy. apply Forall_forall. assumption.
Qed.

Lemma StronglySorted_snoc {A} (R : A -> A -> Prop) l x :
  StronglySorted R l -> Forall (fun y => R y x) l -> StronglySorted R (l ++ [x]).
Proof.
  induction 1 as [|y l Hl IH Hy]; intro Hx; simpl.
  - constructor; constructor.
  - inversion Hx; subst. constructor; [apply IH; assumption|].
    apply Forall_app. split; [assumption|]. constructor; [assumption|constructor].
Qed.

Lemma StronglySorted_rev {A} (R : A -> A -> Prop) l :
  StronglySorted R l -> StronglySorted (fun a b => R b a) (rev l).
Proof.
  induction 1 as [|x l Hl IH Hx]; simpl; [constructor|].
  apply StronglySorted_snoc; [assumption|].
  apply Forall_forall. intros y Hy. apply in_rev in Hy.
  revert y Hy. apply Forall_forall. assumption.
Qed.

Lemma StronglySorted_impl {A} (R S : A -> A -> Prop) l :
  (forall a b, R a b -> S a b) -> StronglySorted R l -> StronglySorted S l.
Proof.
  intros H. induction 1 as [|x l Hl IH Hx]; constructor; [assumption|].
  revert Hx. apply Forall_impl. intro. apply H.
Qed.

End SortFacts.

(** ** Support and resistance: merged levels stay apart *)

Module LevelFacts.
Import Num Arr NumFacts ArrFacts SortFacts TechnicalAnalysis.
Local Open Scope Q_scope.

(** A level at price [m] is within the merge threshold of a candidate at
    price [q]. *)
Definition near (t m q : Q) : Prop := Qabs (m - q) / q < t.

Lemma LevelType_eqb_eq a b : LevelType_eqb a b = true <-> a = b.
Proof. destruct a, b; simpl; split; congruence. Qed.

Lemma isNearby_spec t level l :
  0 < price level ->
  (isNearby t level l = true
   <-> type l = type level /\ near t (price l) (price level)).
Proof.
  intro Hp. unfold isNearby, near, abs.
  assert (E : eqb (price level) 0 = false) by (apply eqb_neq; intro; lra).
  rewrite E. cbn [negb andb].
  rewrite andb_true_iff, LevelType_eqb_eq, ltb_lt, div_eq, sub_eq. tauto.
Qed.

Lemma near_below t m q :
  0 < q -> m <= q -> (near t m q <-> q - m < t * q).
Proof.
  intros Hq Hm. unfold near.
  assert (E : Qabs (m - q) == q - m).
  { rewrite Qabs_neg by lra. lra. }
  rewrite E. split; intro H.
  - apply (Qmult_lt_compat_r _ _ q) in H; [|assumption].
    assert (E' : (q - m) / q * q == q - m) by (field; lra).
    rewrite E' in H. assumption.
  - apply Qlt_shift_div_r; assumption.
Qed.

Section Merge.
Variable t : Q.
Hypothesis t_pos : 0 < t.

(** No later candidate (all are at [b] or above) can be near [m]. *)
Definition dead (m b : Q) : Prop := forall q, b <= q -> ~ near t m q.

Lemma dead_mono m b b' : b <= b' -> dead m b -> dead m b'.
Proof. intros Hb H q Hq. apply H. lra. Qed.

Lemma not_near_dead m q :
  0 < m -> m <= q -> ~ near t m q -> m < q /\ dead m q.
Proof.
  intros Hm Hmq Hn.
  assert (Hq : 0 < q) by lra.
  rewrite near_below in Hn by assumption.
  assert (H1 : t * q <= q - m) by lra.
  assert (Ht1 : 0 <= 1 - t) by nra.
  split; [nra|].
  intros q' Hq'. rewrite near_below by lra. nra.
Qed.

(** The invariant of the merge loop once every candidate below [b] has
    been folded in: the merged prices are positive and at most [b]; two
    merged levels of one type have increasing prices in the order of the
    array, and the earlier one can no longer be found. *)
Fixpoint apart (b : Q) (merged : list PriceLevel) : Prop :=
  match merged with
  | [] => True
  | M :: rest =>
      (0 < price M /\ price M <= b) /\
      Forall (fun N => type M = type N ->
                       price M < price N /\ dead (price M) b) rest /\
      apart b rest
  end.

Lemma apart_mono b b' merged : b <= b' -> apart b merged -> apart b' merged.
Proof.
  intro Hb. induction merged as [|M rest IH]; simpl; [trivial|].
  intros [[Hp Hle] [Hf Hr]]. split; [split; lra|]. split; [|apply IH; assumption].
  revert Hf. apply Forall_impl. intros N HN Ht. destruct (HN Ht) as [H1 H2].
  split; [assumption|]. eapply dead_mono; eassumption.
Qed.

Lemma touch_type nearby level : type (touch nearby level) = type nearby.
Proof. reflexivity. Qed.

Lemma touch_price nearby level :
  0 < price nearby -> price nearby <= price level ->
  price nearby <= price (touch nearby level) /\
  price (touch nearby level) <= price level.
Proof.
  intros Hp Hle. unfold touch. simpl.
  rewrite div_eq, !add_eq, mul_eq.
  pose proof (ofNat_nonneg (touches nearby)) as Hn.
  set (n := ofNat (touches nearby)) in *.
  split.
  - apply Qle_shift_div_l; [lra|]. nra.
  - apply Qle_shift_div_r; [lra|]. nra.
Qed.

(** The merged array after an update: same types, prices not lower. *)
Definition raised (merged merged' : list PriceLevel) : Prop :=
  Forall2 (fun N N' => type N' = type N /\ price N <= price N') merged merged'.

Lemma raised_refl merged : raised merged merged.
Proof.
  induction merged; constructor; [split; [reflexivity|lra]|assumption].
Qed.

Lemma raised_later M b b' rest rest' :
  b <= b' -> raised rest rest' ->
  Forall (fun N => type M = type N -> price M < price N /\ dead (price M) b) rest ->
  Forall (fun N => type M = type N -> price M < price N /\ dead (price M) b') rest'.
Proof.
  intros Hb Hr. induction Hr as [|N N' rest rest' [Hty Hpr] _ IH]; intro H.
  - constructor.
  - inversion H as [|? ? HN Hrest]; subst. constructor; [|apply IH; assumption].
    intro Ht. rewrite Hty in Ht. destruct (HN Ht) as [H1 H2].
    split; [lra|]. eapply dead_mono; eassumption.
Qed.

Lemma touchFirstNearby_apart level : forall merged b,
  apart b merged -> b <= price level -> 0 < price level ->
  match touchFirstNearby t level merged with
  | Some merged' => apart (price level) merged' /\ raised merged merged'
  | None => Forall (fun M => type M = type level ->
                             ~ near t (price M) (price level)) merged
  end.
Proof.
  induction merged as [|M rest IH]; intros b Hap Hb Hq; simpl.
  - constructor.
  - destruct Hap as [[Hp Hle] [Hf Hr]].
    destruct (isNearby t level M) eqn:E.
    + apply (isNearby_spec _ _ _ Hq) in E. destruct E as [Hty Hnear]. split.
      * cbn [apart]. destruct (touch_price M level) as [H1 H2]; [assumption|lra|].
        split; [split; lra|]. split; [|apply (apart_mono b); assumption].
        revert Hf. apply Forall_impl. intros N HN Ht.
        exfalso. destruct (HN Ht) as [_ Hdead]. apply (Hdead (price level)); assumption.
      * constructor; [|apply raised_refl].
        split; [reflexivity|]. apply touch_price; [assumption|lra].
    + specialize (IH b Hr Hb Hq).
      destruct (touchFirstNearby t level rest) as [rest'|]; simpl.
      * destruct IH as [Hap' Hra]. split.
        -- cbn [apart]. split; [split; lra|]. split; [|assumption].
           eapply raised_later; eassumption.
        -- constructor; [split; [reflexivity|lra]|assumption].
      * constructor; [|assumption].
        intros Hty Hnear.
        assert (isNearby t level M = true) by (apply (isNearby_spec _ _ _ Hq); auto).
        congruence.
Qed.

Lemma apart_snoc merged level :
  0 < price level ->
  apart (price level) merged ->
  Forall (fun M => type M = type level -> ~ near t (price M) (price level)) merged ->
  apart (price level) (merged ++ [level]).
Proof.
  intros Hq. induction merged as [|M rest IH]; simpl; intros Hap Hn.
  - split; [split; lra|]. split; [constructor|trivial].
  - destruct Hap as [[Hp Hle] [Hf Hr]]. inversion Hn as [|? ? HM Hrest]; subst.
    split; [split; assumption|]. split; [|apply IH; assumption].
    apply Forall_app. split; [assumption|].
    constructor; [|constructor].
    intro Hty. apply not_near_dead; auto.
Qed.

Lemma mergeStep_apart b merged level :
  apart b merged -> b <= price level -> 0 < price level ->
  apart (price level) (mergeStep t merged level).
Proof.
  intros Hap Hb Hq. unfold mergeStep.
  pose proof (touchFirstNearby_apart level merged b Hap Hb Hq) as H.
  destruct (touchFirstNearby t level merged) as [merged'|].
  - apply H.
  - apply apart_snoc; auto. apply (apart_mono b); assumption.
Qed.

Lemma fold_mergeStep_apart sortedLevels : forall b merged,
  StronglySorted (fun x y => price x <= price y) sortedLevels ->
  Forall (fun x => b <= price x /\ 0 < price x) sortedLevels ->
  apart b merged ->
  exists b', apart b' (fold_left (mergeStep t) sortedLevels merged).
Proof.
  induction sortedLevels as [|x l IH]; intros b merged Hs Hf Hap; simpl.
  - exists b. assumption.
  - inversion Hs as [|? ? Hsl Hx]; subst. inversion Hf as [|? ? [Hbx Hpx] Hfl]; subst.
    apply (IH (price x)); [assumption| |apply (mergeStep_apart b); assumption].
    apply Forall_forall. intros y Hy. split.
    + revert y Hy. apply Forall_forall. assumption.
    + revert Hfl. rewrite Forall_forall. intro Hfl. apply Hfl. assumption.
Qed.

Lemma apart_filter b merged ty :
  apart b merged ->
  StronglySorted (fun x y => price x < price y) (filter (isType ty) merged).
Proof.
  induction merged as [|M rest IH]; simpl; intro Hap; [constructor|].
  destruct Hap as [_ [Hf Hr]]. unfold isType at 1.
  destruct (LevelType_eqb (type M) ty) eqn:E; [|apply IH; assumption].
  apply LevelType_eqb_eq in E.
  constructor; [apply IH; assumption|].
  apply Forall_forall. intros N HN. apply filter_In in HN. destruct HN as [HN HtN].
  unfold isType in HtN. apply LevelType_eqb_eq in HtN.
  revert Hf. rewrite Forall_forall. intro Hf. apply Hf; [assumption|congruence].
Qed.

Lemma mergeLevels_apart levels :
  Forall (fun x => 0 < price x) levels ->
  exists b, apart b (mergeLevels t levels).
Proof.
  intro Hpos. unfold mergeLevels.
  apply (fold_mergeStep_apart _ 0).
  - apply (sortBy_sorted _ (fun x y => price x <= price y)).
    + intros x y H. apply leb_le in H. rewrite sub_eq in H. lra.
    + intros x y H. apply leb_gt in H. rewrite sub_eq in H. lra.
    + intros x y z. apply Qle_trans.
  - apply Forall_forall. intros x Hx. apply sortBy_In in Hx.
    revert Hpos. rewrite Forall_forall. intro Hpos. specialize (Hpos x Hx). lra.
  - exact I.
Qed.

End Merge.

Lemma localLevels_price recentCandles i x :
  In x (localLevels recentCandles i) ->
  price x = high (nth i recentCandles noCandle) \/
  price x = low (nth i recentCandles noCandle).
Proof.
  unfold localLevels. cbv zeta. intro H. apply in_app_or in H.
  destruct H as [H|H];
    match type of H with In _ (if ?c then _ else _) => destruct c end;
    simpl in H; try contradiction; destruct H as [<-|[]]; simpl; auto.
Qed.

Lemma sliceLast_In {A} (l : list A) k x : In x (sliceLast l k) -> In x l.
Proof.
  unfold sliceLast. destruct (k =? 0)%nat; [trivial|]. apply In_skipn.
Qed.

(** C8, as the code has it.  For every candle series with positive highs
    and lows, at every lookback and the default merge threshold 0.02, the
    supports returned by [findSupportResistance] are strictly descending
    by price and the resistances strictly ascending. *)
Theorem findSupportResistance_sorted
  (candles : list CandleData) (lookback : nat) :
  Forall (fun c => 0 < low c /\ 0 < high c) candles ->
  StronglySorted (fun a b => price b < price a)
                 (supports (findSupportResistance candles lookback (2 # 100))) /\
  StronglySorted (fun a b => price a < price b)
                 (resistances (findSupportResistance candles lookback (2 # 100))).
Proof.
  intro Hc. assert (Ht : 0 < 2 # 100) by reflexivity.
  revert Ht. generalize (2 # 100). intros threshold Ht.
  unfold findSupportResistance.
  destruct (length candles <? 10)%nat; [split; constructor|].
  cbv zeta. cbn [supports resistances].
  set (recentCandles := sliceLast candles lookback).
  set (levels := flat_map (localLevels recentCandles)
                          (seq 2 (length recentCandles - 4))).
  assert (Hpos : Forall (fun x => 0 < price x) levels).
  { apply Forall_forall. intros x Hx. apply in_flat_map in Hx.
    destruct Hx as [i [Hi Hx]]. apply in_seq in Hi.
    assert (Hin : In (nth i recentCandles noCandle) candles).
    { apply (sliceLast_In _ lookback). apply nth_In. fold recentCandles. lia. }
    revert Hc. rewrite Forall_forall. intro Hc. specialize (Hc _ Hin).
    apply localLevels_price in Hx. destruct Hx as [-> | ->]; tauto. }
  destruct (mergeLevels_apart threshold Ht levels Hpos) as [b Hap].
  split.
  - rewrite sortBy_reversed.
    + apply StronglySorted_rev.
      apply (apart_filter threshold b _ support Hap).
    + eapply StronglySorted_impl; [|apply (apart_filter threshold b _ support Hap)].
      intros x y H. apply leb_gt. cbv beta in *. rewrite sub_eq. lra.
  - rewrite sortBy_ordered.
    + apply (apart_filter threshold b _ resistance Hap).
    + eapply StronglySorted_impl; [|apply (apart_filter threshold b _ resistance Hap)].
      intros x y H. apply leb_le. cbv beta in *. rewrite sub_eq. lra.
Qed.

Lemma Forall_positive candles :
  forallb (fun c => ltb 0 (low c) && ltb 0 (high c)) candles = true ->
  Forall (fun c => 0 < low c /\ 0 < high c) candles.
Proof.
  intro H. apply Forall_forall. intros c Hc.
  assert (E : ltb 0 (low c) && ltb 0 (high c) = true).
  { revert c Hc. apply forallb_forall. assumption. }
  apply andb_true_iff in E. rewrite !ltb_lt in E. assumption.
Qed.

(** The theorem on a zigzag series with two support and two resistance
    levels (one of them touched twice), at the default lookback and
    threshold. *)
Lemma findSupportResistance_sorted_witness :
  Forall (fun c => 0 < low c /\ 0 < high c) Samples.zigzag /\
  map price (supports (findSupportResistance Samples.zigzag 100 (2 # 100))) = [18; 16] /\
  map price (resistances (findSupportResistance Samples.zigzag 100 (2 # 100)))
  = [23; 25] /\
  StronglySorted (fun a b => price b < price a)
                 (supports (findSupportResistance Samples.zigzag 100 (2 # 100))).
Proof.
  assert (Hc : Forall (fun c => 0 < low c /\ 0 < high c) Samples.zigzag)
    by (apply Forall_positive; vm_compute; reflexivity).
  split; [exact Hc|].
  split; [vm_compute; reflexivity|]. split; [vm_compute; reflexivity|].
  exact (proj1 (findSupportResistance_sorted Samples.zigzag 100 Hc)).
Defined.

(** C8 as stated fails on a series that touches price 0: two local lows
    at 0 are never merged, the quotient of the nearness test being 0/0, so
    both are returned and the supports are [0; 0], not strictly
    descending. *)
Lemma supports_not_strict_at_price_zero :
  (10 <= length Samples.zeroLows)%nat /\
  map price (supports (findSupportResistance Samples.zeroLows 100 (2 # 100))) = [0; 0] /\
  ~ StronglySorted (fun a b => price b < price a)
      (supports (findSupportResistance Samples.zeroLows 100 (2 # 100))).
Proof.
  split; [vm_compute; lia|]. split; [vm_compute; reflexivity|].
  assert (E : supports (findSupportResistance Samples.zeroLows 100 (2 # 100))
              = [mkLevel 0 support 1 1 0; mkLevel 0 support 1 1 0])
    by (vm_compute; reflexivity).
  rewrite E. intro H.
  inversion H as [|? ? _ Hall]. inversion Hall as [|? ? Hlt _].
  simpl in Hlt. lra.
Qed.

End LevelFacts.

(** * Further properties of the indicator code *)

(** ** The store's single moving-average values *)

Module AverageFacts.
Import Num Arr NumFacts ArrFacts TechnicalAnalysis.
Local Open Scope Q_scope.

Lemma sum_from l : forall a, fold_left add l a == a + sum l.
Proof.
  unfold sum. induction l as [|x l IH]; intro a; simpl.
  - lra.
  - rewrite (IH (add a x)), (IH (add 0 x)), !add_eq. lra.
Qed.

Lemma sum_cons x l : sum (x :: l) == x + sum l.
Proof. unfold sum at 1. simpl. rewrite sum_from, add_eq. lra. Qed.

Lemma ofNat_S k : ofNat (S k) == ofNat k + 1.
Proof.
  unfold ofNat. rewrite Nat2Z.inj_succ. unfold Z.succ.
  rewrite inject_Z_plus. reflexivity.
Qed.

(** *** The store's single values are the last values of the arrays *)

Lemma ema_state_before_seed data period m j :
  (j < period)%nat ->
  fst (forPush (emaBody data period m) (seq 0 j) None) = None.
Proof.
  induction j as [|j IH]; intro Hj; [reflexivity|].
  rewrite seq_S, forPush_app. specialize (IH ltac:(lia)).
  destruct (forPush (emaBody data period m) (seq 0 j) None) as [s o].
  simpl in IH. subst s. simpl. unfold emaBody.
  destruct (Nat.ltb_spec (j + 1) period); [reflexivity|lia].
Qed.

(** The EMA the loop carries after the index [period + k - 1]. *)
Definition emaAfter (data : list number) (period : nat) (m : number) (k : nat)
  : number :=
  fold_left (fun ema i => add (mul (sub (nth i data 0) ema) m) ema)
            (seq period k)
            (div (sum (slice data 0 period)) (ofNat period)).

Lemma emaBody_seed data period m s i :
  (i + 1 = period)%nat ->
  emaBody data period m s i
  = (Some (div (sum (slice data 0 period)) (ofNat period)),
     Some (div (sum (slice data 0 period)) (ofNat period))).
Proof.
  intro H. unfold emaBody.
  destruct (Nat.ltb_spec (i + 1) period); [lia|].
  destruct (Nat.eqb_spec (i + 1) period); [reflexivity|lia].
Qed.

Lemma emaBody_next data period m e i :
  (period < i + 1)%nat ->
  emaBody data period m (Some e) i
  = (Some (add (mul (sub (nth i data 0) e) m) e),
     Some (add (mul (sub (nth i data 0) e) m) e)).
Proof.
  intro H. unfold emaBody.
  destruct (Nat.ltb_spec (i + 1) period); [lia|].
  destruct (Nat.eqb_spec (i + 1) period); [lia|reflexivity].
Qed.

Lemma ema_run data period m k :
  (1 <= period)%nat ->
  fst (forPush (emaBody data period m) (seq 0 (period + k)) None)
  = Some (emaAfter data period m k) /\
  nth (period + k - 1) (snd (forPush (emaBody data period m) (seq 0 (period + k)) None))
      None
  = Some (emaAfter data period m k).
Proof.
  intro Hp. induction k as [|k IH].
  - rewrite Nat.add_0_r. destruct period as [|p]; [lia|].
    rewrite seq_S, forPush_app.
    pose proof (ema_state_before_seed data (S p) m p ltac:(lia)) as Hs.
    pose proof (forPush_length (emaBody data (S p) m) (seq 0 p) None) as Hl.
    destruct (forPush (emaBody data (S p) m) (seq 0 p) None) as [s o].
    simpl in Hs, Hl. subst s. rewrite length_seq in Hl.
    cbn [forPush Nat.add]. rewrite emaBody_seed by lia.
    cbn [fst snd]. split; [reflexivity|].
    replace (S p - 1)%nat with (length o) by lia. apply nth_middle.
  - replace (period + S k)%nat with (S (period + k)) by lia.
    rewrite seq_S, forPush_app. destruct IH as [IH _].
    pose proof (forPush_length (emaBody data period m) (seq 0 (period + k)) None) as Hl.
    destruct (forPush (emaBody data period m) (seq 0 (period + k)) None) as [s o].
    simpl in IH, Hl. subst s. rewrite length_seq in Hl.
    cbn [forPush Nat.add]. rewrite emaBody_next by lia.
    cbn [fst snd].
    assert (E : emaAfter data period m (S k)
                = add (mul (sub (nth (period + k) data 0) (emaAfter data period m k)) m)
                      (emaAfter data period m k)).
    { unfold emaAfter. rewrite seq_S, fold_left_app. reflexivity. }
    rewrite E. split; [reflexivity|].
    replace (S (period + k) - 1)%nat with (length o) by lia. apply nth_middle.
Qed.

Lemma nth_repeat_None {A} n i : nth i (repeat (@None A) n) None = None.
Proof.
  revert i. induction n as [|n IH]; intros [|i]; simpl; auto.
Qed.

(** X2.  For a period of at least 1, the single values returned by the
    store's [calculateSMA] and [calculateEMA] are the last entries of the
    arrays of the technical-analysis module, null included. *)
Theorem store_averages_are_last_of_arrays (data : list number) (period : nat) :
  (1 <= period)%nat ->
  Store.calculateSMA data period = get (calculateSMA data period) (length data - 1) /\
  Store.calculateEMA data period = get (calculateEMA data period) (length data - 1).
Proof.
  intro Hp. unfold Store.calculateSMA, Store.calculateEMA, Store.noneWhenShort, get.
  cbv zeta.
  destruct (Nat.ltb_spec (length data) period) as [Hs|Hl].
  - pose proof (SeriesFacts.calculateSMA_prefix data period) as H1.
    pose proof (SeriesFacts.calculateEMA_prefix data period) as H2.
    rewrite firstn_all2 in H1 by (rewrite SeriesFacts.calculateSMA_length; lia).
    rewrite firstn_all2 in H2 by (rewrite SeriesFacts.calculateEMA_length; lia).
    rewrite H1, H2, !nth_repeat_None. split; reflexivity.
  - split.
    + symmetry. apply nth_error_nth. unfold calculateSMA.
      rewrite nth_error_map, nth_error_seq.
      destruct (Nat.ltb_spec (length data - 1) (length data)); [|lia].
      cbn [option_map Nat.add].
      destruct (Nat.ltb_spec (length data - 1 + 1) period); [lia|].
      f_equal. f_equal. f_equal. unfold sliceLast, slice.
      destruct (Nat.eqb_spec period 0); [lia|].
      replace (length data - 1 + 1 - period)%nat with (length data - period)%nat by lia.
      f_equal. apply firstn_all2. rewrite length_skipn. lia.
    + unfold calculateEMA. cbv zeta.
      destruct (ema_run data period (div 2 (add (ofNat period) 1))
                        (length data - period) Hp) as [_ H].
      replace (period + (length data - period))%nat with (length data) in H by lia.
      rewrite H. reflexivity.
Qed.

(** The theorem on 1, 2, 3, 4, 5 with period 3: both last values are 4. *)
Lemma store_averages_are_last_of_arrays_witness :
  (1 <= 3)%nat /\
  Store.calculateEMA [1; 2; 3; 4; 5] 3 = get (calculateEMA [1; 2; 3; 4; 5] 3) 4 /\
  Store.calculateEMA [1; 2; 3; 4; 5] 3 = Some 4.
Proof.
  assert (H : (1 <= 3)%nat) by lia.
  split; [exact H|]. split.
  - exact (proj2 (store_averages_are_last_of_arrays [1; 2; 3; 4; 5] 3 H)).
  - vm_compute. reflexivity.
Defined.

End AverageFacts.

(** ** Bollinger bands, the MACD arrays and the signal helpers *)

Module IndicatorFacts.
Import Num Arr NumFacts ArrFacts TechnicalAnalysis.
Local Open Scope Q_scope.

Ltac js_norm :=
  repeat (rewrite add_eq || rewrite sub_eq || rewrite mul_eq || rewrite div_eq).

Lemma get_map_seq {A} (f : nat -> option A) n i :
  (i < n)%nat -> get (map f (seq 0 n)) i = f i.
Proof.
  intro H. unfold get. apply nth_error_nth.
  rewrite nth_error_map, nth_error_seq.
  destruct (Nat.ltb_spec i n); [reflexivity|lia].
Qed.

Lemma get_map {A B} (f : A -> option B) (l : list A) (d : A) i :
  (i < length l)%nat -> get (map f l) i = f (nth i l d).
Proof.
  intro H. unfold get. apply nth_error_nth.
  rewrite nth_error_map, (nth_error_nth' l d H). reflexivity.
Qed.

(** *** Bollinger bands *)

(** X3.  For a period of at least 1 (at period 0 the averages of the code
    are quotients by 0), when the square root is never negative and the
    multiplier is not negative, at every index of the series the bands are
    null together with the middle band, which is null exactly below index
    [period - 1], and otherwise [lower <= middle <= upper]; the width is
    null exactly when the middle band is null or 0, and otherwise it is
    [(upper - lower) / middle]. *)
Theorem bollinger_bands_contain_middle
  (sqrt : number -> number) (closes : list number) (period : nat)
  (stdDevMultiplier : number) (i : nat) :
  (1 <= period)%nat ->
  (forall x, 0 <= sqrt x) -> 0 <= stdDevMultiplier ->
  (i < length closes)%nat ->
  let b := calculateBollingerBands sqrt closes period stdDevMultiplier in
  match get (middle b) i with
  | None => (i + 1 < period)%nat /\
            get (upper b) i = None /\ get (lower b) i = None /\ get (width b) i = None
  | Some m =>
      (period <= i + 1)%nat /\
      exists u l,
        get (upper b) i = Some u /\ get (lower b) i = Some l /\
        l <= m /\ m <= u /\
        (m == 0 -> get (width b) i = None) /\
        (~ m == 0 -> exists w, get (width b) i = Some w /\ w == (u - l) / m)
  end.
Proof.
  intros _ Hsqrt Hmult Hi b. subst b.
  unfold calculateBollingerBands. cbv zeta. cbn [middle upper lower width].
  rewrite !map_map.
  rewrite !(get_map_seq _ (length closes) i Hi).
  unfold calculateSMA, calculateStdDev.
  rewrite !(get_map_seq _ (length closes) i Hi).
  destruct (Nat.ltb_spec (i + 1) period) as [Hlt|Hge]; cbn [bandsAt fst snd].
  - auto.
  - split; [assumption|].
    set (m := div (sum (slice closes (i + 1 - period) (i + 1))) (ofNat period)).
    match goal with |- context [sqrt ?v] => set (sd := sqrt v); pose proof (Hsqrt v) as Hsd end.
    fold sd in Hsd.
    assert (Hprod : 0 <= stdDevMultiplier * sd) by (apply Qmult_le_0_compat; assumption).
    eexists. eexists. split; [reflexivity|]. split; [reflexivity|].
    split; [js_norm; lra|]. split; [js_norm; lra|].
    destruct (eqb m 0) eqn:E.
    + apply eqb_eq in E. split; [reflexivity|]. intro Hn. contradiction.
    + apply eqb_neq in E. split; [intro; contradiction|].
      intros _. eexists. split; [reflexivity|]. rewrite div_eq, sub_eq. reflexivity.
Qed.

Lemma sqrtApprox_nonneg x : 0 <= sqrtApprox x.
Proof.
  unfold sqrtApprox. rewrite Qred_correct. unfold Qle. simpl.
  rewrite Z.mul_1_r. apply Z.sqrt_nonneg.
Qed.

(** The theorem on 1, 2, 3, 4 with period 2 at index 3, where the bands are
    5/2 and 9/2 around the middle 7/2. *)
Lemma bollinger_bands_contain_middle_witness :
  (1 <= 2)%nat /\
  (forall x, 0 <= sqrtApprox x) /\ 0 <= 2 /\ (3 < length [1; 2; 3; 4])%nat /\
  get (lower (calculateBollingerBands sqrtApprox [1; 2; 3; 4] 2 2)) 3 = Some (5 # 2) /\
  get (upper (calculateBollingerBands sqrtApprox [1; 2; 3; 4] 2 2)) 3 = Some (9 # 2) /\
  match get (middle (calculateBollingerBands sqrtApprox [1; 2; 3; 4] 2 2)) 3 with
  | None => False
  | Some m =>
      exists u l,
        get (upper (calculateBollingerBands sqrtApprox [1; 2; 3; 4] 2 2)) 3 = Some u /\
        get (lower (calculateBollingerBands sqrtApprox [1; 2; 3; 4] 2 2)) 3 = Some l /\
        l <= m /\ m <= u
  end.
Proof.
  assert (H0 : (1 <= 2)%nat) by lia.
  assert (H1 : forall x, 0 <= sqrtApprox x) by exact sqrtApprox_nonneg.
  assert (H2 : 0 <= 2) by lra.
  assert (H3 : (3 < length [1; 2; 3; 4])%nat) by (simpl; lia).
  split; [exact H0|]. split; [exact H1|]. split; [exact H2|]. split; [exact H3|].
  split; [vm_compute; reflexivity|]. split; [vm_compute; reflexivity|].
  pose proof (bollinger_bands_contain_middle sqrtApprox [1; 2; 3; 4] 2 2 3
                H0 H1 H2 H3) as H.
  cbv zeta in H.
  destruct (get (middle (calculateBollingerBands sqrtApprox [1; 2; 3; 4] 2 2)) 3).
  - destruct H as [_ [u [l [Hu [Hl [Hlm [Hmu _]]]]]]]. exists u, l. auto.
  - destruct H as [H _]. simpl in H. lia.
Defined.

(** *** The MACD arrays *)

Lemma forPush_nth {S A} (body : S -> nat -> S * A) idx : forall s j d,
  (j < length idx)%nat ->
  exists s', nth j (snd (forPush body idx s)) d = snd (body s' (nth j idx 0%nat)).
Proof.
  induction idx as [|i idx IH]; intros s j d Hj; simpl in Hj; [lia|].
  simpl. destruct (body s i) as [s1 a] eqn:E.
  specialize (IH s1). destruct (forPush body idx s1) as [s2 out] eqn:E2.
  destruct j as [|j]; simpl.
  - exists s. rewrite E. reflexivity.
  - destruct (IH j d ltac:(lia)) as [s' Hs']. exists s'. exact Hs'.
Qed.

Lemma calculateEMA_null_at data period i :
  (i < length data)%nat ->
  (get (calculateEMA data period) i = None <-> (i + 1 < period)%nat).
Proof.
  intro Hi. unfold calculateEMA, get. cbv zeta.
  destruct (forPush_nth (emaBody data period (div 2 (add (ofNat period) 1)))
              (seq 0 (length data)) None i None) as [s' Hs'].
  { rewrite length_seq. assumption. }
  rewrite Hs', seq_nth by assumption. apply SeriesFacts.emaBody_null.
Qed.

Lemma diffLine_null_at a b n i :
  (i < n)%nat ->
  (get (diffLine a b n) i = None <-> get a i = None \/ get b i = None).
Proof.
  intro Hi. unfold diffLine. rewrite (get_map_seq _ n i Hi).
  destruct (get a i), (get b i); split; intro H; try discriminate; auto;
    destruct H; discriminate.
Qed.

(** X4.  The three arrays of [calculateMACD] have the length of the series;
    the MACD line and the histogram are null exactly at the indices below
    25, and the signal line exactly at the indices below 8. *)
Theorem calculateMACD_shape (closes : list number) :
  let r := calculateMACD closes in
  length (macd r) = length closes /\
  length (signal r) = length closes /\
  length (histogram r) = length closes /\
  forall i, (i < length closes)%nat ->
    (get (macd r) i = None <-> (i < 25)%nat) /\
    (get (signal r) i = None <-> (i < 8)%nat) /\
    (get (histogram r) i = None <-> (i < 25)%nat).
Proof.
  unfold calculateMACD. cbv zeta. cbn [macd signal histogram].
  assert (Hl : forall a b n, length (diffLine a b n) = n)
    by (intros; unfold diffLine; rewrite length_map, length_seq; reflexivity).
  split; [apply Hl|]. split.
  { rewrite SeriesFacts.calculateEMA_length, length_map. apply Hl. }
  split; [apply Hl|].
  intros i Hi.
  assert (Hm : get (diffLine (calculateEMA closes 12) (calculateEMA closes 26)
                             (length closes)) i = None <-> (i < 25)%nat).
  { rewrite diffLine_null_at by assumption.
    rewrite !calculateEMA_null_at by assumption. lia. }
  assert (Hs : get (calculateEMA
                      (map orZero (diffLine (calculateEMA closes 12)
                                            (calculateEMA closes 26) (length closes))) 9) i
               = None <-> (i < 8)%nat).
  { rewrite calculateEMA_null_at by (rewrite length_map, Hl; assumption). lia. }
  split; [exact Hm|]. split; [exact Hs|].
  rewrite diffLine_null_at by assumption. rewrite Hm, Hs. lia.
Qed.

(** *** Signal helpers *)

(** X5.  The RSI strength is between -5 and 5 and never increases with the
    RSI: a lower RSI never gets a weaker buy strength. *)
Theorem getRSISignal_monotone (rsi rsi' : number) :
  rsi <= rsi' ->
  (snd (getRSISignal rsi') <= snd (getRSISignal rsi))%Z /\
  (-5 <= snd (getRSISignal rsi) <= 5)%Z.
Proof.
  intro H. unfold getRSISignal, geb.
  repeat match goal with
         | |- context [leb ?a ?b] =>
             let E := fresh "E" in
             destruct (leb a b) eqn:E; [apply leb_le in E|apply leb_gt in E]
         end; simpl; split; try lia; exfalso; lra.
Qed.

Lemma getRSISignal_monotone_witness :
  25 <= 65 /\
  (snd (getRSISignal 65%Q) <= snd (getRSISignal 25%Q))%Z /\
  snd (getRSISignal 25) = 4%Z /\ snd (getRSISignal 65) = (-2)%Z.
Proof.
  assert (H : 25 <= 65) by lra.
  split; [exact H|]. split; [exact (proj1 (getRSISignal_monotone 25 65 H))|].
  split; reflexivity.
Defined.

End IndicatorFacts.

(** ** Support and resistance: touches, strength and the nearest levels *)

Module LevelCounts.
Import Num Arr NumFacts ArrFacts SortFacts TechnicalAnalysis.
Local Open Scope nat_scope.

(** What the type comment of [PriceLevel] promises of a level. *)
Definition counted (l : PriceLevel) : Prop :=
  1 <= touches l /\ strength l = Nat.min 5 (touches l).

Lemma localLevels_raw recentCandles i x :
  In x (localLevels recentCandles i) -> touches x = 1 /\ strength x = 1.
Proof.
  unfold localLevels. cbv zeta. intro H. apply in_app_or in H.
  destruct H as [H|H];
    match type of H with In _ (if ?c then _ else _) => destruct c end;
    simpl in H; try contradiction; destruct H as [<-|[]]; simpl; auto.
Qed.

Lemma touchFirstNearby_Forall (P : PriceLevel -> Prop) t level : forall merged merged',
  (forall l, P l -> P (touch l level)) ->
  Forall P merged ->
  touchFirstNearby t level merged = Some merged' -> Forall P merged'.
Proof.
  induction merged as [|M rest IH]; intros merged' Ht Hf H; simpl in H; [discriminate|].
  inversion Hf; subst.
  destruct (isNearby t level M).
  - injection H as <-. constructor; auto.
  - destruct (touchFirstNearby t level rest) as [rest'|]; [|discriminate].
    injection H as <-. constructor; [assumption|]. eapply IH; eauto.
Qed.

Lemma mergeStep_Forall (P : PriceLevel -> Prop) t merged level :
  (forall l, P l -> P (touch l level)) -> P level ->
  Forall P merged -> Forall P (mergeStep t merged level).
Proof.
  intros Ht Hl Hf. unfold mergeStep.
  destruct (touchFirstNearby t level merged) as [merged'|] eqn:E.
  - eapply touchFirstNearby_Forall; eauto.
  - apply Forall_app. split; [assumption|]. constructor; [assumption|constructor].
Qed.

Lemma sortBy_Forall {A} (P : A -> Prop) cmp l :
  Forall P l -> Forall P (sortBy cmp l).
Proof.
  rewrite !Forall_forall. intros H x Hx. apply H. apply sortBy_In in Hx. assumption.
Qed.

Lemma mergeLevels_Forall (P : PriceLevel -> Prop) t levels :
  (forall l level, P l -> P (touch l level)) ->
  Forall P levels -> Forall P (mergeLevels t levels).
Proof.
  intros Ht Hf. unfold mergeLevels.
  apply (sortBy_Forall P (fun a b => sub (price a) (price b))) in Hf.
  revert Hf. generalize (sortBy (fun a b => sub (price a) (price b)) levels).
  assert (H0 : Forall P []) by constructor. revert H0. generalize (@nil PriceLevel).
  intros merged Hm l. revert merged Hm.
  induction l as [|x l IH]; intros merged Hm Hl; simpl; [assumption|].
  inversion Hl; subst. apply IH; [|assumption].
  apply mergeStep_Forall; auto.
Qed.

Lemma touch_counted l level : counted l -> counted (touch l level).
Proof. unfold counted, touch. simpl. intros [H1 H2]. split; lia. Qed.

Lemma rawLevels_counted recentCandles idx :
  Forall counted (flat_map (localLevels recentCandles) idx).
Proof.
  apply Forall_forall. intros x Hx. apply in_flat_map in Hx.
  destruct Hx as [i [_ Hx]]. apply localLevels_raw in Hx.
  destruct Hx as [H1 H2]. unfold counted. rewrite H1, H2. simpl. lia.
Qed.

Lemma findSupportResistance_counted candles lookback threshold :
  Forall counted (supports (findSupportResistance candles lookback threshold)) /\
  Forall counted (resistances (findSupportResistance candles lookback threshold)).
Proof.
  unfold findSupportResistance.
  destruct (length candles <? 10); [split; constructor|]. cbv zeta.
  cbn [supports resistances].
  split; apply sortBy_Forall, Forall_forall; intros x Hx;
    apply filter_In in Hx; destruct Hx as [Hx _]; revert x Hx;
    apply Forall_forall, mergeLevels_Forall;
    auto using touch_counted, rawLevels_counted.
Qed.

(** X7.  Every level [findSupportResistance] returns has been touched at
    least once and has the strength [min(5, touches)], between 1 and 5;
    the supports are all of type support and the resistances of type
    resistance; on fewer than 10 candles there is no level at all. *)
Theorem findSupportResistance_levels_counted
  (candles : list CandleData) (lookback : nat) (threshold : number) :
  let r := findSupportResistance candles lookback threshold in
  Forall (fun l => type l = support /\ 1 <= touches l /\
                   strength l = Nat.min 5 (touches l) /\ 1 <= strength l <= 5)
         (supports r) /\
  Forall (fun l => type l = resistance /\ 1 <= touches l /\
                   strength l = Nat.min 5 (touches l) /\ 1 <= strength l <= 5)
         (resistances r) /\
  (length candles < 10 -> supports r = [] /\ resistances r = []).
Proof.
  intro r. subst r.
  destruct (findSupportResistance_counted candles lookback threshold) as [Hs Hr].
  split; [|split].
  - apply Forall_forall. intros l Hl.
    assert (Hc : counted l) by (revert l Hl; apply Forall_forall; exact Hs).
    destruct Hc as [H1 H2]. split; [|split; [assumption|split; [assumption|lia]]].
    unfold findSupportResistance in Hl.
    destruct (length candles <? 10); [contradiction|]. cbv zeta in Hl.
    cbn [supports] in Hl. apply sortBy_In, filter_In in Hl. destruct Hl as [_ Hl].
    unfold isType in Hl. destruct (type l); [reflexivity|discriminate].
  - apply Forall_forall. intros l Hl.
    assert (Hc : counted l) by (revert l Hl; apply Forall_forall; exact Hr).
    destruct Hc as [H1 H2]. split; [|split; [assumption|split; [assumption|lia]]].
    unfold findSupportResistance in Hl.
    destruct (length candles <? 10); [contradiction|]. cbv zeta in Hl.
    cbn [resistances] in Hl. apply sortBy_In, filter_In in Hl. destruct Hl as [_ Hl].
    unfold isType in Hl. destruct (type l); [discriminate|reflexivity].
  - intro H. unfold findSupportResistance.
    destruct (Nat.ltb_spec (length candles) 10); [split; reflexivity|lia].
Qed.

(** *** Every local extremum is counted once *)

Definition touchesOf (ty : LevelType) (levels : list PriceLevel) : nat :=
  list_sum (map touches (filter (isType ty) levels)).

Lemma touchesOf_app ty l1 l2 :
  touchesOf ty (l1 ++ l2) = touchesOf ty l1 + touchesOf ty l2.
Proof. unfold touchesOf. rewrite filter_app, map_app, list_sum_app. reflexivity. Qed.

Lemma touchesOf_cons ty x l :
  touchesOf ty (x :: l) = (if isType ty x then touches x else 0) + touchesOf ty l.
Proof. unfold touchesOf. simpl. destruct (isType ty x); reflexivity. Qed.

Lemma isNearby_type t level l : isNearby t level l = true -> type l = type level.
Proof.
  unfold isNearby. intro H. apply andb_true_iff in H. destruct H as [H _].
  destruct (type l), (type level); simpl in H; congruence.
Qed.

Lemma touchFirstNearby_touches ty t level : forall merged merged',
  touchFirstNearby t level merged = Some merged' ->
  touchesOf ty merged' = touchesOf ty merged + (if isType ty level then 1 else 0).
Proof.
  induction merged as [|M rest IH]; intros merged' H; simpl in H; [discriminate|].
  destruct (isNearby t level M) eqn:E.
  - injection H as <-. apply isNearby_type in E.
    rewrite !touchesOf_cons. unfold isType, touch. simpl. rewrite E.
    destruct (LevelType_eqb (type level) ty); lia.
  - destruct (touchFirstNearby t level rest) as [rest'|]; [|discriminate].
    injection H as <-. rewrite !touchesOf_cons, (IH rest' eq_refl). lia.
Qed.

Lemma mergeStep_touches ty t merged level :
  touches level = 1 ->
  touchesOf ty (mergeStep t merged level)
  = touchesOf ty merged + (if isType ty level then 1 else 0).
Proof.
  intro H1. unfold mergeStep.
  destruct (touchFirstNearby t level merged) as [merged'|] eqn:E.
  - eapply touchFirstNearby_touches. eassumption.
  - rewrite touchesOf_app, touchesOf_cons, H1. change (touchesOf ty []) with 0.
    destruct (isType ty level); lia.
Qed.

Lemma fold_mergeStep_touches ty t l : forall merged,
  Forall (fun x => touches x = 1) l ->
  touchesOf ty (fold_left (mergeStep t) l merged)
  = touchesOf ty merged + length (filter (isType ty) l).
Proof.
  induction l as [|x l IH]; intros merged Hl; simpl; [lia|].
  inversion Hl; subst. rewrite IH by assumption.
  rewrite mergeStep_touches by assumption.
  destruct (isType ty x); simpl; lia.
Qed.

Lemma insertSorted_filter_length {A} (f : A -> bool) cmp x l :
  length (filter f (insertSorted cmp x l)) = length (filter f (x :: l)).
Proof.
  induction l as [|y l IH]; [reflexivity|]. simpl.
  destruct (leb (cmp x y) 0%Q); [reflexivity|]. simpl.
  simpl in IH. destruct (f y); simpl; rewrite IH; destruct (f x); reflexivity.
Qed.

Lemma sortBy_filter_length {A} (f : A -> bool) cmp l :
  length (filter f (sortBy cmp l)) = length (filter f l).
Proof.
  induction l as [|x l IH]; [reflexivity|]. simpl sortBy.
  rewrite insertSorted_filter_length. simpl. destruct (f x); simpl; congruence.
Qed.

Lemma insertSorted_sum {A} (g : A -> nat) cmp x l :
  list_sum (map g (insertSorted cmp x l)) = g x + list_sum (map g l).
Proof.
  induction l as [|y l IH]; [reflexivity|]. simpl.
  destruct (leb (cmp x y) 0%Q); simpl; [reflexivity|]. rewrite IH. lia.
Qed.

Lemma sortBy_sum {A} (g : A -> nat) cmp l :
  list_sum (map g (sortBy cmp l)) = list_sum (map g l).
Proof.
  induction l as [|x l IH]; [reflexivity|]. simpl sortBy.
  rewrite insertSorted_sum, IH. reflexivity.
Qed.

(** The local extrema found in the lookback window. *)
Definition detected (candles : list CandleData) (lookback : nat) : list PriceLevel :=
  let recentCandles := sliceLast candles lookback in
  flat_map (localLevels recentCandles) (seq 2 (length recentCandles - 4)).

(** X8.  On a series of at least 10 candles merging loses no extremum: the
    touches of the supports add up to the number of local lows detected in
    the lookback window, and those of the resistances to the number of
    local highs. *)
Theorem findSupportResistance_counts_every_extremum
  (candles : list CandleData) (lookback : nat) (threshold : number) :
  10 <= length candles ->
  let r := findSupportResistance candles lookback threshold in
  list_sum (map touches (supports r))
  = length (filter (isType support) (detected candles lookback)) /\
  list_sum (map touches (resistances r))
  = length (filter (isType resistance) (detected candles lookback)).
Proof.
  intros Hn r. subst r. unfold findSupportResistance.
  destruct (Nat.ltb_spec (length candles) 10); [lia|]. cbv zeta.
  cbn [supports resistances]. rewrite !sortBy_sum.
  fold (detected candles lookback).
  assert (Hraw : Forall (fun x => touches x = 1)
                   (sortBy (fun a b => sub (price a) (price b))
                           (detected candles lookback))).
  { apply sortBy_Forall, Forall_forall. intros x Hx. unfold detected in Hx.
    apply in_flat_map in Hx. destruct Hx as [i [_ Hx]].
    apply localLevels_raw in Hx. tauto. }
  unfold mergeLevels.
  pose proof (fold_mergeStep_touches support threshold _ [] Hraw) as Hs.
  pose proof (fold_mergeStep_touches resistance threshold _ [] Hraw) as Hr.
  unfold touchesOf in Hs, Hr. rewrite sortBy_filter_length in Hs, Hr.
  simpl in Hs, Hr. auto.
Qed.

Lemma findSupportResistance_counts_every_extremum_witness :
  10 <= length Samples.zigzag /\
  list_sum (map touches (resistances (findSupportResistance Samples.zigzag 100 (2 # 100))))
  = length (filter (isType resistance) (detected Samples.zigzag 100)) /\
  map touches (resistances (findSupportResistance Samples.zigzag 100 (2 # 100))) = [2; 1].
Proof.
  assert (H : 10 <= length Samples.zigzag) by (vm_compute; lia).
  split; [exact H|]. split.
  - exact (proj2 (findSupportResistance_counts_every_extremum
                    Samples.zigzag 100 (2 # 100) H)).
  - vm_compute. reflexivity.
Defined.

End LevelCounts.

(** ** The nearest levels, the signal score and the scanner *)

Module ScoreFacts.
Import Num Arr NumFacts ArrFacts SortFacts TechnicalAnalysis.
Local Open Scope Q_scope.

Lemma find_first_sorted {A} (R : A -> A -> Prop) (f : A -> bool) l :
  StronglySorted R l ->
  match find f l with
  | Some x => In x l /\ f x = true /\
              forall y, In y l -> f y = true -> y = x \/ R x y
  | None => forall y, In y l -> f y = false
  end.
Proof.
  induction 1 as [|z l Hl IH Hz]; simpl.
  - intros y [].
  - destruct (f z) eqn:E.
    + split; [auto|]. split; [assumption|].
      intros y [<-|Hy] _; [auto|]. right. revert y Hy. apply Forall_forall. assumption.
    + destruct (find f l) as [x|].
      * destruct IH as [H1 [H2 H3]]. split; [auto|]. split; [assumption|].
        intros y [<-|Hy] Hfy; [congruence|auto].
      * intros y [<-|Hy]; auto.
Qed.

(** X9.  On levels sorted as [findSupportResistance] returns them, the
    nearest support is the highest support strictly below the current
    price and the nearest resistance the lowest resistance strictly above
    it; when there is none on a side the distance on that side is 100, and
    for a positive price both distances are positive. *)
Theorem getNearestLevels_closest (currentPrice : number) (levels : SupportResistanceLevels) :
  StronglySorted (fun a b => price b < price a) (supports levels) ->
  StronglySorted (fun a b => price a < price b) (resistances levels) ->
  let n := getNearestLevels currentPrice levels in
  match nearestSupport n with
  | Some s => In s (supports levels) /\ price s < currentPrice /\
              forall s', In s' (supports levels) -> price s' < currentPrice ->
                         price s' <= price s
  | None => (forall s', In s' (supports levels) -> currentPrice <= price s') /\
            distanceToSupport n = 100
  end /\
  match nearestResistance n with
  | Some r => In r (resistances levels) /\ currentPrice < price r /\
              forall r', In r' (resistances levels) -> currentPrice < price r' ->
                         price r <= price r'
  | None => (forall r', In r' (resistances levels) -> price r' <= currentPrice) /\
            distanceToResistance n = 100
  end /\
  (0 < currentPrice -> 0 < distanceToSupport n /\ 0 < distanceToResistance n).
Proof.
  intros Hs Hr n. subst n. unfold getNearestLevels. cbv zeta.
  cbn [nearestSupport nearestResistance distanceToSupport distanceToResistance].
  pose proof (find_first_sorted _ (fun s => ltb (price s) currentPrice) _ Hs) as Fs.
  pose proof (find_first_sorted _ (fun r => gtb (price r) currentPrice) _ Hr) as Fr.
  assert (Hd : forall a, 0 < a -> 0 < currentPrice ->
                 0 < mul (div a currentPrice) 100).
  { intros a Ha Hp. rewrite mul_eq, div_eq.
    apply Qmult_lt_0_compat; [|lra]. apply Qlt_shift_div_l; lra. }
  split; [|split].
  - destruct (find (fun s => ltb (price s) currentPrice) (supports levels)) as [s|].
    + destruct Fs as [Fin [Flt Fall]]. apply ltb_lt in Flt.
      split; [assumption|]. split; [assumption|].
      intros s' Hin Hlt. apply ltb_lt in Hlt.
      destruct (Fall s' Hin Hlt) as [->|Hlt']; lra.
    + split; [|reflexivity]. intros s' Hin. apply ltb_ge. apply Fs. assumption.
  - destruct (find (fun r => gtb (price r) currentPrice) (resistances levels)) as [r|].
    + destruct Fr as [Fin [Flt Fall]]. apply gtb_gt in Flt.
      split; [assumption|]. split; [assumption|].
      intros r' Hin Hlt. apply gtb_gt in Hlt.
      destruct (Fall r' Hin Hlt) as [->|Hlt']; lra.
    + split; [|reflexivity]. intros r' Hin. apply gtb_le. apply Fr. assumption.
  - intro Hp. split.
    + destruct (find (fun s => ltb (price s) currentPrice) (supports levels)) as [s|];
        [|lra].
      destruct Fs as [_ [Flt _]]. apply ltb_lt in Flt.
      apply Hd; [rewrite sub_eq|]; lra.
    + destruct (find (fun r => gtb (price r) currentPrice) (resistances levels)) as [r|];
        [|lra].
      destruct Fr as [_ [Flt _]]. apply gtb_gt in Flt.
      apply Hd; [rewrite sub_eq|]; lra.
Qed.

Lemma getNearestLevels_closest_witness :
  StronglySorted (fun a b => price b < price a)
    (supports (findSupportResistance Samples.zigzag 100 (2 # 100))) /\
  StronglySorted (fun a b => price a < price b)
    (resistances (findSupportResistance Samples.zigzag 100 (2 # 100))) /\
  option_map price
    (nearestSupport (getNearestLevels 17
                       (findSupportResistance Samples.zigzag 100 (2 # 100)))) = Some 16 /\
  (0 < 17 ->
   0 < distanceToSupport (getNearestLevels 17
                            (findSupportResistance Samples.zigzag 100 (2 # 100)))).
Proof.
  assert (Hs : StronglySorted (fun a b => price b < price a)
                 (supports (findSupportResistance Samples.zigzag 100 (2 # 100)))).
  { vm_compute supports. repeat constructor. }
  assert (Hr : StronglySorted (fun a b => price a < price b)
                 (resistances (findSupportResistance Samples.zigzag 100 (2 # 100)))).
  { vm_compute resistances. repeat constructor. }
  split; [exact Hs|]. split; [exact Hr|]. split; [vm_compute; reflexivity|].
  intro Hp.
  exact (proj1 (proj2 (proj2 (getNearestLevels_closest 17 _ Hs Hr)) Hp)).
Defined.

(** *** The signal score *)

Lemma getRSISignal_range rsi : (-5 <= snd (getRSISignal rsi) <= 5)%Z.
Proof.
  unfold getRSISignal.
  repeat match goal with |- context [if ?c then _ else _] => destruct c end;
    simpl; lia.
Qed.

Lemma getMACDSignal_range m s h p : (-4 <= snd (getMACDSignal m s h p) <= 4)%Z.
Proof.
  unfold getMACDSignal. destruct m, s, h, p; simpl; try lia;
    repeat match goal with |- context [if ?c then _ else _] => destruct c end;
    simpl; lia.
Qed.

Lemma getBollingerSignal_range pr u m l :
  (-3 <= snd (fst (getBollingerSignal pr u m l)) <= 3)%Z.
Proof.
  unfold getBollingerSignal. destruct u, m, l; simpl; try lia;
    repeat match goal with |- context [if ?c then _ else _] => destruct c end;
    simpl; lia.
Qed.

Lemma getVolumeSignal_range r c : (-3 <= snd (getVolumeSignal r c) <= 3)%Z.
Proof.
  unfold getVolumeSignal. destruct r; simpl; try lia;
    repeat match goal with |- context [if ?c then _ else _] => destruct c end;
    simpl; lia.
Qed.

Lemma nearestSupport_strength p candles lookback threshold s :
  nearestSupport (getNearestLevels p (findSupportResistance candles lookback threshold))
  = Some s ->
  (1 <= strength s <= 5)%nat.
Proof.
  unfold getNearestLevels. cbv zeta. cbn [nearestSupport]. intro H.
  apply find_some in H. destruct H as [H _].
  destruct (LevelCounts.findSupportResistance_counted candles lookback threshold)
    as [Hc _].
  revert Hc. rewrite Forall_forall. intro Hc. destruct (Hc s H) as [H1 H2]. lia.
Qed.

(** Turn the leading [let]s of an equation into local definitions. *)
Ltac peel_lets H :=
  repeat lazymatch type of H with
         | (let x := ?v in @?b x) = ?r =>
             let x' := fresh x in
             pose (x' := v); change (b x' = r) in H; cbv beta in H
         end.

(** The signal the analysis derives from the final score. *)
Definition signalOfScore (score : Z) : Signal :=
  if (score >=? 22)%Z then STRONG_BUY
  else if (score >=? 10)%Z then BUY
  else if (score <=? -22)%Z then STRONG_SELL
  else if (score <=? -10)%Z then SELL
  else NEUTRAL.

(** The score is a sum of bounded contributions, and the signal is read
    off the score. *)
Lemma analysis_score (sqrt : number -> number) (candles : list CandleData)
  (ti : Indicators.TechnicalIndicators) :
  performTechnicalAnalysis sqrt candles = Some ti ->
  (-63 <= Indicators.signalScore ti <= 63)%Z /\
  Indicators.signalNow ti = signalOfScore (Indicators.signalScore ti).
Proof.
  intro H. cbv delta [performTechnicalAnalysis] in H. cbv beta in H.
  peel_lets H.
  destruct (lastOpt candles) as [lastCandle|]; [|discriminate].
  peel_lets H.
  injection H as <-. cbn [Indicators.signalScore Indicators.signalNow].
  assert (H1 : (-5 <= snd rsiSignal <= 5)%Z) by apply getRSISignal_range.
  assert (H2 : (-4 <= snd macdSignalResult <= 4)%Z) by apply getMACDSignal_range.
  assert (H3 : (-3 <= snd (fst bollingerSignal) <= 3)%Z)
    by apply getBollingerSignal_range.
  assert (H4 : (-3 <= snd volumeSignal <= 3)%Z) by apply getVolumeSignal_range.
  assert (H5 : forall s, nearestSupport nearest = Some s -> (1 <= strength s <= 5)%nat)
    by (intro s; apply nearestSupport_strength).
  clearbody rsiSignal macdSignalResult bollingerSignal volumeSignal nearest
            sma20 sma50 sma200 ema200.
  split.
  - assert (B3 : (signalScore2 - 2 <= signalScore3 <= signalScore2 + 2)%Z).
    { subst signalScore3. destruct sma20, sma50; try lia.
      destruct (gtb _ _); lia. }
    assert (B4 : (signalScore3 - 2 <= signalScore4 <= signalScore3 + 2)%Z).
    { subst signalScore4. destruct sma50, sma200; try lia.
      destruct (gtb _ _); lia. }
    assert (B5 : (signalScore4 - 1 <= signalScore5 <= signalScore4 + 1)%Z).
    { subst signalScore5. destruct sma20; try lia. destruct (gtb _ _); lia. }
    assert (B7 : (signalScore6 - 6 <= signalScore7 <= signalScore6 + 4)%Z).
    { subst signalScore7. destruct ema200; try lia.
      destruct (ltb (close lastCandle) _); lia. }
    assert (B8 : (signalScore7 <= signalScore8 <= signalScore7 + 7)%Z).
    { subst signalScore8. destruct (ltb (distanceToSupport nearest) _); [|lia].
      cbv zeta.
      destruct (nearestSupport nearest) as [s|] eqn:E; [|lia].
      specialize (H5 s eq_refl). destruct (Nat.eqb_spec (strength s) 0); lia. }
    assert (B9 : (signalScore8 - 5 <= signalScore9 <= signalScore8)%Z).
    { subst signalScore9. destruct (ltb (distanceToResistance nearest) _); lia. }
    subst signalScore6 signalScore2 signalScore1 signalScore0 signalScore. lia.
  - reflexivity.
Qed.

(** X10.  Whenever [performTechnicalAnalysis] returns, the signal score is
    between -63 and 63, and the signal is the class of the score:
    STRONG_BUY from 22, BUY from 10, STRONG_SELL down from -22, SELL down
    from -10, NEUTRAL in between. *)
Theorem performTechnicalAnalysis_score
  (sqrt : number -> number) (candles : list CandleData)
  (ti : Indicators.TechnicalIndicators) :
  performTechnicalAnalysis sqrt candles = Some ti ->
  (-63 <= Indicators.signalScore ti <= 63)%Z /\
  match Indicators.signalNow ti with
  | STRONG_BUY => (22 <= Indicators.signalScore ti)%Z
  | BUY => (10 <= Indicators.signalScore ti < 22)%Z
  | NEUTRAL => (-10 < Indicators.signalScore ti < 10)%Z
  | SELL => (-22 < Indicators.signalScore ti <= -10)%Z
  | STRONG_SELL => (Indicators.signalScore ti <= -22)%Z
  end.
Proof.
  intro H. destruct (analysis_score sqrt candles ti H) as [Hb Hs].
  split; [exact Hb|]. rewrite Hs. unfold signalOfScore.
  destruct (Z.geb_spec (Indicators.signalScore ti) 22); [lia|].
  destruct (Z.geb_spec (Indicators.signalScore ti) 10); [lia|].
  destruct (Z.leb_spec (Indicators.signalScore ti) (-22)); [lia|].
  destruct (Z.leb_spec (Indicators.signalScore ti) (-10)); lia.
Qed.

Lemma performTechnicalAnalysis_score_witness :
  exists ti, performTechnicalAnalysis Num.sqrtApprox Samples.zigzag = Some ti /\
             (-63 <= Indicators.signalScore ti <= 63)%Z.
Proof.
  destruct (performTechnicalAnalysis Num.sqrtApprox Samples.zigzag) as [ti|] eqn:E.
  - exists ti. split; [reflexivity|].
    exact (proj1 (performTechnicalAnalysis_score _ _ ti E)).
  - vm_compute in E. discriminate E.
Defined.

(** *** The opportunity scanner *)

Lemma insertSorted_length {A} (cmp : A -> A -> number) x l :
  length (insertSorted cmp x l) = S (length l).
Proof.
  induction l as [|y l IH]; [reflexivity|]. simpl.
  destruct (leb (cmp x y) 0); simpl; congruence.
Qed.

Lemma sortBy_length {A} (cmp : A -> A -> number) (l : list A) :
  length (sortBy cmp l) = length l.
Proof.
  induction l as [|x l IH]; [reflexivity|]. simpl sortBy.
  rewrite insertSorted_length. simpl. congruence.
Qed.

Lemma scanOne_length sqrt crypto : (length (scanOne sqrt crypto) <= 1)%nat.
Proof.
  destruct crypto as [sym candles]. unfold scanOne.
  destruct (length candles <? 50)%nat; [simpl; lia|].
  destruct (performTechnicalAnalysis sqrt candles) as [ti|]; [|simpl; lia].
  cbv zeta. destruct (Indicators.signalNow ti); simpl; lia.
Qed.

Lemma flat_map_scanOne_length sqrt cryptoData :
  (length (flat_map (scanOne sqrt) cryptoData) <= length cryptoData)%nat.
Proof.
  induction cryptoData as [|c l IH]; [reflexivity|].
  simpl. rewrite length_app. pose proof (scanOne_length sqrt c). lia.
Qed.

(** What [scanOne] pushes for an instrument, and when. *)
Lemma scanOne_In sqrt sym candles o :
  In o (scanOne sqrt (sym, candles)) <->
  (50 <= length candles)%nat /\
  exists ti, performTechnicalAnalysis sqrt candles = Some ti /\
    (Indicators.signalNow ti = BUY \/ Indicators.signalNow ti = STRONG_BUY) /\
    scanOne sqrt (sym, candles) = [o] /\
    symbol o = sym /\
    oppSignal o = Indicators.signalNow ti /\
    oppScore o = Indicators.signalScore ti /\
    oppRsi o = Indicators.rsi ti /\
    oppPrice o = close (nth (length candles - 1) candles noCandle).
Proof.
  unfold scanOne.
  destruct (Nat.ltb_spec (length candles) 50) as [Hlt|Hge].
  { split; [intros []|]. intros [Hlen _]. lia. }
  destruct (performTechnicalAnalysis sqrt candles) as [ti|].
  2:{ split; [intros []|]. intros [_ [ti [Hti _]]]. discriminate. }
  cbv zeta.
  destruct (Indicators.signalNow ti) eqn:Esig.
  1,2: split;
    [ intros [<-|[]]; split; [assumption|]; exists ti;
      cbn [symbol oppSignal oppScore oppRsi oppPrice]; rewrite Esig; auto 10
    | intros [_ [ti' [Hti [_ [Heq _]]]]]; rewrite Heq; left; reflexivity ].
  all: split; [intros []|];
    intros [_ [ti' [Hti [[Hs|Hs] _]]]]; injection Hti as <-; congruence.
Qed.

(** X11.  The scanner returns no more opportunities than there are
    instruments, sorted by score from the highest down.  Every opportunity comes from an
    instrument of the input with at least 50 candles whose analysis gives
    BUY with a score from 10 to 21 or STRONG_BUY with a score from 22 to
    63, and carries that signal and score; and every such instrument gives
    an opportunity. *)
Theorem scanForOpportunities_sound
  (sqrt : number -> number) (cryptoData : list (string * list CandleData)) :
  let out := scanForOpportunities sqrt cryptoData in
  StronglySorted (fun a b => (oppScore b <= oppScore a)%Z) out /\
  (length out <= length cryptoData)%nat /\
  (forall o, In o out ->
     (oppSignal o = BUY /\ (10 <= oppScore o < 22)%Z \/
      oppSignal o = STRONG_BUY /\ (22 <= oppScore o <= 63)%Z) /\
     exists candles ti,
       In (symbol o, candles) cryptoData /\ (50 <= length candles)%nat /\
       performTechnicalAnalysis sqrt candles = Some ti /\
       Indicators.signalNow ti = oppSignal o /\
       Indicators.signalScore ti = oppScore o) /\
  (forall sym candles ti,
     In (sym, candles) cryptoData -> (50 <= length candles)%nat ->
     performTechnicalAnalysis sqrt candles = Some ti ->
     Indicators.signalNow ti = BUY \/ Indicators.signalNow ti = STRONG_BUY ->
     exists o, In o out /\ symbol o = sym /\
               oppSignal o = Indicators.signalNow ti /\
               oppScore o = Indicators.signalScore ti).
Proof.
  intro out. subst out. unfold scanForOpportunities.
  split; [|split; [|split]].
  - apply sortBy_sorted.
    + intros x y H. apply leb_le in H. rewrite sub_eq in H. unfold ofZ in H.
      rewrite Zle_Qle. lra.
    + intros x y H. apply leb_gt in H. rewrite sub_eq in H. unfold ofZ in H.
      rewrite Zle_Qle. lra.
    + intros x y z H1 H2. lia.
  - rewrite sortBy_length. apply flat_map_scanOne_length.
  - intros o Ho. apply sortBy_In in Ho. apply in_flat_map in Ho.
    destruct Ho as [[sym candles] [Hin Ho]].
    apply scanOne_In in Ho.
    destruct Ho as [Hlen [ti [Hti [Hsig [_ [Hsym [Hs [Hsc _]]]]]]]].
    destruct (analysis_score sqrt candles ti Hti) as [Hb Hc].
    rewrite <- Hs, <- Hsc in Hc. rewrite <- Hsc in Hb. rewrite <- Hs in Hsig.
    split.
    + unfold signalOfScore in Hc.
      destruct (Z.geb_spec (oppScore o) 22);
        [right; split; [assumption|lia]|].
      destruct (Z.geb_spec (oppScore o) 10);
        [left; split; [assumption|lia]|].
      exfalso.
      destruct (oppScore o <=? -22)%Z; [destruct Hsig; congruence|].
      destruct (oppScore o <=? -10)%Z; destruct Hsig; congruence.
    + exists candles, ti. subst sym. auto.
  - intros sym candles ti Hin Hlen Hti Hsig.
    destruct (scanOne sqrt (sym, candles)) as [|o r] eqn:E.
    + exfalso. unfold scanOne in E.
      destruct (Nat.ltb_spec (length candles) 50); [lia|].
      rewrite Hti in E. cbv zeta in E.
      destruct Hsig as [Hs|Hs]; rewrite Hs in E; discriminate.
    + assert (Ho : In o (scanOne sqrt (sym, candles))) by (rewrite E; left; reflexivity).
      pose proof Ho as Ho'. apply scanOne_In in Ho'.
      destruct Ho' as [_ [ti' [Hti' [_ [_ [Hsym [Hs [Hsc _]]]]]]]].
      assert (ti' = ti) by congruence. subst ti'.
      exists o. split; [|auto].
      apply sortBy_In. apply in_flat_map. exists (sym, candles). auto.
Qed.

Lemma scanForOpportunities_sound_witness :
  map (fun o => (symbol o, oppSignal o, oppScore o))
      (scanForOpportunities sqrtApprox
         [("flat"%string, Samples.zigzag);
          ("dip"%string, Samples.around (rev (Samples.rising 50) ++ [2; 3]));
          ("slide"%string, Samples.around (Samples.rising 40 ++
                                    [35; 30; 25; 20; 15; 12; 10; 9; 8; 7; 6; 5]));
          ("down"%string, Samples.falling 52)])
  = [("dip"%string, BUY, 14%Z); ("slide"%string, BUY, 13%Z)] /\
  StronglySorted (fun a b => (oppScore b <= oppScore a)%Z)
    (scanForOpportunities sqrtApprox
       [("flat"%string, Samples.zigzag);
        ("dip"%string, Samples.around (rev (Samples.rising 50) ++ [2; 3]));
        ("slide"%string, Samples.around (Samples.rising 40 ++
                                  [35; 30; 25; 20; 15; 12; 10; 9; 8; 7; 6; 5]));
        ("down"%string, Samples.falling 52)]).
Proof.
  split; [vm_compute; reflexivity|].
  exact (proj1 (scanForOpportunities_sound sqrtApprox _)).
Defined.

End ScoreFacts.

(** ** Invariants of the API-route simulation *)

Module RouteInvariants.
Import Num Arr NumFacts ArrFacts BacktestRoute.
Local Open Scope Q_scope.

Ltac num_norm :=
  repeat (rewrite add_eq || rewrite sub_eq || rewrite mul_eq || rewrite div_eq).

Lemma Nat2Z_add_ofNat a b : ofNat (a + b) == ofNat a + ofNat b.
Proof.
  unfold ofNat. rewrite Nat2Z.inj_add, inject_Z_plus. reflexivity.
Qed.

(** A property of the state is kept by an iteration when the bookkeeping
    and each of the four trading branches keep it. *)
Lemma step_invariant (Inv : State -> Prop) config candles rsiValues macdResult
  bollinger st i :
  let candle := nth i candles TA.noCandle in
  (forall s, Inv s -> Inv (markEquity s candle)) ->
  (forall s why, Inv s -> 0 < position s -> TA.low candle <= stopLoss s ->
                 Inv (sell LossOnly s (TA.timestamp candle) (stopLoss s) why)) ->
  (forall s why, Inv s -> 0 < position s -> takeProfit s <= TA.high candle ->
                 Inv (sell WinOnly s (TA.timestamp candle) (takeProfit s) why)) ->
  (forall s buySignals, Inv s -> position s == 0 -> 0 < capital s ->
                        Inv (buy config s candle buySignals)) ->
  (forall s why, Inv s -> 0 < position s ->
                 Inv (sell WinOrLoss s (TA.timestamp candle) (TA.close candle) why)) ->
  Inv st -> Inv (step config candles rsiValues macdResult bollinger st i).
Proof.
  intros candle Hmark Hstop Htake Hbuy Hsell H. unfold step. cbv zeta.
  fold candle. apply Hmark in H.
  revert H. generalize (markEquity st candle). clear st. intros st H.
  destruct (gtb (position st) 0 && leb (TA.low candle) (stopLoss st)) eqn:E1.
  { apply andb_true_iff in E1. destruct E1 as [Ea Eb].
    apply gtb_gt in Ea. apply leb_le in Eb. apply Hstop; assumption. }
  destruct (gtb (position st) 0 && geb (TA.high candle) (takeProfit st)) eqn:E2.
  { apply andb_true_iff in E2. destruct E2 as [Ea Eb].
    apply gtb_gt in Ea. apply leb_le in Eb. apply Htake; assumption. }
  match goal with
  | |- Inv (if gtb (position ?s) _ then _ else _) =>
      assert (Hs : Inv s); [|revert Hs; generalize s]
  end.
  - destruct (eqb (position st) 0 && gtb (capital st) 0) eqn:E; [|assumption].
    apply andb_true_iff in E. destruct E as [Ea Eb].
    apply eqb_eq in Ea. apply gtb_gt in Eb.
    destruct (Nat.leb _ _); [|assumption].
    apply Hbuy; assumption.
  - intros s Hs. destruct (gtb (position s) 0) eqn:E; [|assumption].
    apply gtb_gt in E.
    destruct (Nat.leb _ _); [|assumption].
    apply Hsell; assumption.
Qed.

Lemma fold_invariant {S} (Inv : S -> Prop) (P : nat -> Prop) (f : S -> nat -> S) l :
  (forall s i, P i -> Inv s -> Inv (f s i)) ->
  Forall P l -> forall s, Inv s -> Inv (fold_left f l s).
Proof.
  intros Hf Hl. induction Hl as [|i l Hi Hl IH]; intros s Hs; simpl; [assumption|].
  apply IH. apply Hf; assumption.
Qed.

Lemma loop_indices (candles : list TA.CandleData) upto :
  (upto <= length candles)%nat ->
  Forall (fun i => In (nth i candles TA.noCandle) candles) (seq 50 (upto - 50)).
Proof.
  intro Hu. apply Forall_forall. intros i Hi. apply in_seq in Hi.
  apply nth_In. lia.
Qed.

(** *** The equity curve *)

Lemma step_equityCurve_point config candles rsiValues macdResult bollinger st i :
  equityCurve (step config candles rsiValues macdResult bollinger st i)
  = equityCurve st
    ++ [(TA.timestamp (nth i candles TA.noCandle),
         add (capital st) (mul (position st) (TA.close (nth i candles TA.noCandle))))].
Proof. RouteFacts.step_cases; reflexivity. Qed.

Lemma map_nth_seq {A} (d : A) (l : list A) : forall a,
  map (fun i => nth i l d) (seq a (length l - a)) = skipn a l.
Proof.
  induction l as [|x l IH]; intro a.
  - simpl. destruct a; reflexivity.
  - destruct a as [|a].
    + simpl length. rewrite Nat.sub_0_r. simpl seq. simpl map. rewrite skipn_O.
      f_equal. rewrite <- seq_shift, map_map. simpl.
      specialize (IH 0%nat). rewrite Nat.sub_0_r, skipn_O in IH. exact IH.
    + simpl length. rewrite Nat.sub_succ. rewrite <- seq_shift, map_map. simpl.
      apply IH.
Qed.

(** X12.  The equity curve of the API-route backtest has one point per
    candle from index 50 on, stamped with that candle's timestamp, in
    order; when there is such a candle the first point is the initial
    capital. *)
Theorem equity_curve_follows_candles
  (sqrt : number -> number) (candles : list TA.CandleData)
  (rsiValues : list (option number)) (macdResult : TA.MACD)
  (bollinger : TA.Bollinger) (config : BacktestConfig) :
  let r := runBacktest sqrt candles rsiValues macdResult bollinger config in
  map fst (Result.equityCurve r) = map TA.timestamp (skipn 50 candles) /\
  ((50 < length candles)%nat ->
   exists v rest,
     Result.equityCurve r = (TA.timestamp (nth 50 candles TA.noCandle), v) :: rest /\
     v == initialCapital config).
Proof.
  intro r. subst r. unfold runBacktest, summarize. cbv zeta.
  cbn [Result.equityCurve]. unfold finalState.
  rewrite RouteFacts.closeRemaining_equityCurve. unfold simulate.
  set (f := step config candles rsiValues macdResult bollinger).
  assert (G : forall l st,
             map fst (equityCurve (fold_left f l st))
             = map fst (equityCurve st)
               ++ map (fun i => TA.timestamp (nth i candles TA.noCandle)) l).
  { induction l as [|i l IH]; intro st; simpl.
    - rewrite app_nil_r. reflexivity.
    - rewrite IH. unfold f. rewrite step_equityCurve_point.
      rewrite map_app, <- app_assoc. reflexivity. }
  assert (P : forall l st, exists rest,
             equityCurve (fold_left f l st) = equityCurve st ++ rest).
  { induction l as [|i l IH]; intro st; simpl.
    - exists []. rewrite app_nil_r. reflexivity.
    - destruct (IH (f st i)) as [rest Hrest]. rewrite Hrest.
      unfold f. rewrite step_equityCurve_point, <- app_assoc.
      eexists. reflexivity. }
  split.
  - rewrite G. cbn [initialState equityCurve map app].
    rewrite <- map_nth_seq with (d := TA.noCandle).
    rewrite map_map. reflexivity.
  - intro Hlen.
    destruct (length candles - 50)%nat as [|n] eqn:E; [lia|].
    simpl seq. simpl fold_left.
    destruct (P (seq 51 n) (f (initialState config) 50%nat)) as [rest Hrest].
    rewrite Hrest. unfold f. rewrite step_equityCurve_point. simpl.
    eexists. eexists. split; [reflexivity|]. num_norm. lra.
Qed.

Lemma equity_curve_follows_candles_witness :
  (50 < length (toCandles (Samples.falling 52)))%nat /\
  exists v rest,
    Result.equityCurve (Samples.fallingRun Samples.defaultConfig) = (50%Z, v) :: rest /\
    v == 10000.
Proof.
  assert (Hlen : (50 < length (toCandles (Samples.falling 52)))%nat)
    by (vm_compute; lia).
  split; [exact Hlen|].
  exact (proj2 (equity_curve_follows_candles sqrtApprox
                  (toCandles (Samples.falling 52)) _ _ _ Samples.defaultConfig) Hlen).
Defined.

(** *** The trade log *)

(** A log made of BUY/SELL pairs, each SELL closing the whole quantity of
    the BUY before it with the profit of that round trip. *)
Fixpoint pairedLog (log : list BacktestTrade) : Prop :=
  match log with
  | [] => True
  | [_] => False
  | b :: s :: rest =>
      type b = BUY /\ pnl b = None /\
      type s = SELL /\ quantity s = quantity b /\
      pnl s = Some (mul (sub (price s) (price b)) (quantity b)) /\
      pairedLog rest
  end.

Lemma pairedLog_app log1 log2 :
  pairedLog log1 -> pairedLog log2 -> pairedLog (log1 ++ log2).
Proof.
  assert (G : forall n log, (length log <= n)%nat ->
                            pairedLog log -> pairedLog log2 -> pairedLog (log ++ log2)).
  { induction n as [|n IH]; intros [|b [|s rest]] Hn H1 H2; simpl in *;
      try assumption; try lia; try contradiction.
    destruct H1 as [Ha [Hb [Hc [Hd [He Hf]]]]].
    repeat (split; [assumption|]).
    apply IH; [lia|assumption|assumption]. }
  apply (G (length log1)). lia.
Qed.

(** Either no position is held and the log is paired, or a position is
    held and the log is a paired log followed by the BUY that opened it. *)
Definition logMatchesPosition (st : State) : Prop :=
  (position st = 0 /\ pairedLog (trades st)) \/
  (0 < position st /\
   exists log b, trades st = log ++ [b] /\ pairedLog log /\
                 type b = BUY /\ pnl b = None /\
                 quantity b = position st /\ price b = entryPrice st).

Lemma logSell_closes tally st ts exitPrice why :
  logMatchesPosition st -> 0 < position st ->
  pairedLog (trades (logSell tally st ts exitPrice why)).
Proof.
  intros [[Hz _]|[_ [log [b [Hlog [Hp [Hty [Hpnl [Hq Hpr]]]]]]]]] Hpos.
  { rewrite Hz in Hpos. lra. }
  unfold logSell. cbv zeta. cbn [trades]. rewrite Hlog, <- app_assoc.
  apply pairedLog_app; [assumption|]. simpl.
  rewrite Hq, Hpr. auto 10.
Qed.

Lemma sell_logMatchesPosition tally st ts exitPrice why :
  logMatchesPosition st -> 0 < position st ->
  logMatchesPosition (sell tally st ts exitPrice why).
Proof.
  intros H Hpos. left. split; [reflexivity|].
  exact (logSell_closes tally st ts exitPrice why H Hpos).
Qed.

Lemma buy_logMatchesPosition config st candle buySignals :
  0 < positionSizePercent config -> 0 < TA.close candle ->
  logMatchesPosition st -> position st == 0 -> 0 < capital st ->
  logMatchesPosition (buy config st candle buySignals).
Proof.
  intros Hpct Hclose [[_ Hp]|[Hpos _]] Hz Hcap; [|lra].
  right. unfold buy. cbv zeta. cbn [position trades entryPrice]. split.
  - num_norm. apply Qlt_shift_div_l; [assumption|].
    apply Qlt_shift_div_l; [lra|]. nra.
  - eexists. eexists. split; [reflexivity|]. simpl. auto.
Qed.

Lemma simulate_logMatchesPosition config candles rsiValues macdResult bollinger upto :
  0 < positionSizePercent config ->
  Forall (fun c => 0 < TA.close c) candles ->
  (upto <= length candles)%nat ->
  logMatchesPosition (simulate config candles rsiValues macdResult bollinger upto).
Proof.
  intros Hpct Hcl Hu. unfold simulate.
  apply (fold_invariant logMatchesPosition
           (fun i => In (nth i candles TA.noCandle) candles));
    [|apply loop_indices; assumption|left; split; [reflexivity|exact I]].
  intros s i Hi Hs.
  assert (Hc : 0 < TA.close (nth i candles TA.noCandle)).
  { revert Hi. generalize (nth i candles TA.noCandle). apply Forall_forall.
    assumption. }
  apply step_invariant; try assumption.
  - intros s0 H. exact H.
  - intros s0 why H Hpos _. apply sell_logMatchesPosition; assumption.
  - intros s0 why H Hpos _. apply sell_logMatchesPosition; assumption.
  - intros s0 sigs H Hz Hcap. apply buy_logMatchesPosition; assumption.
  - intros s0 why H Hpos. apply sell_logMatchesPosition; assumption.
Qed.

(** X13.  With a positive position-size percentage and positive closes,
    the trade log of the API-route backtest is a sequence of BUY/SELL
    pairs: it starts with a BUY, alternates, ends with a SELL, and each
    SELL closes exactly the quantity of the BUY before it, with
    [pnl = (sell price - buy price) * quantity]. *)
Theorem trade_log_is_paired
  (sqrt : number -> number) (candles : list TA.CandleData)
  (rsiValues : list (option number)) (macdResult : TA.MACD)
  (bollinger : TA.Bollinger) (config : BacktestConfig) :
  0 < positionSizePercent config ->
  Forall (fun c => 0 < TA.close c) candles ->
  pairedLog (Result.trades
               (runBacktest sqrt candles rsiValues macdResult bollinger config)).
Proof.
  intros Hpct Hcl. unfold runBacktest, summarize. cbv zeta. cbn [Result.trades].
  unfold finalState, closeRemaining.
  pose proof (simulate_logMatchesPosition config candles rsiValues macdResult bollinger
                (length candles) Hpct Hcl (le_n _)) as H.
  destruct (gtb _ _) eqn:E.
  - apply gtb_gt in E. cbv zeta. apply logSell_closes; assumption.
  - apply gtb_le in E. destruct H as [[_ H]|[Hpos _]]; [assumption|lra].
Qed.

Lemma trade_log_is_paired_witness :
  0 < positionSizePercent Samples.defaultConfig /\
  Forall (fun c => 0 < TA.close c) (toCandles (Samples.falling 52)) /\
  pairedLog (Result.trades (Samples.fallingRun Samples.defaultConfig)) /\
  map type (Result.trades (Samples.fallingRun Samples.defaultConfig)) = [BUY; SELL].
Proof.
  assert (Hpct : 0 < positionSizePercent Samples.defaultConfig) by (simpl; lra).
  assert (Hcl : Forall (fun c => 0 < TA.close c) (toCandles (Samples.falling 52)))
    by (apply RouteConservation.Forall_closes_positive; vm_compute; reflexivity).
  split; [exact Hpct|]. split; [exact Hcl|]. split.
  - exact (trade_log_is_paired sqrtApprox (toCandles (Samples.falling 52)) _ _ _
             Samples.defaultConfig Hpct Hcl).
  - vm_compute. reflexivity.
Defined.

(** *** Solvency and the drawdown *)

(** Cash and position are never negative, the peak equity is positive, and
    the running maximum drawdown is a fraction between 0 and 1. *)
Definition solvent (st : State) : Prop :=
  0 <= capital st /\ 0 <= position st /\ 0 <= takeProfit st /\
  0 < peakEquity st /\ 0 <= maxDrawdown st <= 1.

Lemma markEquity_solvent st candle :
  0 <= TA.close candle -> solvent st -> solvent (markEquity st candle).
Proof.
  intros Hc [Hcap [Hpos [Htp [Hpk [Hd1 Hd2]]]]].
  unfold solvent, markEquity. cbv zeta.
  cbn [capital position takeProfit peakEquity maxDrawdown].
  set (cur := add (capital st) (mul (position st) (TA.close candle))).
  assert (Hcur : 0 <= cur).
  { subst cur. num_norm. pose proof (Qmult_le_0_compat _ _ Hpos Hc). lra. }
  set (peak := if gtb cur (peakEquity st) then cur else peakEquity st).
  assert (Hpeak : 0 < peak /\ cur <= peak).
  { subst peak. destruct (gtb cur (peakEquity st)) eqn:E.
    - apply gtb_gt in E. split; lra.
    - apply gtb_le in E. split; lra. }
  destruct Hpeak as [Hp1 Hp2].
  assert (Hdd : 0 <= div (sub peak cur) peak <= 1).
  { num_norm. split.
    - apply Qle_shift_div_l; lra.
    - apply Qle_shift_div_r; lra. }
  repeat (split; [assumption|]).
  destruct (gtb _ (maxDrawdown st)); [assumption|split; assumption].
Qed.

Lemma sell_solvent tally st ts exitPrice why :
  0 <= exitPrice -> solvent st -> solvent (sell tally st ts exitPrice why).
Proof.
  intros He [Hcap [Hpos [Htp [Hpk Hd]]]].
  unfold solvent, sell, flat, logSell. cbv zeta.
  cbn [capital position takeProfit peakEquity maxDrawdown].
  repeat split; try assumption; try lra.
  num_norm. pose proof (Qmult_le_0_compat _ _ He Hpos). lra.
Qed.

Lemma buy_solvent config st candle buySignals :
  0 <= positionSizePercent config <= 100 ->
  0 <= takeProfitPercent config ->
  0 < TA.close candle ->
  solvent st -> solvent (buy config st candle buySignals).
Proof.
  intros [Hp1 Hp2] Htpp Hc [Hcap [Hpos [Htp [Hpk Hd]]]].
  unfold solvent, buy. cbv zeta.
  cbn [capital position takeProfit peakEquity maxDrawdown].
  repeat split; try assumption; try lra.
  - num_norm.
    assert (capital st * positionSizePercent config / 100 <= capital st); [|lra].
    apply Qle_shift_div_r; [lra|]. nra.
  - num_norm. apply Qdiv_nonneg; [|lra]. apply Qdiv_nonneg; [|lra].
    apply Qmult_le_0_compat; assumption.
  - num_norm. apply Qmult_le_0_compat; [lra|].
    pose proof (Qdiv_nonneg (takeProfitPercent config) 100 Htpp). lra.
Qed.

Lemma simulate_solvent config candles rsiValues macdResult bollinger upto :
  0 < initialCapital config ->
  0 <= positionSizePercent config <= 100 ->
  0 <= takeProfitPercent config ->
  Forall (fun c => 0 < TA.low c /\ 0 < TA.close c) candles ->
  (upto <= length candles)%nat ->
  solvent (simulate config candles rsiValues macdResult bollinger upto).
Proof.
  intros Hinit Hpct Htpp Hcl Hu. unfold simulate.
  apply (fold_invariant solvent
           (fun i => In (nth i candles TA.noCandle) candles));
    [|apply loop_indices; assumption
     |unfold solvent, initialState; simpl; repeat split; lra].
  intros s i Hi Hs.
  assert (Hc : 0 < TA.low (nth i candles TA.noCandle)
               /\ 0 < TA.close (nth i candles TA.noCandle)).
  { revert Hi. generalize (nth i candles TA.noCandle). apply Forall_forall.
    assumption. }
  destruct Hc as [Hlow Hclose].
  apply step_invariant; try assumption.
  - intros s0 H. apply markEquity_solvent; [lra|assumption].
  - intros s0 why H _ Hstop. apply sell_solvent; [lra|assumption].
  - intros s0 why H _ _. apply sell_solvent; [|assumption]. apply H.
  - intros s0 sigs H _ _. apply buy_solvent; assumption.
  - intros s0 why H _. apply sell_solvent; [lra|assumption].
Qed.

(** X14.  For a positive initial capital, a position size between 0 and
    100 percent, a take-profit percentage that is not negative and candles
    with positive lows and closes, the API-route backtest never ends below
    zero: the total return is at least -100 percent, and the reported
    maximum drawdown lies between 0 and 100, as does the win rate. *)
Theorem backtest_statistics_in_range
  (sqrt : number -> number) (candles : list TA.CandleData)
  (rsiValues : list (option number)) (macdResult : TA.MACD)
  (bollinger : TA.Bollinger) (config : BacktestConfig) :
  0 < initialCapital config ->
  0 <= positionSizePercent config <= 100 ->
  0 <= takeProfitPercent config ->
  Forall (fun c => 0 < TA.low c /\ 0 < TA.close c) candles ->
  let r := runBacktest sqrt candles rsiValues macdResult bollinger config in
  0 <= Result.maxDrawdown r <= 100 /\
  - (100) <= Result.totalReturnPercent r /\
  - initialCapital config <= Result.totalReturn r /\
  0 <= Result.winRate r <= 100.
Proof.
  intros Hinit Hpct Htpp Hcl r. subst r.
  unfold runBacktest, summarize. cbv zeta.
  cbn [Result.maxDrawdown Result.totalReturnPercent Result.totalReturn Result.winRate].
  pose proof (simulate_solvent config candles rsiValues macdResult bollinger
                (length candles) Hinit Hpct Htpp Hcl (le_n _)) as H.
  assert (Hf : 0 <= capital (finalState config candles rsiValues macdResult bollinger)
               /\ maxDrawdown (finalState config candles rsiValues macdResult bollinger)
                  = maxDrawdown (simulate config candles rsiValues macdResult bollinger
                                          (length candles))).
  { unfold finalState, closeRemaining.
    destruct H as [Hcap [Hpos _]].
    destruct (gtb _ _); [|split; [assumption|reflexivity]].
    cbv zeta. unfold logSell. cbv zeta. cbn [capital maxDrawdown].
    split; [|reflexivity]. num_norm.
    assert (Hlast : 0 <= TA.close (nth (length candles - 1) candles TA.noCandle)).
    { destruct (Nat.lt_ge_cases (length candles - 1) (length candles)) as [Hlt|Hge].
      - assert (Hin := nth_In candles TA.noCandle Hlt).
        revert Hin. generalize (nth (length candles - 1) candles TA.noCandle).
        intros c Hc. revert Hcl. rewrite Forall_forall. intro Hcl.
        destruct (Hcl c Hc). lra.
      - rewrite nth_overflow by assumption. simpl. lra. }
    pose proof (Qmult_le_0_compat _ _ Hlast Hpos). lra. }
  destruct Hf as [Hcapf Hmd]. rewrite Hmd.
  destruct H as [_ [_ [_ [_ [Hd1 Hd2]]]]].
  generalize dependent (finalState config candles rsiValues macdResult bollinger).
  intros st Hcapf _.
  split; [num_norm; split; lra|].
  split.
  { num_norm.
    assert (E : (capital st - initialCapital config) / initialCapital config * 100
                == (capital st / initialCapital config) * 100 - 100)
      by (field; lra).
    rewrite E. pose proof (Qdiv_nonneg _ _ Hcapf (Qlt_le_weak _ _ Hinit)). lra. }
  split; [num_norm; lra|].
  destruct (Nat.ltb_spec 0 (winningTrades st + losingTrades st)) as [Hn|Hn];
    [|split; lra].
  num_norm. rewrite Nat2Z_add_ofNat.
  pose proof (ofNat_nonneg (winningTrades st)) as Hw.
  pose proof (ofNat_nonneg (losingTrades st)) as Hl.
  assert (Hsum : 0 < ofNat (winningTrades st) + ofNat (losingTrades st)).
  { rewrite <- Nat2Z_add_ofNat.
    pose proof (ofNat_pos _ Hn). lra. }
  split.
  - apply Qmult_le_0_compat; [|lra]. apply Qle_shift_div_l; lra.
  - assert (ofNat (winningTrades st)
            / (ofNat (winningTrades st) + ofNat (losingTrades st)) <= 1); [|lra].
    apply Qle_shift_div_r; lra.
Qed.

Lemma backtest_statistics_in_range_witness :
  0 < initialCapital Samples.defaultConfig /\
  0 <= positionSizePercent Samples.defaultConfig <= 100 /\
  0 <= takeProfitPercent Samples.defaultConfig /\
  Forall (fun c => 0 < TA.low c /\ 0 < TA.close c) (toCandles (Samples.falling 52)) /\
  0 <= Result.maxDrawdown (Samples.fallingRun Samples.defaultConfig) <= 100 /\
  Result.maxDrawdown (Samples.fallingRun Samples.defaultConfig) == 10 # 149.
Proof.
  assert (H1 : 0 < initialCapital Samples.defaultConfig) by (simpl; lra).
  assert (H2 : 0 <= positionSizePercent Samples.defaultConfig <= 100)
    by (simpl; lra).
  assert (H3 : 0 <= takeProfitPercent Samples.defaultConfig) by (simpl; lra).
  assert (H4 : Forall (fun c => 0 < TA.low c /\ 0 < TA.close c)
                      (toCandles (Samples.falling 52))).
  { apply Forall_forall. intros c Hc.
    assert (Hb : forallb (fun c => ltb 0 (TA.low c) && ltb 0 (TA.close c))
                         (toCandles (Samples.falling 52)) = true)
      by (vm_compute; reflexivity).
    pose proof (proj1 (forallb_forall _ _) Hb c Hc) as Hx.
    apply andb_true_iff in Hx. destruct Hx as [Ha Hb'].
    apply ltb_lt in Ha. apply ltb_lt in Hb'. split; assumption. }
  split; [exact H1|]. split; [exact H2|]. split; [exact H3|]. split; [exact H4|].
  split.
  - exact (proj1 (backtest_statistics_in_range sqrtApprox
                    (toCandles (Samples.falling 52)) _ _ _ Samples.defaultConfig
                    H1 H2 H3 H4)).
  - vm_compute. reflexivity.
Defined.

End RouteInvariants.

(** ** The store's MACD and backtest *)

Module StoreRunFacts.
Import Num Arr NumFacts ArrFacts Store.
Local Open Scope nat_scope.

Lemma lift2_NaN_l f b : lift2 f NaN b = NaN.
Proof. reflexivity. Qed.

Lemma lift2_NaN_r f a : lift2 f a NaN = NaN.
Proof. destruct a; reflexivity. Qed.

(** X17.  The store's [calculateMACD] never signals: on fewer than 35
    closes it returns nulls with a NEUTRAL result, and on 35 closes or more
    its MACD value, signal line and histogram are all NaN, so that the
    result is NEUTRAL with strength 0 again. *)
Theorem store_calculateMACD_never_signals (closes : list number) :
  fst (fst (result (calculateMACD closes 12 26 9))) = NEUTRAL /\
  snd (result (calculateMACD closes 12 26 9)) = Fin 0%Q /\
  (length closes < 35 ->
   macd (calculateMACD closes 12 26 9) = None /\
   signalLine (calculateMACD closes 12 26 9) = None /\
   histogram (calculateMACD closes 12 26 9) = None) /\
  (35 <= length closes ->
   macd (calculateMACD closes 12 26 9) = Some NaN /\
   signalLine (calculateMACD closes 12 26 9) = Some NaN /\
   histogram (calculateMACD closes 12 26 9) = Some NaN).
Proof.
  unfold calculateMACD.
  destruct (Nat.ltb_spec (length closes) (26 + 9)) as [Hlt|Hge].
  { simpl. split; [reflexivity|]. split; [reflexivity|].
    split; [intros _; auto|intro; lia]. }
  cbv zeta.
  destruct (StoreMacdFacts.macdLineOf_ends_in_NaN closes) as [line [-> Hl]]; [lia|].
  assert (Hlast : operandN (line ++ [NaN]) (length (line ++ [NaN]) - 1) = NaN).
  { unfold operandN. rewrite length_app. simpl.
    replace (length line + 1 - 1) with (length line) by lia.
    apply nth_middle. }
  assert (Hseq : seq 9 (length (line ++ [NaN]) - 9)
                 = seq 9 (length line - 9) ++ [length line]).
  { rewrite length_app. simpl.
    replace (length line + 1 - 9) with (S (length line - 9)) by lia.
    rewrite seq_S. f_equal. f_equal. lia. }
  rewrite Hseq, fold_left_app. cbn [fold_left].
  replace (operandN (line ++ [NaN]) (length line)) with NaN
    by (unfold operandN; symmetry; apply nth_middle).
  rewrite Hlast. cbn [lift2 test2 andb fst snd result macd signalLine histogram].
  split; [reflexivity|]. split; [reflexivity|].
  split; [intro; lia|intros _; auto].
Qed.

(** The state in which the store's backtest starts. *)
Definition startState (initialCapital : number) : State :=
  mkState initialCapital 0%Q [] initialCapital 0%Q [].

Lemma step_keeps_start data rsiOversold rsiOverbought initialCapital i :
  50 <= i <= length data ->
  step data rsiOversold rsiOverbought (startState initialCapital) i
  = startState initialCapital.
Proof.
  intro Hi. unfold step. cbv zeta.
  assert (Hlen : 35 <= length (map close (slice data 0 i))).
  { rewrite length_map. unfold slice. rewrite length_firstn. simpl. lia. }
  destruct (StoreMacdFacts.calculateMACD_is_NaN _ Hlen) as [_ Hh].
  unfold decide, trackDrawdown, startState. cbv zeta. rewrite Hh.
  cbn [position histogramAbove0 histogramBelow0].
  rewrite andb_false_r.
  change (gtb 0%Q 0%Q) with false. cbn [andb].
  cbn [position capital maxCapital maxDrawdown trades returns].
  change (gtb 0%Q 0%Q) with false. cbv iota.
  assert (E1 : gtb initialCapital initialCapital = false)
    by (apply gtb_le; apply Qle_refl).
  rewrite E1.
  assert (E2 : gtb (div (sub initialCapital initialCapital) initialCapital) 0%Q = false).
  { apply gtb_le. rewrite div_eq, sub_eq.
    assert (E : (initialCapital - initialCapital == 0)%Q) by lra.
    rewrite E. unfold Qdiv. rewrite Qmult_0_l. apply Qle_refl. }
  rewrite E2. reflexivity.
Qed.

Lemma simulate_keeps_start data initialCapital rsiOversold rsiOverbought upto :
  upto <= length data ->
  simulate data initialCapital rsiOversold rsiOverbought upto = startState initialCapital.
Proof.
  intro Hu. unfold simulate. fold (startState initialCapital).
  assert (Hidx : Forall (fun i => 50 <= i <= length data) (seq 50 (upto - 50))).
  { apply Forall_forall. intros i Hi. apply in_seq in Hi. lia. }
  induction Hidx as [|i l Hi Hl IH]; simpl; [reflexivity|].
  rewrite step_keeps_start by assumption. exact IH.
Qed.

(** X18.  The store's backtest never trades: whatever the series and the
    thresholds, the trade log is empty, all trade counts, the win rate, the
    Sharpe ratio and the maximum drawdown are 0, and the total return is 0;
    for a non-zero initial capital the return percentage is 0 too. *)
Theorem store_runBacktest_is_idle
  (sqrt : number -> number) (data : list OHLCVData)
  (initialCapital rsiOversold rsiOverbought : number) :
  let r := runBacktest sqrt data initialCapital rsiOversold rsiOverbought in
  resultTrades r = [] /\
  totalTrades r = 0 /\ winningTrades r = 0 /\ losingTrades r = 0 /\
  winRate r = 0%Q /\ sharpeRatio r = 0%Q /\
  (maxDrawdownPercent r == 0)%Q /\
  (totalReturn r == 0)%Q /\
  (~ (initialCapital == 0)%Q -> (totalReturnPercent r == 0)%Q).
Proof.
  intro r. subst r. unfold runBacktest.
  destruct (length data <? 50).
  { simpl. repeat split; try reflexivity. }
  cbv zeta.
  rewrite (simulate_keeps_start data initialCapital rsiOversold rsiOverbought
             (length data) (le_n _)).
  unfold startState.
  cbn [position capital trades returns maxDrawdown filter combine map length
       resultTrades totalTrades winningTrades losingTrades winRate sharpeRatio
       maxDrawdownPercent totalReturn totalReturnPercent Nat.add Nat.ltb Nat.leb].
  replace (gtb 0%Q 0%Q) with false by reflexivity.
  repeat split; try reflexivity.
  - rewrite sub_eq. lra.
  - intro Hne. rewrite mul_eq, div_eq, sub_eq. field. assumption.
Qed.

Lemma store_calculateMACD_never_signals_witness :
  35 <= length (Samples.rising 40) /\
  histogram (calculateMACD (Samples.rising 40) 12 26 9) = Some NaN.
Proof.
  assert (H : 35 <= length (Samples.rising 40)) by (vm_compute; lia).
  split; [exact H|].
  exact (proj2 (proj2 (proj2 (proj2 (proj2
           (store_calculateMACD_never_signals (Samples.rising 40)))) H))).
Defined.

Lemma store_runBacktest_is_idle_witness :
  ~ (10000 == 0)%Q /\
  (totalReturnPercent
     (runBacktest sqrtApprox
        (map (fun c => mkOHLCV (TA.timestamp c) (TA.open c) (TA.high c) (TA.low c)
                               (TA.close c) (TA.volume c))
             (Samples.falling 52))
        10000%Q 30%Q 70%Q) == 0)%Q.
Proof.
  assert (H : ~ (10000 == 0)%Q) by (intro E; discriminate E).
  split; [exact H|].
  exact (proj2 (proj2 (proj2 (proj2 (proj2 (proj2 (proj2 (proj2
           (store_runBacktest_is_idle sqrtApprox _ 10000%Q 30%Q 70%Q)))))))) H).
Defined.

End StoreRunFacts.

(** ** The store's single-value indicators *)

Module StoreIndicatorFacts.
Import Num Arr NumFacts ArrFacts Store.
Local Open Scope Q_scope.

(** The zigzag sample as rows of the store. *)
Definition zigzagData : list OHLCVData :=
  map (fun c => mkOHLCV (TA.timestamp c) (TA.open c) (TA.high c) (TA.low c)
                        (TA.close c) (TA.volume c))
      Samples.zigzag.

Ltac num_norm :=
  repeat (rewrite add_eq || rewrite sub_eq || rewrite mul_eq || rewrite div_eq).

Lemma round_range (x : number) (n : Z) :
  0 <= x -> x <= inject_Z n -> 0 <= round x <= inject_Z n.
Proof.
  intros H0 Hn. unfold round.
  assert (Hlo : (Qfloor (1 # 2) <= Qfloor (x + (1 # 2)))%Z).
  { apply Qfloor_resp_le. lra. }
  change (Qfloor (1 # 2)) with 0%Z in Hlo.
  assert (Hhi : (Qfloor (x + (1 # 2)) < n + 1)%Z).
  { rewrite Zlt_Qlt. pose proof (Qfloor_le (x + (1 # 2))) as Hf.
    rewrite inject_Z_plus. change (inject_Z 1) with 1. lra. }
  assert (Hhi' : (Qfloor (x + (1 # 2)) <= n)%Z) by lia.
  rewrite Zle_Qle in Hlo, Hhi'. split; [exact Hlo|exact Hhi'].
Qed.

Lemma scaled_range (a c k : Q) :
  0 < c -> 0 <= k -> 0 <= a <= c -> 0 <= a / c * k <= k.
Proof.
  intros Hc Hk [Ha1 Ha2].
  assert (H1 : 0 <= a / c) by (apply Qle_shift_div_l; lra).
  assert (H2 : a / c <= 1) by (apply Qle_shift_div_r; lra).
  split; nra.
Qed.

(** X19.  For a period of at least 1 the strength of the store's RSI
    result lies between 0 and 100, and its signal follows the value: BUY
    exactly when the value is below 40, SELL exactly when it is above 60,
    NEUTRAL in between. *)
Theorem store_calculateRSI_signal (closes : list number) (period : nat) :
  (1 <= period)%nat ->
  let r := calculateRSI closes period in
  0 <= strength r <= 100 /\
  (signal r = BUY <-> value r < 40) /\
  (signal r = SELL <-> 60 < value r) /\
  (signal r = NEUTRAL <-> 40 <= value r <= 60).
Proof.
  intros Hp r.
  cut (0 <= value r <= 100 /\ 0 <= strength r <= 100 /\
       (signal r = BUY <-> value r < 40) /\ (signal r = SELL <-> 60 < value r)).
  { intros [_ [Hs [Hb Hsell]]]. split; [assumption|]. split; [assumption|].
    split; [assumption|]. destruct Hb as [Hb1 Hb2]. destruct Hsell as [Hs1 Hs2].
    split.
    - intro Hn. split.
      + destruct (Qlt_le_dec (value r) 40) as [Hlt|]; [|assumption].
        specialize (Hb2 Hlt). congruence.
      + destruct (Qlt_le_dec 60 (value r)) as [Hlt|]; [|assumption].
        specialize (Hs2 Hlt). congruence.
    - intros [H1 H2]. destruct (signal r) eqn:E; [| |reflexivity].
      + specialize (Hb1 eq_refl). lra.
      + specialize (Hs1 eq_refl). lra. }
  subst r. unfold calculateRSI.
  destruct (Nat.ltb _ _).
  { simpl. repeat split; try lra; try discriminate; intro; lra. }
  cbv zeta.
  pose proof (RsiFacts.smoothedAverages_nonneg closes period
                (length (changesOf closes)) Hp) as Hnn.
  destruct (smoothedAverages _ _ _) as [avgGain avgLoss].
  destruct Hnn as [Hg Hl]. simpl in Hg, Hl.
  destruct (eqb avgLoss 0) eqn:Ez.
  { simpl. repeat split; try lra; try discriminate; try reflexivity; intro; lra. }
  apply eqb_neq in Ez.
  assert (Hlpos : 0 < avgLoss).
  { destruct (Qlt_le_dec 0 avgLoss) as [|Hle]; [assumption|].
    exfalso. apply Ez. lra. }
  set (rsi := sub 100 (div 100 (add 1 (div avgGain avgLoss)))).
  assert (Hr : 0 <= rsi < 100).
  { subst rsi. num_norm.
    assert (Hrs : 0 <= avgGain / avgLoss) by (apply Qle_shift_div_l; lra).
    assert (H1 : 0 < 100 / (1 + avgGain / avgLoss)).
    { apply Qlt_shift_div_l; lra. }
    assert (H2 : 100 / (1 + avgGain / avgLoss) <= 100).
    { apply Qle_shift_div_r; lra. }
    lra. }
  destruct Hr as [Hr0 Hr1]. clearbody rsi.
  assert (R : forall a c k, 0 < c -> 0 <= k <= 100 -> 0 <= a <= c ->
                            0 <= round (mul (div a c) k) <= 100).
  { intros a c k Hc [Hk1 Hk2] Ha.
    pose proof (scaled_range a c k Hc Hk1 Ha) as [S1 S2].
    apply (round_range _ 100); [|change (inject_Z 100) with 100]; num_norm; lra. }
  destruct (ltb rsi 30) eqn:E1.
  { apply ltb_lt in E1. cbn [value signal strength].
    split; [lra|]. split.
    - apply R; try lra. rewrite sub_eq. lra.
    - split; split; try discriminate; try reflexivity; intro; lra. }
  apply ltb_ge in E1.
  destruct (gtb rsi 70) eqn:E2.
  { apply gtb_gt in E2. cbn [value signal strength].
    split; [lra|]. split.
    - apply R; try lra. rewrite sub_eq. lra.
    - split; split; try discriminate; try reflexivity; intro; lra. }
  apply gtb_le in E2.
  destruct (ltb rsi 40) eqn:E3.
  { apply ltb_lt in E3. cbn [value signal strength].
    split; [lra|]. split.
    - apply R; try lra. rewrite sub_eq. lra.
    - split; split; try discriminate; try reflexivity; intro; lra. }
  apply ltb_ge in E3.
  destruct (gtb rsi 60) eqn:E4.
  { apply gtb_gt in E4. cbn [value signal strength].
    split; [lra|]. split.
    - apply R; try lra. rewrite sub_eq. lra.
    - split; split; try discriminate; try reflexivity; intro; lra. }
  apply gtb_le in E4. cbn [value signal strength].
  split; [lra|]. split; [lra|].
  split; split; try discriminate; intro; lra.
Qed.

Lemma store_calculateRSI_signal_witness :
  (1 <= 14)%nat /\
  0 <= strength (calculateRSI (21 :: 22 :: rev (Samples.rising 20)) 14) <= 100 /\
  signal (calculateRSI (21 :: 22 :: rev (Samples.rising 20)) 14) = BUY.
Proof.
  assert (H : (1 <= 14)%nat) by lia.
  split; [exact H|]. split.
  - exact (proj1 (store_calculateRSI_signal
                    (21 :: 22 :: rev (Samples.rising 20)) 14 H)).
  - vm_compute. reflexivity.
Defined.

(** *** ATR *)

Lemma max3_ge a b c : a <= max3 a b c /\ b <= max3 a b c /\ c <= max3 a b c.
Proof.
  unfold max3. cbv zeta.
  destruct (gtb b a) eqn:E1; [apply gtb_gt in E1|apply gtb_le in E1];
    match goal with |- context [gtb c ?m] => destruct (gtb c m) eqn:E2 end;
    try apply gtb_gt in E2; try apply gtb_le in E2; repeat split; lra.
Qed.

Lemma trueRangesOf_length data : length (trueRangesOf data) = (length data - 1)%nat.
Proof. unfold trueRangesOf. rewrite length_map, length_seq. reflexivity. Qed.

Lemma trueRangesOf_nonneg data : Forall (fun t => 0 <= t) (trueRangesOf data).
Proof.
  unfold trueRangesOf. apply Forall_forall. intros t Ht.
  apply in_map_iff in Ht. destruct Ht as [i [<- _]]. cbv beta zeta.
  match goal with
  | |- 0 <= max3 ?a (abs ?b) ?c =>
      pose proof (max3_ge a (abs b) c) as [_ [H _]]; pose proof (abs_nonneg b)
  end.
  lra.
Qed.

Lemma sum_lower (lo : number) (l : list number) :
  Forall (fun t => lo <= t) l -> ofNat (length l) * lo <= sum l.
Proof.
  induction 1 as [|x l Hx Hl IH].
  - change (0 * lo <= 0). lra.
  - rewrite AverageFacts.sum_cons. cbn [length]. rewrite AverageFacts.ofNat_S. lra.
Qed.

Lemma slice_0_length {A} (l : list A) n :
  (n <= length l)%nat -> length (slice l 0 n) = n.
Proof.
  intro H. unfold slice. rewrite Nat.sub_0_r, skipn_O, length_firstn. lia.
Qed.

(** The smoothing loop of the ATR keeps the average on the side of a bound
    that all true ranges respect. *)
Lemma atr_bounded (P : number -> Prop) (trueRanges : list number) (period : nat) :
  (1 <= period)%nat -> (period <= length trueRanges)%nat ->
  Forall P trueRanges ->
  (forall l, length l = period -> Forall P l -> P (div (sum l) (ofNat period))) ->
  (forall a t, P a -> P t ->
               P (div (add (mul a (sub (ofNat period) 1)) t) (ofNat period))) ->
  P (fold_left (fun atr i =>
                  div (add (mul atr (sub (ofNat period) 1)) (nth i trueRanges 0))
                      (ofNat period))
               (seq period (length trueRanges - period))
               (div (sum (slice trueRanges 0 period)) (ofNat period))).
Proof.
  intros Hp Hlen Hall Hmean Hstep.
  assert (Hidx : Forall (fun i => (i < length trueRanges)%nat)
                        (seq period (length trueRanges - period))).
  { apply Forall_forall. intros i Hi. apply in_seq in Hi. lia. }
  assert (H0 : P (div (sum (slice trueRanges 0 period)) (ofNat period))).
  { apply Hmean; [apply slice_0_length; assumption|apply Forall_slice; assumption]. }
  revert H0. generalize (div (sum (slice trueRanges 0 period)) (ofNat period)).
  induction Hidx as [|i l Hi Hl IH]; intros a Ha; simpl; [assumption|].
  apply IH. apply Hstep; [assumption|].
  revert Hall. rewrite Forall_forall. intro Hall. apply Hall, nth_In. assumption.
Qed.

(** X20.  For a period of at least 1 the store's ATR is null exactly when
    there are fewer than [period + 1] candles, and otherwise it is not
    negative: it is an average of true ranges, each the largest of three
    values of which two are absolute values. *)
Theorem store_calculateATR_nonneg (data : list OHLCVData) (period : nat) :
  (1 <= period)%nat ->
  match calculateATR data period with
  | None => (length data < period + 1)%nat
  | Some atr => (period + 1 <= length data)%nat /\ 0 <= atr
  end.
Proof.
  intro Hp. unfold calculateATR.
  destruct (Nat.ltb_spec (length data) (period + 1)) as [Hlt|Hge]; [assumption|].
  cbv zeta. split; [assumption|].
  pose proof (ofNat_pos period Hp) as Hq.
  assert (Hlen : (period <= length (trueRangesOf data))%nat)
    by (rewrite trueRangesOf_length; lia).
  apply (atr_bounded (fun x => 0 <= x)); try assumption.
  - apply trueRangesOf_nonneg.
  - intros l Hl Hf. num_norm. apply Qle_shift_div_l; [lra|].
    pose proof (sum_lower 0 l Hf) as Hs. rewrite Hl in Hs. lra.
  - intros a t Ha Ht. num_norm. apply Qle_shift_div_l; [lra|]. nra.
Qed.

(** The theorem on the 25 rows of the zigzag sample with period 14. *)
Lemma store_calculateATR_nonneg_witness :
  (1 <= 14)%nat /\
  (14 + 1 <= length zigzagData)%nat /\
  match calculateATR zigzagData 14 with
  | Some atr => 0 <= atr
  | None => False
  end.
Proof.
  assert (H : (1 <= 14)%nat) by lia.
  split; [exact H|]. split; [vm_compute; lia|].
  pose proof (store_calculateATR_nonneg zigzagData 14 H) as G.
  destruct (calculateATR zigzagData 14) as [atr|].
  - exact (proj2 G).
  - vm_compute in G. lia.
Defined.

(** *** Support and resistance *)

(** No two entries are equal as numbers. *)
Fixpoint distinct (l : list number) : Prop :=
  match l with
  | [] => True
  | x :: r => Forall (fun y => ~ y == x) r /\ distinct r
  end.

Lemma distinct_filter f l : distinct l -> distinct (filter f l).
Proof.
  induction l as [|x l IH]; simpl; [auto|]. intros [Hx Hl].
  destruct (f x); simpl; [split|]; auto.
  apply Forall_forall. intros y Hy. apply filter_In in Hy. destruct Hy as [Hy _].
  revert y Hy. apply Forall_forall. assumption.
Qed.

Lemma uniqueValues_distinct l : distinct (uniqueValues l).
Proof.
  induction l as [|x l IH]; simpl; [exact I|]. split.
  - apply Forall_forall. intros y Hy. apply filter_In in Hy. destruct Hy as [_ Hy].
    apply negb_true_iff, eqb_neq in Hy. assumption.
  - apply distinct_filter. assumption.
Qed.

Lemma uniqueValues_In l x : In x (uniqueValues l) -> In x l.
Proof.
  induction l as [|a l IH]; simpl; [auto|].
  intros [->|H]; [auto|]. apply filter_In in H. destruct H as [H _]. auto.
Qed.

Lemma uniqueValues_complete l x :
  In x l -> exists u, In u (uniqueValues l) /\ u == x.
Proof.
  induction l as [|a l IH]; simpl; [intros []|].
  intros [->|H].
  - exists x. split; [auto|reflexivity].
  - destruct (IH H) as [u [Hu Hux]].
    destruct (eqb u a) eqn:E.
    + apply eqb_eq in E. exists a. split; [auto|]. rewrite <- E. assumption.
    + exists u. split; [|assumption]. right. apply filter_In.
      split; [assumption|]. rewrite E. reflexivity.
Qed.

Section StrictSorting.
Context (cmp : number -> number -> number) (R : number -> number -> Prop).
Hypothesis R_first : forall x y, ~ y == x -> leb (cmp x y) 0 = true -> R x y.
Hypothesis R_second : forall x y, leb (cmp x y) 0 = false -> R y x.
Hypothesis R_trans : forall x y z, R x y -> R y z -> R x z.

Lemma insertSorted_strict x l :
  Forall (fun y => ~ y == x) l ->
  StronglySorted R l -> StronglySorted R (insertSorted cmp x l).
Proof.
  intros Hx Hs. induction Hs as [|z l Hl IH Hz]; simpl.
  - constructor; constructor.
  - inversion Hx as [|? ? Hzx Hlx]; subst.
    destruct (leb (cmp x z) 0) eqn:E.
    + constructor; [constructor; assumption|].
      constructor; [apply R_first; assumption|].
      revert Hz. apply Forall_impl. intros w Hw.
      eapply R_trans; [apply R_first|]; eassumption.
    + constructor; [apply IH; assumption|].
      apply Forall_forall. intros w Hw. apply SortFacts.insertSorted_In in Hw.
      destruct Hw as [->|Hw]; [apply R_second; assumption|].
      revert w Hw. apply Forall_forall. assumption.
Qed.

Lemma sortBy_strict l : distinct l -> StronglySorted R (sortBy cmp l).
Proof.
  induction l as [|x l IH]; simpl; [constructor|]. intros [Hx Hl].
  apply insertSorted_strict; [|apply IH; assumption].
  apply Forall_forall. intros y Hy. apply SortFacts.sortBy_In in Hy.
  revert y Hy. apply Forall_forall. assumption.
Qed.

End StrictSorting.

Lemma sorted_app {A} (R : A -> A -> Prop) l1 l2 :
  StronglySorted R (l1 ++ l2) ->
  StronglySorted R l1 /\ forall a b, In a l1 -> In b l2 -> R a b.
Proof.
  induction l1 as [|x l1 IH]; simpl; intro H.
  - split; [constructor|]. intros a b [].
  - inversion H as [|? ? Hs Hx]; subst. destruct (IH Hs) as [H1 H2].
    split.
    + constructor; [assumption|].
      apply Forall_forall. intros y Hy.
      revert Hx. rewrite Forall_forall. intro Hx. apply Hx, in_or_app. auto.
    + intros a b [<-|Ha] Hb; [|auto].
      revert Hx. rewrite Forall_forall. intro Hx. apply Hx, in_or_app. auto.
Qed.

(** The first [n] of a strictly sorted list of the distinct values of
    [levels]: sorted, drawn from [levels], and missing a level only when
    full, with all entries before it in the order. *)
Lemma top_levels (cmp : number -> number -> number) (R : number -> number -> Prop)
  (levels : list number) (n : nat) :
  (forall x y, ~ y == x -> leb (cmp x y) 0 = true -> R x y) ->
  (forall x y, leb (cmp x y) 0 = false -> R y x) ->
  (forall x y z, R x y -> R y z -> R x z) ->
  let top := firstn n (sortBy cmp (uniqueValues levels)) in
  (length top <= n)%nat /\
  StronglySorted R top /\
  (forall v, In v top -> In v levels) /\
  (forall x, In x levels ->
             (exists v, In v top /\ v == x) \/
             (length top = n /\ exists u, u == x /\ forall v, In v top -> R v u)).
Proof.
  intros R1 R2 R3 top.
  pose proof (sortBy_strict cmp R R1 R2 R3 _ (uniqueValues_distinct levels)) as Hs.
  rewrite <- (firstn_skipn n (sortBy cmp (uniqueValues levels))) in Hs.
  apply sorted_app in Hs. fold top in Hs. destruct Hs as [Hs Hcross].
  split; [apply firstn_le_length|]. split; [assumption|]. split.
  - intros v Hv. apply In_firstn, SortFacts.sortBy_In, uniqueValues_In in Hv.
    assumption.
  - intros x Hx. destruct (uniqueValues_complete levels x Hx) as [u [Hu Hux]].
    apply (SortFacts.sortBy_In cmp) in Hu.
    rewrite <- (firstn_skipn n (sortBy cmp (uniqueValues levels))) in Hu.
    apply in_app_or in Hu. destruct Hu as [Hu|Hu].
    + left. exists u. auto.
    + right. split.
      * subst top. rewrite length_firstn. apply Nat.min_l.
        destruct (Nat.le_gt_cases n (length (sortBy cmp (uniqueValues levels))))
          as [|Hlt]; [assumption|].
        rewrite skipn_all2 in Hu by lia. destruct Hu.
      * exists u. split; [assumption|]. intros v Hv. apply Hcross; assumption.
Qed.

Lemma localLevels_In (f : OHLCVData -> number) (test : nat -> bool)
  (data : list OHLCVData) v :
  In v (map (fun i => f (nth i data noData))
            (filter test (seq 2 (length data - 4)))) <->
  exists i, (2 <= i < length data - 2)%nat /\ test i = true /\
            v = f (nth i data noData).
Proof.
  rewrite in_map_iff. split.
  - intros [i [<- Hi]]. apply filter_In in Hi. destruct Hi as [Hi Ht].
    apply in_seq in Hi. exists i. split; [lia|]. auto.
  - intros [i [Hi [Ht ->]]]. exists i. split; [reflexivity|].
    apply filter_In. split; [|assumption]. apply in_seq. lia.
Qed.

(** X21.  The store's support levels are at most three lows of local-low
    candles, strictly descending, and they are the highest such lows: a
    local low that is missing finds three entries above it.  The
    resistance levels are, likewise, the at most three lowest highs of
    local-high candles, strictly ascending. *)
Theorem store_support_resistance_levels (data : list OHLCVData) :
  let sr := calculateSupportResistance data in
  ((length (support sr) <= 3)%nat /\
   StronglySorted (fun a b => b < a) (support sr) /\
   (forall v, In v (support sr) ->
      exists i, (2 <= i < length data - 2)%nat /\ isLocalLow data i = true /\
                v = low (nth i data noData)) /\
   (forall i, (2 <= i < length data - 2)%nat -> isLocalLow data i = true ->
      (exists v, In v (support sr) /\ v == low (nth i data noData)) \/
      (length (support sr) = 3%nat /\
       forall v, In v (support sr) -> low (nth i data noData) < v)))
  /\
  ((length (resistance sr) <= 3)%nat /\
   StronglySorted (fun a b => a < b) (resistance sr) /\
   (forall v, In v (resistance sr) ->
      exists i, (2 <= i < length data - 2)%nat /\ isLocalHigh data i = true /\
                v = high (nth i data noData)) /\
   (forall i, (2 <= i < length data - 2)%nat -> isLocalHigh data i = true ->
      (exists v, In v (resistance sr) /\ v == high (nth i data noData)) \/
      (length (resistance sr) = 3%nat /\
       forall v, In v (resistance sr) -> v < high (nth i data noData)))).
Proof.
  intro sr. subst sr. unfold calculateSupportResistance.
  destruct (Nat.ltb_spec (length data) 5) as [Hlt|Hge].
  { simpl. split; (split; [lia|]; split; [constructor|]; split;
      [intros v []|intros i Hi; lia]). }
  cbv zeta. cbn [support resistance]. split.
  - destruct (top_levels (fun a b => sub b a) (fun a b => b < a)
                (map (fun i => low (nth i data noData))
                     (filter (isLocalLow data) (seq 2 (length data - 4)))) 3)
      as [H1 [H2 [H3 H4]]].
    + intros x y Hne H. apply leb_le in H. rewrite sub_eq in H.
      destruct (Qlt_le_dec y x) as [|Hle]; [assumption|].
      exfalso. apply Hne. lra.
    + intros x y H. apply leb_gt in H. rewrite sub_eq in H. lra.
    + intros x y z Hxy Hyz. lra.
    + split; [assumption|]. split; [assumption|]. split.
      * intros v Hv. apply H3 in Hv. apply localLevels_In in Hv. assumption.
      * intros i Hi Ht.
        destruct (H4 (low (nth i data noData))) as [Hin|[Hlen [u [Hu Hall]]]].
        { apply localLevels_In. exists i. auto. }
        { left. assumption. }
        { right. split; [assumption|]. intros v Hv. rewrite <- Hu. auto. }
  - destruct (top_levels (fun a b => sub a b) (fun a b => a < b)
                (map (fun i => high (nth i data noData))
                     (filter (isLocalHigh data) (seq 2 (length data - 4)))) 3)
      as [H1 [H2 [H3 H4]]].
    + intros x y Hne H. apply leb_le in H. rewrite sub_eq in H.
      destruct (Qlt_le_dec x y) as [|Hle]; [assumption|].
      exfalso. apply Hne. lra.
    + intros x y H. apply leb_gt in H. rewrite sub_eq in H. lra.
    + intros x y z Hxy Hyz. lra.
    + split; [assumption|]. split; [assumption|]. split.
      * intros v Hv. apply H3 in Hv. apply localLevels_In in Hv. assumption.
      * intros i Hi Ht.
        destruct (H4 (high (nth i data noData))) as [Hin|[Hlen [u [Hu Hall]]]].
        { apply localLevels_In. exists i. auto. }
        { left. assumption. }
        { right. split; [assumption|]. intros v Hv. rewrite <- Hu. auto. }
Qed.

Lemma store_support_resistance_levels_witness :
  support (calculateSupportResistance zigzagData) = [18; 16] /\
  resistance (calculateSupportResistance zigzagData) = [23; 25] /\
  StronglySorted (fun a b => b < a) (support (calculateSupportResistance zigzagData)).
Proof.
  split; [vm_compute; reflexivity|]. split; [vm_compute; reflexivity|].
  exact (proj1 (proj2 (proj1 (store_support_resistance_levels zigzagData)))).
Defined.

End StoreIndicatorFacts.

(** ** Volume analysis *)

Module VolumeFacts.
Import Num Arr NumFacts ArrFacts TechnicalAnalysis.
Local Open Scope Q_scope.

Lemma elem_le_sum (l : list number) (x : number) :
  Forall (fun v => 0 <= v) l -> In x l -> x <= sum l.
Proof.
  induction 1 as [|y l Hy Hl IH]; intros Hx; [destruct Hx|].
  rewrite AverageFacts.sum_cons. pose proof (sum_nonneg l Hl) as Hs.
  destruct Hx as [->|Hx]; [lra|]. specialize (IH Hx). lra.
Qed.

Lemma window_has_last (l : list number) (period i : nat) :
  (1 <= period)%nat -> (i < length l)%nat ->
  In (nth i l 0) (slice l (i + 1 - period) (i + 1)).
Proof.
  intros Hp Hi. unfold slice.
  set (s := (i + 1 - period)%nat).
  assert (Hs : (s <= i)%nat) by (subst s; lia).
  assert (E : nth i l 0 = nth (i - s) (firstn (i + 1 - s) (skipn s l)) 0).
  { rewrite nth_firstn.
    destruct (Nat.ltb_spec (i - s) (i + 1 - s)) as [_|]; [|lia].
    rewrite nth_skipn. f_equal. lia. }
  rewrite E. apply nth_In. rewrite length_firstn, length_skipn. lia.
Qed.

Lemma sum_of_zeros (l : list number) : Forall (fun v => v == 0) l -> sum l == 0.
Proof.
  induction 1 as [|x l Hx Hl IH]; [reflexivity|].
  rewrite AverageFacts.sum_cons. lra.
Qed.

(** X23.  For a period of at least 1, [analyzeVolume] gives one ratio per
    volume.  A ratio that is not null is the quotient the code computes,
    the volume divided by a moving average that is neither null nor 0; a
    null ratio marks a null or zero moving average.  The ratio is null
    below index [period - 1] and wherever the volumes of the window are all
    0, and when no volume is negative no ratio is negative. *)
Theorem analyzeVolume_ratio (volumes : list number) (period i : nat) :
  (1 <= period)%nat -> (i < length volumes)%nat ->
  let sma := fst (analyzeVolume volumes period) in
  let ratio := snd (analyzeVolume volumes period) in
  length ratio = length volumes /\
  match get ratio i with
  | Some r => exists m, get sma i = Some m /\ ~ m == 0 /\
                        r = div (nth i volumes 0) m
  | None => get sma i = None \/ exists m, get sma i = Some m /\ m == 0
  end /\
  ((i + 1 < period)%nat -> get ratio i = None) /\
  (Forall (fun v => v == 0) (slice volumes (i + 1 - period) (i + 1)) ->
   get ratio i = None) /\
  (Forall (fun v => 0 <= v) volumes ->
   forall r, get ratio i = Some r -> 0 <= r).
Proof.
  intros Hp Hi sma ratio. subst sma ratio. unfold analyzeVolume. cbv zeta.
  cbn [fst snd].
  split; [rewrite length_map, length_seq; reflexivity|].
  rewrite (IndicatorFacts.get_map_seq _ _ _ Hi).
  unfold calculateSMA. rewrite (IndicatorFacts.get_map_seq _ _ _ Hi).
  destruct (Nat.ltb_spec (i + 1) period) as [Hlt|Hge].
  { split; [left; reflexivity|]. split; [reflexivity|]. split; [reflexivity|].
    intros _ r Hr. discriminate Hr. }
  set (window := slice volumes (i + 1 - period) (i + 1)).
  pose proof (ofNat_pos period Hp) as Hq.
  destruct (eqb (div (sum window) (ofNat period)) 0) eqn:E.
  { apply eqb_eq in E. split.
    - right. eexists. split; [reflexivity|assumption].
    - split; [reflexivity|]. split; [reflexivity|].
      intros _ r Hr. discriminate Hr. }
  apply eqb_neq in E. split.
  - eexists. split; [reflexivity|]. split; [assumption|reflexivity].
  - split; [intro; lia|]. split.
    + intro Hz. exfalso. apply E. rewrite div_eq, (sum_of_zeros window Hz).
      unfold Qdiv. lra.
    + intros Hnn r Hr. injection Hr as <-.
      assert (Hw : Forall (fun v => 0 <= v) window)
        by (apply Forall_slice; assumption).
      pose proof (sum_nonneg window Hw) as Hs.
      assert (Hvi : 0 <= nth i volumes 0).
      { revert Hnn. rewrite Forall_forall. intro Hnn. apply Hnn, nth_In.
        assumption. }
      assert (Hm0 : 0 <= div (sum window) (ofNat period))
        by (rewrite div_eq; apply Qle_shift_div_l; lra).
      assert (Hm : 0 < div (sum window) (ofNat period)).
      { destruct (Qlt_le_dec 0 (div (sum window) (ofNat period))) as [|Hle];
          [assumption|].
        exfalso. apply E. lra. }
      rewrite div_eq. apply Qle_shift_div_l; [assumption|]. lra.
Qed.

(** The theorem on the volumes 1, 1, 2, 4, 6 with period 3 at the last
    index, where the average is 4 and the ratio 3/2. *)
Lemma analyzeVolume_ratio_witness :
  (1 <= 3)%nat /\ (4 < length [1; 1; 2; 4; 6])%nat /\
  get (fst (analyzeVolume [1; 1; 2; 4; 6] 3)) 4 = Some 4 /\
  get (snd (analyzeVolume [1; 1; 2; 4; 6] 3)) 4 = Some (3 # 2) /\
  length (snd (analyzeVolume [1; 1; 2; 4; 6] 3)) = length [1; 1; 2; 4; 6] /\
  (Forall (fun v => 0 <= v) [1; 1; 2; 4; 6] ->
   forall r, get (snd (analyzeVolume [1; 1; 2; 4; 6] 3)) 4 = Some r -> 0 <= r).
Proof.
  assert (H1 : (1 <= 3)%nat) by lia.
  assert (H2 : (4 < length [1; 1; 2; 4; 6])%nat) by (simpl; lia).
  split; [exact H1|]. split; [exact H2|].
  split; [vm_compute; reflexivity|]. split; [vm_compute; reflexivity|].
  pose proof (analyzeVolume_ratio [1; 1; 2; 4; 6] 3 4 H1 H2) as H.
  cbv zeta in H. split; [exact (proj1 H)|].
  exact (proj2 (proj2 (proj2 (proj2 H)))).
Defined.

End VolumeFacts.

(** ** The MACD and Bollinger signals *)

Module SignalFacts.
Import Num Arr NumFacts ArrFacts TechnicalAnalysis.
Local Open Scope Q_scope.

(** X24.  [getMACDSignal] is neutral only when the MACD, its signal line or
    its histogram is null.  Otherwise the strength has the sign of the
    histogram, a histogram of 0 counting as bearish, and it reaches 4 or -4
    exactly when the previous histogram is known and lies on the other side
    of 0 or at 0. *)
Theorem getMACDSignal_sign (macd signal histogram prevHistogram : option number) :
  let s := snd (getMACDSignal macd signal histogram prevHistogram) in
  match macd, signal, histogram with
  | Some _, Some _, Some h =>
      (0 < h -> (1 <= s <= 4)%Z) /\
      (h <= 0 -> (-4 <= s <= -1)%Z) /\
      (s = 4%Z <-> exists p, prevHistogram = Some p /\ 0 < h /\ p <= 0) /\
      (s = (-4)%Z <-> exists p, prevHistogram = Some p /\ h < 0 /\ 0 <= p)
  | _, _, _ => s = 0%Z
  end.
Proof.
  intro s. subst s. unfold getMACDSignal.
  destruct macd as [m|]; [|reflexivity].
  destruct signal as [sg|]; [|reflexivity].
  destruct histogram as [h|]; [|reflexivity].
  assert (Plain : forall (P : Z -> Prop),
            (0 < h -> h <= 1 # 2 -> P 1%Z) -> (1 # 2 < h -> P 2%Z) ->
            (h <= 0 -> - (1 # 2) <= h -> P (-1)%Z) -> (h < - (1 # 2) -> P (-2)%Z) ->
            P (snd (if gtb h 0
                    then ("BULLISH"%string, if gtb h (1 # 2) then 2%Z else 1%Z)
                    else ("BEARISH"%string,
                          if ltb h (-1 # 2) then (-2)%Z else (-1)%Z)))).
  { intros P P1 P2 P3 P4.
    destruct (gtb h 0) eqn:E1; [apply gtb_gt in E1|apply gtb_le in E1]; cbn [snd].
    - destruct (gtb h (1 # 2)) eqn:E2; [apply gtb_gt in E2|apply gtb_le in E2]; auto.
    - destruct (ltb h (-1 # 2)) eqn:E2; [apply ltb_lt in E2|apply ltb_ge in E2]; auto. }
  destruct prevHistogram as [p|].
  - destruct (gtb h 0 && leb p 0) eqn:E1.
    { apply andb_true_iff in E1. destruct E1 as [Ea Eb].
      apply gtb_gt in Ea. apply leb_le in Eb. cbn [snd].
      split; [intro; lia|]. split; [intro; lra|]. split.
      - split; [intros _; exists p; auto|reflexivity].
      - split; [discriminate|]. intros [p' [_ [Hh _]]]. lra. }
    destruct (ltb h 0 && geb p 0) eqn:E2.
    { apply andb_true_iff in E2. destruct E2 as [Ea Eb].
      apply ltb_lt in Ea. apply leb_le in Eb. cbn [snd].
      split; [intro; lra|]. split; [intro; lia|]. split.
      - split; [discriminate|]. intros [p' [_ [Hh _]]]. lra.
      - split; [intros _; exists p; auto|reflexivity]. }
    assert (N1 : ~ (0 < h /\ p <= 0)).
    { intros [Ha Hb]. apply gtb_gt in Ha. apply leb_le in Hb.
      rewrite Ha, Hb in E1. discriminate. }
    assert (N2 : ~ (h < 0 /\ 0 <= p)).
    { intros [Ha Hb]. apply ltb_lt in Ha. apply leb_le in Hb.
      unfold geb in E2. rewrite Ha, Hb in E2. discriminate. }
    apply Plain; intros; (split; [intro; try lia; lra|]);
      (split; [intro; try lia; lra|]);
      (split; (split; [discriminate|]); intros [p' [Hp' [Ha Hb]]];
       injection Hp' as <-; tauto).
  - apply Plain; intros; (split; [intro; try lia; lra|]);
      (split; [intro; try lia; lra|]);
      (split; (split; [discriminate|]); intros [p' [Hp' _]]; discriminate).
Qed.

(** X25.  For bands with [lower <= middle <= upper] and [lower < upper],
    [getBollingerSignal] scores -3 exactly above the upper band, 3 exactly
    below the lower band, 1 in the upper half and -1 in the lower half, and
    the position it reports lies between 0 and 1 exactly when the price is
    inside the bands. *)
Theorem getBollingerSignal_position (price u m l : number) :
  l <= m -> m <= u -> l < u ->
  let r := getBollingerSignal price (Some u) (Some m) (Some l) in
  (snd (fst r) = (-3)%Z <-> u < price) /\
  (snd (fst r) = 3%Z <-> price < l) /\
  (snd (fst r) = 1%Z <-> m < price /\ price <= u) /\
  (snd (fst r) = (-1)%Z <-> l <= price /\ price <= m) /\
  (0 <= snd r <= 1 <-> l <= price /\ price <= u).
Proof.
  intros Hlm Hmu Hlu r. subst r. unfold getBollingerSignal. cbv zeta.
  assert (Hpos : 0 <= div (sub price l) (sub u l) <= 1 <-> l <= price /\ price <= u).
  { rewrite div_eq, !sub_eq. split.
    - intros [H0 H1].
      assert (E : price - l == (price - l) / (u - l) * (u - l)).
      { rewrite Qmult_comm. symmetry. apply Qmult_div_r. intro Hz. lra. }
      split; nra.
    - intros [H0 H1]. split.
      + apply Qle_shift_div_l; lra.
      + apply Qle_shift_div_r; lra. }
  destruct (gtb price u) eqn:E1; [apply gtb_gt in E1|apply gtb_le in E1].
  { cbn [fst snd]. repeat split; try discriminate; try reflexivity; try lra;
      try (intros [? ?]; lra); try (intro; lra); apply Hpos; assumption || lra. }
  destruct (ltb price l) eqn:E2; [apply ltb_lt in E2|apply ltb_ge in E2].
  { cbn [fst snd]. repeat split; try discriminate; try reflexivity; try lra;
      try (intros [? ?]; lra); try (intro; lra); apply Hpos; assumption || lra. }
  destruct (gtb price m) eqn:E3; [apply gtb_gt in E3|apply gtb_le in E3].
  { cbn [fst snd]. repeat split; try discriminate; try reflexivity; try lra;
      try (intros [? ?]; lra); try (intro; lra); apply Hpos; split; assumption. }
  cbn [fst snd]. repeat split; try discriminate; try reflexivity; try lra;
    try (intros [? ?]; lra); try (intro; lra); apply Hpos; split; assumption.
Qed.

Lemma getBollingerSignal_position_witness :
  8 <= 10 /\ 10 <= 12 /\ 8 < 12 /\
  (snd (fst (getBollingerSignal 11 (Some 12) (Some 10) (Some 8))) = 1%Z
   <-> 10 < 11 /\ 11 <= 12) /\
  snd (getBollingerSignal 11 (Some 12) (Some 10) (Some 8)) = 3 # 4.
Proof.
  assert (H1 : 8 <= 10) by lra. assert (H2 : 10 <= 12) by lra.
  assert (H3 : 8 < 12) by lra.
  split; [exact H1|]. split; [exact H2|]. split; [exact H3|]. split.
  - exact (proj1 (proj2 (proj2 (getBollingerSignal_position 11 12 10 8 H1 H2 H3)))).
  - vm_compute. reflexivity.
Defined.

End SignalFacts.

(** ** The levels reported by the analysis *)

Module NearestFacts.
Import Num Arr NumFacts ArrFacts SortFacts TechnicalAnalysis.
Local Open Scope Q_scope.

Lemma apart_positive t b merged :
  LevelFacts.apart t b merged -> Forall (fun M => 0 < price M) merged.
Proof.
  induction merged as [|M rest IH]; simpl; [constructor|].
  intros [[Hp _] [_ Hr]]. constructor; [assumption|apply IH; assumption].
Qed.

(** The levels [findSupportResistance] returns for candles with positive
    highs and lows: strictly sorted, at positive prices. *)
Lemma levels_ordered (candles : list CandleData) (lookback : nat) (threshold : number) :
  0 < threshold ->
  Forall (fun c => 0 < low c /\ 0 < high c) candles ->
  let found := findSupportResistance candles lookback threshold in
  (StronglySorted (fun a b => price b < price a) (supports found) /\
   Forall (fun l => 0 < price l) (supports found)) /\
  (StronglySorted (fun a b => price a < price b) (resistances found) /\
   Forall (fun l => 0 < price l) (resistances found)).
Proof.
  intros Ht Hc found. subst found. unfold findSupportResistance.
  destruct (length candles <? 10)%nat; [repeat split; constructor|].
  cbv zeta. cbn [supports resistances].
  set (recentCandles := sliceLast candles lookback).
  set (levels := flat_map (localLevels recentCandles)
                          (seq 2 (length recentCandles - 4))).
  assert (Hpos : Forall (fun x => 0 < price x) levels).
  { apply Forall_forall. intros x Hx. apply in_flat_map in Hx.
    destruct Hx as [i [Hi Hx]]. apply in_seq in Hi.
    assert (Hin : In (nth i recentCandles noCandle) candles).
    { apply (LevelFacts.sliceLast_In _ lookback). apply nth_In.
      fold recentCandles. lia. }
    revert Hc. rewrite Forall_forall. intro Hc. specialize (Hc _ Hin).
    apply LevelFacts.localLevels_price in Hx. destruct Hx as [-> | ->]; tauto. }
  destruct (LevelFacts.mergeLevels_apart threshold Ht levels Hpos) as [b Hap].
  assert (Hmp : forall cmp ty,
             Forall (fun l => 0 < price l)
                    (sortBy cmp (filter (isType ty) (mergeLevels threshold levels)))).
  { intros cmp ty. apply Forall_forall. intros x Hx.
    apply sortBy_In, filter_In in Hx. destruct Hx as [Hx _].
    revert x Hx. apply Forall_forall. eapply apart_positive. eassumption. }
  split; (split; [|apply Hmp]).
  - rewrite sortBy_reversed.
    + apply StronglySorted_rev.
      apply (LevelFacts.apart_filter threshold b _ support Hap).
    + eapply StronglySorted_impl;
        [|apply (LevelFacts.apart_filter threshold b _ support Hap)].
      intros x y H. apply leb_gt. cbv beta in *. rewrite sub_eq. lra.
  - rewrite sortBy_ordered.
    + apply (LevelFacts.apart_filter threshold b _ resistance Hap).
    + eapply StronglySorted_impl;
        [|apply (LevelFacts.apart_filter threshold b _ resistance Hap)].
      intros x y H. apply leb_le. cbv beta in *. rewrite sub_eq. lra.
Qed.

Lemma priceOrNull_positive (o : option PriceLevel) :
  (forall l, o = Some l -> 0 < price l) ->
  priceOrNull o = option_map price o.
Proof.
  intro H. destruct o as [l|]; [|reflexivity]. simpl.
  specialize (H l eq_refl).
  assert (E : eqb (price l) 0 = false) by (apply eqb_neq; intro; lra).
  rewrite E. reflexivity.
Qed.

(** X26.  For candles with positive highs and lows, the first support the
    analysis reports is the highest support level of
    [findSupportResistance] strictly below the last close, and the first
    resistance the lowest resistance level strictly above it; a side is
    null exactly when it has no such level. *)
Theorem analysis_reports_nearest_levels
  (sqrt : number -> number) (candles : list CandleData)
  (ti : Indicators.TechnicalIndicators) :
  Forall (fun c => 0 < low c /\ 0 < high c) candles ->
  performTechnicalAnalysis sqrt candles = Some ti ->
  exists lastCandle, lastOpt candles = Some lastCandle /\
  let found := findSupportResistance candles 100 (2 # 100) in
  match Indicators.support1 (Indicators.supportResistance ti) with
  | Some s =>
      s < close lastCandle /\
      (exists l, In l (supports found) /\ price l = s) /\
      forall l, In l (supports found) -> price l < close lastCandle -> price l <= s
  | None => forall l, In l (supports found) -> close lastCandle <= price l
  end /\
  match Indicators.resistance1 (Indicators.supportResistance ti) with
  | Some r =>
      close lastCandle < r /\
      (exists l, In l (resistances found) /\ price l = r) /\
      forall l, In l (resistances found) -> close lastCandle < price l -> r <= price l
  | None => forall l, In l (resistances found) -> price l <= close lastCandle
  end.
Proof.
  intros Hc H. cbv delta [performTechnicalAnalysis] in H. cbv beta in H.
  ScoreFacts.peel_lets H.
  destruct (lastOpt candles) as [lastCandle|]; [|discriminate].
  ScoreFacts.peel_lets H.
  injection H as <-.
  cbn [Indicators.supportResistance Indicators.support1 Indicators.resistance1].
  exists lastCandle. split; [reflexivity|]. cbv zeta.
  assert (Ht : 0 < 2 # 100) by reflexivity.
  destruct (levels_ordered candles 100 (2 # 100) Ht Hc) as [[Ss Ps] [Sr Pr]].
  subst nearest supportResistance.
  set (found := findSupportResistance candles 100 (2 # 100)) in *.
  unfold getNearestLevels. cbv zeta.
  cbn [nearestSupport nearestResistance].
  pose proof (ScoreFacts.find_first_sorted _
                (fun s => ltb (price s) (close lastCandle)) _ Ss) as Fs.
  pose proof (ScoreFacts.find_first_sorted _
                (fun r => gtb (price r) (close lastCandle)) _ Sr) as Fr.
  clearbody found. split.
  - rewrite priceOrNull_positive.
    + destruct (find _ (supports found)) as [s|]; simpl.
      * destruct Fs as [Fin [Flt Fall]]. apply ltb_lt in Flt.
        split; [assumption|]. split; [exists s; auto|].
        intros l Hin Hlt. apply ltb_lt in Hlt.
        destruct (Fall l Hin Hlt) as [->|Hlt']; lra.
      * intros l Hin. apply ltb_ge. apply Fs. assumption.
    + intros l Hl. apply find_some in Hl. destruct Hl as [Hl _].
      revert l Hl. apply Forall_forall. assumption.
  - rewrite priceOrNull_positive.
    + destruct (find _ (resistances found)) as [r|]; simpl.
      * destruct Fr as [Fin [Flt Fall]]. apply gtb_gt in Flt.
        split; [assumption|]. split; [exists r; auto|].
        intros l Hin Hlt. apply gtb_gt in Hlt.
        destruct (Fall l Hin Hlt) as [->|Hlt']; lra.
      * intros l Hin. apply gtb_le. apply Fr. assumption.
    + intros l Hl. apply find_some in Hl. destruct Hl as [Hl _].
      revert l Hl. apply Forall_forall. assumption.
Qed.

Lemma analysis_reports_nearest_levels_witness :
  Forall (fun c => 0 < low c /\ 0 < high c) Samples.zigzag /\
  exists ti, performTechnicalAnalysis sqrtApprox Samples.zigzag = Some ti /\
             Indicators.support1 (Indicators.supportResistance ti) = Some 18 /\
             Indicators.resistance1 (Indicators.supportResistance ti) = Some 23 /\
             exists lastCandle, lastOpt Samples.zigzag = Some lastCandle.
Proof.
  assert (Hc : Forall (fun c => 0 < low c /\ 0 < high c) Samples.zigzag)
    by (apply LevelFacts.Forall_positive; vm_compute; reflexivity).
  split; [exact Hc|].
  destruct (performTechnicalAnalysis sqrtApprox Samples.zigzag) as [ti|] eqn:E.
  - exists ti. split; [reflexivity|].
    assert (E' := E). vm_compute in E'. injection E' as <-.
    split; [reflexivity|]. split; [reflexivity|].
    destruct (analysis_reports_nearest_levels sqrtApprox Samples.zigzag _ Hc E)
      as [lastCandle [Hl _]].
    exists lastCandle. exact Hl.
  - vm_compute in E. discriminate E.
Defined.

End NearestFacts.

(** ** RSI on one-sided series *)

Module RsiTrendFacts.
Import Num Arr NumFacts ArrFacts TechnicalAnalysis.
Local Open Scope Q_scope.

Ltac num_norm :=
  repeat (rewrite add_eq || rewrite sub_eq || rewrite mul_eq || rewrite div_eq).

Definition neverFalls (closes : list number) : Prop :=
  forall i, (S i < length closes)%nat -> nth i closes 0 <= nth (S i) closes 0.

Definition alwaysFalls (closes : list number) : Prop :=
  forall i, (S i < length closes)%nat -> nth (S i) closes 0 < nth i closes 0.

Lemma change_at closes j :
  (j < length closes - 1)%nat ->
  nth j (Store.changesOf closes) 0 = sub (nth (S j) closes 0) (nth j closes 0).
Proof.
  intro Hj. unfold Store.changesOf.
  set (f := fun i => sub (nth i closes 0) (nth (i - 1) closes 0)).
  rewrite (nth_indep (map f (seq 1 (length closes - 1))) 0 (f 0%nat))
    by (rewrite length_map, length_seq; assumption).
  rewrite (map_nth f), seq_nth by assumption.
  subst f. cbv beta. replace (1 + j - 1)%nat with j by lia. reflexivity.
Qed.

Lemma changes_length closes : length (Store.changesOf closes) = (length closes - 1)%nat.
Proof. unfold Store.changesOf. rewrite length_map, length_seq. reflexivity. Qed.

Lemma neverFalls_changes closes j :
  neverFalls closes -> 0 <= nth j (Store.changesOf closes) 0.
Proof.
  intro H. destruct (Nat.lt_ge_cases j (length closes - 1)) as [Hj|Hj].
  - rewrite change_at by assumption. rewrite sub_eq.
    specialize (H j). assert (S j < length closes)%nat by lia. specialize (H H0). lra.
  - rewrite nth_overflow by (rewrite changes_length; assumption). lra.
Qed.

Lemma alwaysFalls_changes closes j :
  alwaysFalls closes -> (j < length closes - 1)%nat ->
  nth j (Store.changesOf closes) 0 < 0.
Proof.
  intros H Hj. rewrite change_at by assumption. rewrite sub_eq.
  assert (Hs : (S j < length closes)%nat) by lia. specialize (H j Hs). lra.
Qed.

Lemma losses_length closes : length (lossesOf closes) = (length closes - 1)%nat.
Proof. unfold lossesOf. rewrite length_map, length_seq. reflexivity. Qed.

Lemma gains_length closes : length (gainsOf closes) = (length closes - 1)%nat.
Proof. unfold gainsOf. rewrite length_map, length_seq. reflexivity. Qed.

Lemma neverFalls_losses closes :
  neverFalls closes -> Forall (fun x => x == 0) (lossesOf closes).
Proof.
  intro H. apply Forall_forall. intros x Hx.
  apply (In_nth _ _ 0) in Hx. destruct Hx as [j [Hj <-]].
  rewrite RsiSmoothing.loss_at.
  pose proof (neverFalls_changes closes j H) as Hc.
  destruct (ltb _ 0) eqn:E; [apply ltb_lt in E; lra|reflexivity].
Qed.

Lemma alwaysFalls_gains closes :
  alwaysFalls closes -> Forall (fun x => x == 0) (gainsOf closes).
Proof.
  intro H. apply Forall_forall. intros x Hx.
  apply (In_nth _ _ 0) in Hx. destruct Hx as [j [Hj <-]].
  rewrite gains_length in Hj.
  rewrite RsiSmoothing.gain_at.
  pose proof (alwaysFalls_changes closes j H Hj) as Hc.
  destruct (gtb _ 0) eqn:E; [apply gtb_gt in E; lra|reflexivity].
Qed.

Lemma alwaysFalls_losses closes j :
  alwaysFalls closes -> (j < length closes - 1)%nat -> 0 < nth j (lossesOf closes) 0.
Proof.
  intros H Hj. rewrite RsiSmoothing.loss_at.
  pose proof (alwaysFalls_changes closes j H Hj) as Hc.
  assert (E : ltb (nth j (Store.changesOf closes) 0) 0 = true) by (apply ltb_lt; assumption).
  rewrite E. unfold abs. apply Qabs_case; intro; lra.
Qed.

Lemma zeros_sum (l : list number) : Forall (fun x => x == 0) l -> sum l == 0.
Proof.
  induction 1 as [|x l Hx Hl IH]; [reflexivity|].
  rewrite AverageFacts.sum_cons, Hx, IH. lra.
Qed.

Lemma zeros_nth (l : list number) i : Forall (fun x => x == 0) l -> nth i l 0 == 0.
Proof.
  intro H. destruct (Nat.lt_ge_cases i (length l)) as [Hi|Hi].
  - revert H. rewrite Forall_forall. intro H. apply H, nth_In. assumption.
  - rewrite nth_overflow by assumption. reflexivity.
Qed.

(** The average over a list of zeros, seeded or smoothed, is 0. *)
Lemma zeros_average (l : list number) (period i : nat) :
  Forall (fun x => x == 0) l ->
  div (sum (slice l 0 period)) (ofNat period) == 0 /\
  div (add (mul (div (sum (slice l (i - period) i)) (ofNat period))
                (sub (ofNat period) 1))
           (nth (i - 1) l 0))
      (ofNat period) == 0.
Proof.
  intro H.
  assert (Hs : forall s e, sum (slice l s e) == 0)
    by (intros s e; apply zeros_sum, Forall_slice; assumption).
  pose proof (zeros_nth l (i - 1) H) as Hn.
  assert (E0 : forall y, 0 / y == 0) by (intro y; unfold Qdiv; apply Qmult_0_l).
  split.
  - rewrite div_eq, Hs. apply E0.
  - rewrite div_eq, add_eq, mul_eq, div_eq, Hs, Hn, E0, sub_eq.
    assert (E : 0 * (ofNat period - 1) + 0 == 0) by lra.
    rewrite E. apply E0.
Qed.

Lemma rsiOfAverages_flat g l : l == 0 -> rsiOfAverages (g, l) = 100.
Proof.
  intro H. unfold rsiOfAverages. apply eqb_eq in H. rewrite H. reflexivity.
Qed.

Lemma rsiOfAverages_down g l : g == 0 -> 0 < l -> rsiOfAverages (g, l) == 0.
Proof.
  intros Hg Hl. unfold rsiOfAverages.
  assert (E : eqb l 0 = false) by (apply eqb_neq; intro; lra).
  rewrite E. num_norm. rewrite Hg.
  assert (E0 : 0 / l == 0) by (unfold Qdiv; apply Qmult_0_l).
  rewrite E0.
  assert (E1 : 100 / (1 + 0) == 100) by reflexivity.
  rewrite E1. lra.
Qed.

(** X27.  For a period of at least 1, on a series that never falls, a flat
    one included, every RSI value [calculateRSI] defines is 100, and the
    store's single-value calculator answers 100 with a SELL of strength
    100; on a series that falls at every step every defined RSI value
    is 0. *)
Theorem calculateRSI_on_one_sided_series (closes : list number) (period : nat) :
  (1 <= period)%nat ->
  (neverFalls closes ->
   (forall i, (period <= i < length closes)%nat ->
              get (calculateRSI closes period) i = Some 100) /\
   ((period + 1 <= length closes)%nat ->
    Store.calculateRSI closes period = Store.mkIndicator 100 Store.SELL 100)) /\
  (alwaysFalls closes ->
   forall i, (period <= i < length closes)%nat ->
             exists r, get (calculateRSI closes period) i = Some r /\ r == 0).
Proof.
  intro Hp. pose proof (ofNat_pos period Hp) as Hq.
  assert (Hat : forall i, (period <= i < length closes)%nat ->
                  get (calculateRSI closes period) i
                  = Some (rsiOfAverages (rsiAverages closes period i))).
  { intros i [Hi1 Hi2]. unfold calculateRSI.
    rewrite (IndicatorFacts.get_map_seq _ _ _ Hi2).
    destruct (Nat.ltb_spec i period); [lia|reflexivity]. }
  split.
  - intro Hup. split.
    + intros i Hi. rewrite (Hat i Hi). f_equal.
      pose proof (zeros_average (lossesOf closes) period i (neverFalls_losses closes Hup))
        as [Z1 Z2].
      unfold rsiAverages. cbv zeta.
      destruct (i =? period)%nat; apply rsiOfAverages_flat; assumption.
    + intro Hlen. unfold Store.calculateRSI.
      destruct (Nat.ltb_spec (length closes) (period + 1)); [lia|]. cbv zeta.
      assert (Hl : snd (Store.smoothedAverages closes period
                          (length (Store.changesOf closes))) == 0).
      { unfold Store.smoothedAverages. cbv zeta.
        assert (Seed : forall idx acc, snd acc == 0 ->
                  snd (fold_left (Store.seedStep (Store.changesOf closes)) idx acc) == 0).
        { induction idx as [|j idx IH]; intros [g l] Hl; simpl; [assumption|].
          apply IH. simpl in Hl.
          pose proof (neverFalls_changes closes j Hup) as Hc.
          destruct (gtb _ 0) eqn:E; simpl; [assumption|].
          apply gtb_le in E. rewrite add_eq, Hl.
          unfold abs. apply Qabs_case; intro; lra. }
        assert (Smooth : forall idx acc, snd acc == 0 ->
                  snd (fold_left (Store.smoothStep (Store.changesOf closes) period)
                                 idx acc) == 0).
        { induction idx as [|j idx IH]; intros [g l] Hl; simpl; [assumption|].
          apply IH. simpl in Hl.
          pose proof (neverFalls_changes closes j Hup) as Hc.
          destruct (gtb _ 0) eqn:E; simpl.
          - num_norm. rewrite Hl.
            assert (E1 : 0 * (ofNat period - 1) == 0) by lra.
            rewrite E1. unfold Qdiv. apply Qmult_0_l.
          - apply gtb_le in E. num_norm. rewrite Hl.
            assert (Ea : abs (nth j (Store.changesOf closes) 0) == 0)
              by (unfold abs; apply Qabs_case; intro; lra).
            rewrite Ea.
            assert (E1 : 0 * (ofNat period - 1) + 0 == 0) by lra.
            rewrite E1. unfold Qdiv. apply Qmult_0_l. }
        specialize (Seed (seq 0 period) (0, 0) (Qeq_refl 0)).
        destruct (fold_left (Store.seedStep _) _ _) as [gains losses].
        simpl in Seed. apply Smooth. simpl. num_norm. rewrite Seed.
        unfold Qdiv. apply Qmult_0_l. }
      destruct (Store.smoothedAverages _ _ _) as [g l]. simpl in Hl.
      apply eqb_eq in Hl. rewrite Hl. reflexivity.
  - intros Hdown i Hi. rewrite (Hat i Hi). eexists. split; [reflexivity|].
    pose proof (zeros_average (gainsOf closes) period i (alwaysFalls_gains closes Hdown))
      as [Z1 Z2].
    pose proof (RsiFacts.lossesOf_nonneg closes) as Hnn.
    unfold rsiAverages. cbv zeta.
    destruct (Nat.eqb_spec i period) as [->|Hne].
    + apply rsiOfAverages_down; [assumption|].
      assert (Hin : In (nth (period - 1) (lossesOf closes) 0)
                       (slice (lossesOf closes) 0 period)).
      { pose proof (VolumeFacts.window_has_last (lossesOf closes) period (period - 1) Hp)
          as W.
        replace (period - 1 + 1 - period)%nat with 0%nat in W by lia.
        replace (period - 1 + 1)%nat with period in W by lia.
        apply W. rewrite losses_length. lia. }
      pose proof (VolumeFacts.elem_le_sum _ _ (Forall_slice _ _ 0%nat period Hnn) Hin)
        as Hle.
      pose proof (alwaysFalls_losses closes (period - 1) Hdown) as Hpos.
      assert (Hlt : (period - 1 < length closes - 1)%nat) by lia.
      specialize (Hpos Hlt).
      rewrite div_eq. apply Qlt_shift_div_l; [lra|]. unfold number in *. lra.
    + apply rsiOfAverages_down; [assumption|].
      pose proof (alwaysFalls_losses closes (i - 1) Hdown) as Hpos.
      assert (Hlt : (i - 1 < length closes - 1)%nat) by lia.
      specialize (Hpos Hlt).
      pose proof (RsiFacts.mean_nonneg (lossesOf closes) (i - period) i period Hnn)
        as Hm.
      unfold number in *. rewrite div_eq in Hm.
      num_norm. apply Qlt_shift_div_l; [lra|].
      match goal with
      | |- _ < ?a * ?b + _ =>
          assert (Hprod : 0 <= a * b) by (apply Qmult_le_0_compat; lra)
      end.
      lra.
Qed.

Lemma calculateRSI_on_one_sided_series_witness :
  (1 <= 3)%nat /\ neverFalls [5; 5; 5; 5; 5] /\
  get (calculateRSI [5; 5; 5; 5; 5] 3) 4 = Some 100 /\
  Store.calculateRSI [5; 5; 5; 5; 5] 3 = Store.mkIndicator 100 Store.SELL 100.
Proof.
  assert (H1 : (1 <= 3)%nat) by lia.
  assert (H2 : neverFalls [5; 5; 5; 5; 5]).
  { intros i Hi. simpl in Hi.
    do 4 (destruct i as [|i]; [simpl; lra|]). lia. }
  split; [exact H1|]. split; [exact H2|].
  destruct (proj1 (calculateRSI_on_one_sided_series [5; 5; 5; 5; 5] 3 H1) H2)
    as [Ha Hb].
  split.
  - apply Ha. simpl. lia.
  - apply Hb. simpl. lia.
Defined.

End RsiTrendFacts.
